(** * The recording orchestrator core

    A shallow embedding of the orchestration core of the recording
    orchestrator: [OrchestrationService] (registries, dispatcher, stop path,
    health loop, queue drain, heartbeats), [LoadBalancerService] (placement),
    the capacity estimate of [NodeManager] and the status graph of
    [RecordingJobModel].

    Conventions of the model.
    - A JavaScript [number] that the code only stores, counts up and down or
      compares is an exact rational ([Q]): such values are doubles and these
      operations are exact on them.  The score of the placement is computed
      and compared in IEEE doubles ([float]), with their rounding, their
      infinities and their NaN.
    - A [Map<string, V>] is an association list in insertion order
      ([JsMap]); [set] on a present key keeps the position of the key.
    - Job objects are shared between the active-jobs map and the pending
      queue, so they live in a heap of objects and both containers hold
      references (indices into the heap).  Node objects are only reached
      through their registry, under the key that equals their [id].
    - Every outbound call (HTTP to a recorder or a room server, a database
      write) is answered by an oracle; the call and every write to a job's
      [status] are appended to a log kept in the state.
    - An operation runs to completion before the next one starts: the
      interleaving of asynchronous handlers is outside the model.  The clock
      is read once per operation.
    - Logging, the events emitted to listeners and the broadcast to
      subscribers change nothing in the state of the core and are left out,
      and so are the fields that the core neither reads nor writes (disk
      and network figures of a node, metadata, requester, metrics). *)

From Stdlib Require Import ZArith QArith Qminmax Qround String Ascii List Bool Lia.
From Stdlib Require Import Floats.
From stdpp Require Import base list strings.
Import ListNotations.
Local Open Scope string_scope.
Local Open Scope list_scope.
Local Open Scope Z_scope.

(** ** JavaScript numbers *)

Module Num.

Definition leb (x y : Q) : bool := Qle_bool x y.
Definition ltb (x y : Q) : bool := negb (Qle_bool y x).
Definition geb (x y : Q) : bool := Qle_bool y x.
Definition gtb (x y : Q) : bool := negb (Qle_bool x y).

(** Truthiness of a number: every number but zero. *)
Definition truthy (x : Q) : bool := negb (Qeq_bool x 0).

(** [Math.floor]. *)
Definition floor (x : Q) : Q := inject_Z (Qfloor x).

(** [Math.min] of three numbers. *)
Definition min3 (x y z : Q) : Q := Qmin (Qmin x y) z.

End Num.

(** ** IEEE doubles *)

Module Double.

(** The double nearest to an integer. *)
Definition ofZ (z : Z) : float := SF2Prim (binary_normalize prec emax z 0 false).

(** The double that a field holds: the quotient is exact when the rational
    is the value of a double. *)
Definition ofQ (q : Q) : float := PrimFloat.div (ofZ (Qnum q)) (ofZ (Zpos (Qden q))).

(** [x > 0]. *)
Definition positive (x : float) : bool := PrimFloat.ltb 0 x.

(** [Math.max] and [Math.min] of two numbers: NaN if one of them is, and the
    negative zero below the positive one. *)
Definition max (x y : float) : float :=
  if PrimFloat.is_nan x then x
  else if PrimFloat.is_nan y then y
  else if PrimFloat.ltb x y then y
  else if PrimFloat.ltb y x then x
  else if PrimFloat.get_sign x then y else x.

Definition min (x y : float) : float :=
  if PrimFloat.is_nan x then x
  else if PrimFloat.is_nan y then y
  else if PrimFloat.ltb x y then x
  else if PrimFloat.ltb y x then y
  else if PrimFloat.get_sign x then x else y.

(** The comparator [(a, b) => b.score - a.score] puts [b] in front of [a]
    when the difference is positive. *)
Definition outranks (b a : float) : bool := positive (PrimFloat.sub b a).

End Double.

(** ** Insertion-ordered maps keyed by strings *)

Section JsMap.
Context {V : Type}.

Definition JsMap := list (string * V).

Fixpoint mget (k : string) (m : JsMap) : option V :=
  match m with
  | [] => None
  | (k', v) :: m' => if String.eqb k k' then Some v else mget k m'
  end.

Fixpoint mset (k : string) (v : V) (m : JsMap) : JsMap :=
  match m with
  | [] => [(k, v)]
  | (k', v') :: m' =>
      if String.eqb k k' then (k, v) :: m' else (k', v') :: mset k v m'
  end.

Fixpoint mdelete (k : string) (m : JsMap) : JsMap :=
  match m with
  | [] => []
  | (k', v') :: m' =>
      if String.eqb k k' then m' else (k', v') :: mdelete k m'
  end.

(** In-place mutation of the object stored under [k]. *)
Fixpoint malter (f : V -> V) (k : string) (m : JsMap) : JsMap :=
  match m with
  | [] => []
  | (k', v') :: m' =>
      if String.eqb k k' then (k', f v') :: m' else (k', v') :: malter f k m'
  end.

Definition mkeys (m : JsMap) : list string := map fst m.
Definition mvalues (m : JsMap) : list V := map snd m.

End JsMap.

Arguments JsMap V : clear implicits.

(** ** Data model ([types/interfaces]) *)

Inductive JobStatus : Type :=
  | pending | initializing | recording | completed | failed | cancelled.

Definition JobStatus_eqb (a b : JobStatus) : bool :=
  match a, b with
  | pending, pending | initializing, initializing | recording, recording
  | completed, completed | failed, failed | cancelled, cancelled => true
  | _, _ => false
  end.

Inductive StreamKind : Type := audio | video.
Inductive Quality : Type := low | medium | high.
Inductive Container : Type := mp4 | webm | mkv.

Record NodeSpecs : Type := {
  cpuCores : Q;
  ram : Q;
  hasGPU : bool
}.

Module RoomServerNode.
Record t : Type := {
  id : string;
  url : string;
  region : string;
  rooms : list string;
  capacity : Q;
  currentLoad : Q;
  isHealthy : bool;
  lastHeartbeat : Z;
  specs : NodeSpecs
}.

Definition with_currentLoad (v : Q) (n : t) : t :=
  {| id := id n; url := url n; region := region n; rooms := rooms n;
     capacity := capacity n; currentLoad := v; isHealthy := isHealthy n;
     lastHeartbeat := lastHeartbeat n; specs := specs n |}.

Definition with_isHealthy (v : bool) (n : t) : t :=
  {| id := id n; url := url n; region := region n; rooms := rooms n;
     capacity := capacity n; currentLoad := currentLoad n; isHealthy := v;
     lastHeartbeat := lastHeartbeat n; specs := specs n |}.

Definition with_lastHeartbeat (v : Z) (n : t) : t :=
  {| id := id n; url := url n; region := region n; rooms := rooms n;
     capacity := capacity n; currentLoad := currentLoad n;
     isHealthy := isHealthy n; lastHeartbeat := v; specs := specs n |}.

Definition with_rooms (v : list string) (n : t) : t :=
  {| id := id n; url := url n; region := region n; rooms := v;
     capacity := capacity n; currentLoad := currentLoad n;
     isHealthy := isHealthy n; lastHeartbeat := lastHeartbeat n;
     specs := specs n |}.
End RoomServerNode.

Module FFmpegNode.
Record t : Type := {
  id : string;
  url : string;
  region : string;
  capacity : Q;
  currentLoad : Q;
  isHealthy : bool;
  lastHeartbeat : Z;
  specs : NodeSpecs;
  supportedCodecs : list string;
  activeJobs : list string
}.

Definition with_currentLoad (v : Q) (n : t) : t :=
  {| id := id n; url := url n; region := region n; capacity := capacity n;
     currentLoad := v; isHealthy := isHealthy n;
     lastHeartbeat := lastHeartbeat n; specs := specs n;
     supportedCodecs := supportedCodecs n; activeJobs := activeJobs n |}.

Definition with_activeJobs (v : list string) (n : t) : t :=
  {| id := id n; url := url n; region := region n; capacity := capacity n;
     currentLoad := currentLoad n; isHealthy := isHealthy n;
     lastHeartbeat := lastHeartbeat n; specs := specs n;
     supportedCodecs := supportedCodecs n; activeJobs := v |}.

Definition with_isHealthy (v : bool) (n : t) : t :=
  {| id := id n; url := url n; region := region n; capacity := capacity n;
     currentLoad := currentLoad n; isHealthy := v;
     lastHeartbeat := lastHeartbeat n; specs := specs n;
     supportedCodecs := supportedCodecs n; activeJobs := activeJobs n |}.

Definition with_lastHeartbeat (v : Z) (n : t) : t :=
  {| id := id n; url := url n; region := region n; capacity := capacity n;
     currentLoad := currentLoad n; isHealthy := isHealthy n;
     lastHeartbeat := v; specs := specs n;
     supportedCodecs := supportedCodecs n; activeJobs := activeJobs n |}.
End FFmpegNode.

Record PeerInfo : Type := {
  pi_peerId : string;
  displayName : string;
  isAuthenticated : bool;
  roles : list string;
  joinTime : Z
}.

(** [port] is [None] where JavaScript has [undefined] (an index past the end
    of the allocated ports). *)
Record RTPStreamInfo : Type := {
  kind : StreamKind;
  port : option Z;
  payloadType : Z;
  ssrc : Z;
  codecName : string
}.

Record RecordingOptions : Type := {
  quality : Quality;
  format : Container;
  includeAudio : bool;
  includeVideo : bool
}.

Record RTPForwardingConfig : Type := {
  fw_jobId : string;
  fw_peerId : string;
  targetNode_ip : string;
  targetNode_ports : list Z;
  fw_rtpStreams : list RTPStreamInfo
}.

Module Job.
Record t : Type := {
  jobId : string;
  roomServerId : string;
  roomId : string;
  peerId : string;
  peerInfo : PeerInfo;
  ffmpegNodeId : string;
  rtpStreams : list RTPStreamInfo;
  rtpForwarding : option RTPForwardingConfig;
  options : RecordingOptions;
  status : JobStatus;
  startTime : Z;
  endTime : option Z;
  outputPath : option string;
  errorMessage : option string
}.

Definition with_status (v : JobStatus) (j : t) : t :=
  {| jobId := jobId j; roomServerId := roomServerId j; roomId := roomId j;
     peerId := peerId j; peerInfo := peerInfo j;
     ffmpegNodeId := ffmpegNodeId j; rtpStreams := rtpStreams j;
     rtpForwarding := rtpForwarding j; options := options j; status := v;
     startTime := startTime j; endTime := endTime j;
     outputPath := outputPath j; errorMessage := errorMessage j |}.

Definition with_ffmpegNodeId (v : string) (j : t) : t :=
  {| jobId := jobId j; roomServerId := roomServerId j; roomId := roomId j;
     peerId := peerId j; peerInfo := peerInfo j; ffmpegNodeId := v;
     rtpStreams := rtpStreams j; rtpForwarding := rtpForwarding j;
     options := options j; status := status j; startTime := startTime j;
     endTime := endTime j; outputPath := outputPath j;
     errorMessage := errorMessage j |}.

Definition with_rtpForwarding (v : option RTPForwardingConfig) (j : t) : t :=
  {| jobId := jobId j; roomServerId := roomServerId j; roomId := roomId j;
     peerId := peerId j; peerInfo := peerInfo j;
     ffmpegNodeId := ffmpegNodeId j; rtpStreams := rtpStreams j;
     rtpForwarding := v; options := options j; status := status j;
     startTime := startTime j; endTime := endTime j;
     outputPath := outputPath j; errorMessage := errorMessage j |}.

Definition with_endTime (v : option Z) (j : t) : t :=
  {| jobId := jobId j; roomServerId := roomServerId j; roomId := roomId j;
     peerId := peerId j; peerInfo := peerInfo j;
     ffmpegNodeId := ffmpegNodeId j; rtpStreams := rtpStreams j;
     rtpForwarding := rtpForwarding j; options := options j;
     status := status j; startTime := startTime j; endTime := v;
     outputPath := outputPath j; errorMessage := errorMessage j |}.

Definition with_errorMessage (v : option string) (j : t) : t :=
  {| jobId := jobId j; roomServerId := roomServerId j; roomId := roomId j;
     peerId := peerId j; peerInfo := peerInfo j;
     ffmpegNodeId := ffmpegNodeId j; rtpStreams := rtpStreams j;
     rtpForwarding := rtpForwarding j; options := options j;
     status := status j; startTime := startTime j; endTime := endTime j;
     outputPath := outputPath j; errorMessage := v |}.
End Job.

Record DistributedRecordingRequest : Type := {
  rq_roomServerId : string;
  rq_roomId : string;
  rq_peerId : string;
  rq_peerInfo : PeerInfo;
  rq_rtpStreams : list RTPStreamInfo;
  rq_options : RecordingOptions
}.

(** The optional fields are [None] (or [false]) where the caller leaves them
    out. *)
Record RecordingRequirements : Type := {
  rr_region : string;
  codecRequirements : list string;
  estimatedLoad : Q;
  preferGPU : bool;
  minCPUCores : option Q;
  minRAM : option Q
}.

(** ** The status graph ([RecordingJobModel]) *)

Definition validTransitions (s : JobStatus) : list JobStatus :=
  match s with
  | pending => [initializing; failed; cancelled]
  | initializing => [recording; failed; cancelled]
  | recording => [completed; failed; cancelled]
  | completed => []
  | failed => []
  | cancelled => []
  end.

Definition isValidStatusTransition (currentStatus newStatus : JobStatus) : bool :=
  existsb (JobStatus_eqb newStatus) (validTransitions currentStatus).

Definition isTerminalStatus (s : JobStatus) : bool :=
  existsb (JobStatus_eqb s) [completed; failed; cancelled].

Definition isTerminal (j : Job.t) : bool := isTerminalStatus (Job.status j).

(** ** Placement ([LoadBalancerService]) *)

Definition includes (l : list string) (x : string) : bool :=
  existsb (String.eqb x) l.

Definition codecMatch (node : FFmpegNode.t) (requirements : RecordingRequirements) : bool :=
  forallb (includes (FFmpegNode.supportedCodecs node)) (codecRequirements requirements).

Definition calculateNodeScore (node : FFmpegNode.t) (requirements : RecordingRequirements)
  : float :=
  let capacity := Double.ofQ (FFmpegNode.capacity node) in
  let currentLoad := Double.ofQ (FFmpegNode.currentLoad node) in
  let estimatedLoad := Double.ofQ (estimatedLoad requirements) in
  let score := 0%float in
  let capacityScore := ((capacity - currentLoad) / capacity * 40)%float in
  let score := (score + capacityScore)%float in
  let score :=
    if String.eqb (FFmpegNode.region node) (rr_region requirements)
    then (score + 25)%float else (score - 10)%float in
  let gpu := hasGPU (FFmpegNode.specs node) in
  let score :=
    if gpu && PrimFloat.ltb 2 estimatedLoad then (score + 20)%float
    else if negb gpu && PrimFloat.leb estimatedLoad 1 then (score + 10)%float
    else score in
  let cpuBonus :=
    Double.min (Double.ofQ (cpuCores (FFmpegNode.specs node)) * 2)%float 10%float in
  let score := (score + cpuBonus)%float in
  let loadPenalty := (currentLoad / capacity * 5)%float in
  let score := (score - loadPenalty)%float in
  let score := if codecMatch node requirements then (score + 5)%float else score in
  Double.max score 0%float.

(** [Array.prototype.sort] is stable; with the comparator
    [(a, b) => b.score - a.score] an element stays in front of every later
    element that does not outrank it.  (The order that [sort] produces is
    defined when the comparator is consistent on the elements.) *)
Fixpoint insertByScore (x : FFmpegNode.t * float) (l : list (FFmpegNode.t * float))
  : list (FFmpegNode.t * float) :=
  match l with
  | [] => [x]
  | y :: l' =>
      if Double.outranks (snd y) (snd x) then y :: insertByScore x l'
      else x :: y :: l'
  end.

Fixpoint sortByScore (l : list (FFmpegNode.t * float)) : list (FFmpegNode.t * float) :=
  match l with
  | [] => []
  | x :: l' => insertByScore x (sortByScore l')
  end.

Definition isEmpty {A : Type} (l : list A) : bool :=
  match l with [] => true | _ => false end.

(** [xs.length > 0 ? xs : fallback]. *)
Definition orElse {A : Type} (xs fallback : list A) : list A :=
  if isEmpty xs then fallback else xs.

Definition available (node : FFmpegNode.t) : bool :=
  FFmpegNode.isHealthy node
  && Num.ltb (FFmpegNode.currentLoad node) (FFmpegNode.capacity node).

Definition hardwareFilter (requirements : RecordingRequirements)
    (finalCandidates : list FFmpegNode.t) : list FFmpegNode.t :=
  let hardwareFilteredNodes :=
    if preferGPU requirements then
      orElse (List.filter (fun node => hasGPU (FFmpegNode.specs node)) finalCandidates)
             finalCandidates
    else finalCandidates in
  let hardwareFilteredNodes :=
    match minCPUCores requirements with
    | Some c =>
        if Num.truthy c then
          List.filter (fun node => Num.geb (cpuCores (FFmpegNode.specs node)) c)
                 hardwareFilteredNodes
        else hardwareFilteredNodes
    | None => hardwareFilteredNodes
    end in
  match minRAM requirements with
  | Some r =>
      if Num.truthy r then
        List.filter (fun node => Num.geb (ram (FFmpegNode.specs node)) r)
               hardwareFilteredNodes
      else hardwareFilteredNodes
  | None => hardwareFilteredNodes
  end.

Definition candidates (availableNodes : list FFmpegNode.t)
    (requirements : RecordingRequirements) : list FFmpegNode.t :=
  let healthyNodes := List.filter available availableNodes in
  let preferredRegionNodes :=
    List.filter (fun node => String.eqb (FFmpegNode.region node) (rr_region requirements))
           healthyNodes in
  let candidateNodes := orElse preferredRegionNodes healthyNodes in
  let codecCompatibleNodes :=
    List.filter (fun node => codecMatch node requirements) candidateNodes in
  let finalCandidates := orElse codecCompatibleNodes candidateNodes in
  hardwareFilter requirements finalCandidates.

Definition selectOptimalFFmpegNode (availableNodes : list FFmpegNode.t)
    (requirements : RecordingRequirements) : option FFmpegNode.t :=
  let scoredNodes :=
    map (fun node => (node, calculateNodeScore node requirements))
        (candidates availableNodes requirements) in
  match sortByScore scoredNodes with
  | [] => None
  | first :: _ => Some (fst first)
  end.

(** ** Capacity of a recorder *)

(** [OrchestrationService.calculateNodeCapacity]. *)
Definition calculateNodeCapacity (specs : NodeSpecs) : Q :=
  let capacity := (cpuCores specs * (3 # 2))%Q in
  let capacity := if hasGPU specs then (capacity * 2)%Q else capacity in
  let ramCapacity := Num.floor (ram specs / (500 * 1024 * 1024))%Q in
  Num.min3 capacity ramCapacity 12.

(** [NodeManager.estimateCapacity]. *)
Definition estimateCapacity (specs : NodeSpecs) : Q :=
  let capacity := (cpuCores specs * (3 # 2))%Q in
  let capacity := if hasGPU specs then (capacity * 2)%Q else capacity in
  let ramCapacity := Num.floor (ram specs / (500 * 1024 * 1024))%Q in
  Num.min3 capacity ramCapacity 12.

(** ** Outbound calls, the oracle and the log *)

Inductive Call : Type :=
  | AllocatePorts (url : string) (count : nat)
  | ConfigureRtpForwarding (url : string) (config : RTPForwardingConfig)
  | StartRecording (url : string) (jobId : string) (streams : list RTPStreamInfo)
  | StopRecording (url : string) (jobId : string)
  | StopRtpForwarding (url : string) (jobId : string)
  | DbSaveRoomServer (id : string)
  | DbSaveFFmpegNode (id : string)
  | DbSaveRecordingJob (jobId : string)
  | DbUpdateRecordingJob (jobId : string).

(** The HTTP calls, as opposed to the database writes. *)
Definition isRpc (c : Call) : bool :=
  match c with
  | AllocatePorts _ _ | ConfigureRtpForwarding _ _ | StartRecording _ _ _
  | StopRecording _ _ | StopRtpForwarding _ _ => true
  | _ => false
  end.

(** A call is rejected (the promise rejects: network error, timeout, failed
    query) or answered.  [ports] is the body of an [allocate-ports] answer. *)
Inductive Reply : Type :=
  | Rejected (message : string)
  | Response (ok : bool) (statusText : string) (ports : list Z).

(** The answer may depend on the position of the call in the log. *)
Definition Oracle : Type := nat -> Call -> Reply.

Inductive Event : Type :=
  | Called (c : Call)
  | StatusSet (job : nat) (old new : JobStatus).

Record State : Type := {
  roomServers : JsMap RoomServerNode.t;
  ffmpegNodes : JsMap FFmpegNode.t;
  jobs : list Job.t;
  activeJobs : JsMap nat;
  jobQueue : list nat;
  log : list Event
}.

Definition initialState : State :=
  {| roomServers := []; ffmpegNodes := []; jobs := []; activeJobs := [];
     jobQueue := []; log := [] |}.

Definition with_roomServers (f : JsMap RoomServerNode.t -> JsMap RoomServerNode.t)
    (s : State) : State :=
  {| roomServers := f (roomServers s); ffmpegNodes := ffmpegNodes s;
     jobs := jobs s; activeJobs := activeJobs s; jobQueue := jobQueue s;
     log := log s |}.

Definition with_ffmpegNodes (f : JsMap FFmpegNode.t -> JsMap FFmpegNode.t)
    (s : State) : State :=
  {| roomServers := roomServers s; ffmpegNodes := f (ffmpegNodes s);
     jobs := jobs s; activeJobs := activeJobs s; jobQueue := jobQueue s;
     log := log s |}.

Definition with_jobs (f : list Job.t -> list Job.t) (s : State) : State :=
  {| roomServers := roomServers s; ffmpegNodes := ffmpegNodes s;
     jobs := f (jobs s); activeJobs := activeJobs s; jobQueue := jobQueue s;
     log := log s |}.

Definition with_activeJobs (f : JsMap nat -> JsMap nat) (s : State) : State :=
  {| roomServers := roomServers s; ffmpegNodes := ffmpegNodes s;
     jobs := jobs s; activeJobs := f (activeJobs s); jobQueue := jobQueue s;
     log := log s |}.

Definition with_jobQueue (f : list nat -> list nat) (s : State) : State :=
  {| roomServers := roomServers s; ffmpegNodes := ffmpegNodes s;
     jobs := jobs s; activeJobs := activeJobs s; jobQueue := f (jobQueue s);
     log := log s |}.

Definition with_log (f : list Event -> list Event) (s : State) : State :=
  {| roomServers := roomServers s; ffmpegNodes := ffmpegNodes s;
     jobs := jobs s; activeJobs := activeJobs s; jobQueue := jobQueue s;
     log := f (log s) |}.

(** ** Computations: state and exceptions *)

Inductive Outcome (A : Type) : Type :=
  | Returned (a : A) (s : State)
  | Thrown (message : string) (s : State).

Arguments Returned {A} a s.
Arguments Thrown {A} message s.

Definition M (A : Type) : Type := State -> Outcome A.

Definition ret {A : Type} (a : A) : M A := fun s => Returned a s.

Definition bind {A B : Type} (m : M A) (k : A -> M B) : M B :=
  fun s =>
    match m s with
    | Returned a s' => k a s'
    | Thrown message s' => Thrown message s'
    end.

Definition throw {A : Type} (message : string) : M A :=
  fun s => Thrown message s.

Definition tryCatch {A : Type} (m : M A) (handler : string -> M A) : M A :=
  fun s =>
    match m s with
    | Returned a s' => Returned a s'
    | Thrown message s' => handler message s'
    end.

Definition get : M State := fun s => Returned s s.

Definition modify (f : State -> State) : M unit := fun s => Returned tt (f s).

Definition finalState {A : Type} (o : Outcome A) : State :=
  match o with
  | Returned _ s => s
  | Thrown _ s => s
  end.

Declare Scope orch_scope.
Delimit Scope orch_scope with orch.

Notation "x <- m ;; k" := (bind m (fun x => k))
  (at level 100, m at next level, right associativity) : orch_scope.
Notation "m ;; k" := (bind m (fun _ => k))
  (at level 100, right associativity) : orch_scope.

Local Open Scope orch_scope.

Fixpoint forEach {A : Type} (l : list A) (body : A -> M unit) : M unit :=
  match l with
  | [] => ret tt
  | x :: l' => body x ;; forEach l' body
  end.

(** A loop that carries a local variable. *)
Fixpoint forEachWith {A L : Type} (l : list A) (local : L)
    (body : L -> A -> M L) : M L :=
  match l with
  | [] => ret local
  | x :: l' => local' <- body local x ;; forEachWith l' local' body
  end.

(** *** Job objects *)

(** Runs [k] on the object behind a reference (nothing for a reference that
    points nowhere, which no container ever holds). *)
Definition withJob (r : nat) (k : Job.t -> M unit) : M unit :=
  fun s =>
    match jobs s !! r with
    | Some job => k job s
    | None => Returned tt s
    end.

Definition newJob (job : Job.t) : M nat :=
  fun s => Returned (length (jobs s)) (with_jobs (fun h => h ++ [job]) s).

Definition updateJob (r : nat) (f : Job.t -> Job.t) : M unit :=
  modify (with_jobs (alter f r)).

(** [job.status = v], recorded in the log. *)
Definition setStatus (r : nat) (v : JobStatus) : M unit :=
  withJob r (fun job =>
    modify (with_log (fun l => l ++ [StatusSet r (Job.status job) v])) ;;
    updateJob r (Job.with_status v)).

(** ** Requests from the boundary *)

(** A field is [None] where the caller leaves it out ([undefined]). *)
Record RoomServerRegistration : Type := {
  serverId : string;
  rsr_url : string;
  rsr_region : string;
  rsr_rooms : option (list string);
  rsr_capacity : Q;
  rsr_specs : NodeSpecs
}.

Record FFmpegNodeRegistration : Type := {
  fnr_url : string;
  fnr_region : string;
  fnr_specs : NodeSpecs;
  fnr_supportedCodecs : option (list string)
}.

Record RoomServerHeartbeat : Type := {
  rsh_currentLoad : option Q;
  rsh_rooms : option (list string)
}.

Record FFmpegNodeHeartbeat : Type := {
  fnh_currentLoad : option Q;
  fnh_activeJobs : option (list string)
}.

(** [x || fallback] on an optional number: zero is falsy. *)
Definition numberOr (x : option Q) (fallback : Q) : Q :=
  match x with
  | Some v => if Num.truthy v then v else fallback
  | None => fallback
  end.

(** [x || fallback] on an optional array: every array is truthy. *)
Definition arrayOr {A : Type} (x : option (list A)) (fallback : list A) : list A :=
  match x with
  | Some v => v
  | None => fallback
  end.

(** [x || fallback] on a string: the empty string is falsy. *)
Definition stringOr (x fallback : string) : string :=
  if String.eqb x "" then fallback else x.

(** ** Utility methods of the orchestrator *)

(** [[...new Set(xs)]]: the first occurrence of each element, in order. *)
Fixpoint unique (seen xs : list string) : list string :=
  match xs with
  | [] => []
  | x :: xs' =>
      if includes seen x then unique seen xs' else x :: unique (x :: seen) xs'
  end.

Definition extractCodecRequirements (rtpStreams : list RTPStreamInfo) : list string :=
  unique [] (map codecName rtpStreams).

Definition isVideo (s : RTPStreamInfo) : bool :=
  match kind s with video => true | audio => false end.

Definition estimateRecordingLoad (rtpStreams : list RTPStreamInfo)
    (options : RecordingOptions) : Q :=
  let load := 1%Q in
  if existsb isVideo rtpStreams then
    (load + match quality options with
            | high => 2
            | medium => 1
            | low => 1 # 2
            end)%Q
  else load.

(** The text matched by [[^:\/]+]. *)
Fixpoint hostOf (s : string) : string :=
  match s with
  | EmptyString => EmptyString
  | String c s' =>
      if Ascii.eqb c ":" || Ascii.eqb c "/" then EmptyString
      else String c (hostOf s')
  end.

Definition afterPrefix (p s : string) : option string :=
  if String.prefix p s
  then Some (String.substring (String.length p) (String.length s - String.length p) s)
  else None.

(** [url.match(/^https?:\/\/([^:\/]+)/)]. *)
Definition extractIPFromURL (url : string) : string :=
  let rest :=
    match afterPrefix "https://" url with
    | Some r => Some r
    | None => afterPrefix "http://" url
    end in
  match rest with
  | Some r => stringOr (hostOf r) "localhost"
  | None => "localhost"
  end.

(** [array.splice(array.indexOf(x), 1)] when [x] occurs. *)
Fixpoint removeFirst {A : Type} (eqb : A -> A -> bool) (x : A) (l : list A) : list A :=
  match l with
  | [] => []
  | y :: l' => if eqb x y then l' else y :: removeFirst eqb x l'
  end.

(** The streams of a job with their ports rewritten to the allocated ones. *)
Fixpoint rewritePorts (index : nat) (rtpPorts : list Z) (streams : list RTPStreamInfo)
  : list RTPStreamInfo :=
  match streams with
  | [] => []
  | stream :: streams' =>
      {| kind := kind stream; port := rtpPorts !! index;
         payloadType := payloadType stream; ssrc := ssrc stream;
         codecName := codecName stream |}
      :: rewritePorts (S index) rtpPorts streams'
  end.

(** ** The orchestrator ([OrchestrationService]) *)

Section Orchestrator.

(** The environment of one operation: the answers to its outbound calls and
    its reading of the clock. *)
Variable orc : Oracle.
Variable now : Z.

(** An awaited outbound call: logged, then answered by the oracle. *)
Definition call (c : Call) : M Reply :=
  fun s => Returned (orc (length (log s)) c) (with_log (fun l => l ++ [Called c]) s).

(** [await fetch(...)]: a rejected call throws, an answered one yields the
    response. *)
Definition fetch (c : Call) : M (bool * string * list Z) :=
  reply <- call c ;;
  match reply with
  | Rejected message => throw message
  | Response ok statusText ports => ret (ok, statusText, ports)
  end.

(** [await this.database....]: a failed query throws. *)
Definition database (c : Call) : M unit :=
  reply <- call c ;;
  match reply with
  | Rejected message => throw message
  | Response _ _ _ => ret tt
  end.

Definition registerRoomServer (registration : RoomServerRegistration) : M string :=
  let roomServer :=
    {| RoomServerNode.id := serverId registration;
       RoomServerNode.url := rsr_url registration;
       RoomServerNode.region := rsr_region registration;
       RoomServerNode.rooms := arrayOr (rsr_rooms registration) [];
       RoomServerNode.capacity := rsr_capacity registration;
       RoomServerNode.currentLoad := 0;
       RoomServerNode.isHealthy := true;
       RoomServerNode.lastHeartbeat := now;
       RoomServerNode.specs := rsr_specs registration |} in
  modify (with_roomServers (mset (RoomServerNode.id roomServer) roomServer)) ;;
  database (DbSaveRoomServer (RoomServerNode.id roomServer)) ;;
  ret (RoomServerNode.id roomServer).

(** [stamp] stands for the generated part of the identifier (the clock
    reading and the random suffix). *)
Definition registerFFmpegNode (registration : FFmpegNodeRegistration) (stamp : string)
  : M string :=
  let nodeId := "ffmpeg-" +:+ fnr_region registration +:+ "-" +:+ stamp in
  let ffmpegNode :=
    {| FFmpegNode.id := nodeId;
       FFmpegNode.url := fnr_url registration;
       FFmpegNode.region := fnr_region registration;
       FFmpegNode.capacity := calculateNodeCapacity (fnr_specs registration);
       FFmpegNode.currentLoad := 0;
       FFmpegNode.isHealthy := true;
       FFmpegNode.lastHeartbeat := now;
       FFmpegNode.specs := fnr_specs registration;
       FFmpegNode.supportedCodecs :=
         arrayOr (fnr_supportedCodecs registration) ["h264"; "vp8"; "opus"];
       FFmpegNode.activeJobs := [] |} in
  modify (with_ffmpegNodes (mset nodeId ffmpegNode)) ;;
  database (DbSaveFFmpegNode nodeId) ;;
  ret nodeId.

Definition allocateRTPPorts (ffmpegNode : FFmpegNode.t) (count : nat) : M (list Z) :=
  response <- fetch (AllocatePorts (FFmpegNode.url ffmpegNode) count) ;;
  let '(ok, _, ports) := response in
  if negb ok then throw "Failed to allocate RTP ports" else ret ports.

Definition setupRTPForwarding (r : nat) (job : Job.t)
    (roomServer : RoomServerNode.t) (ffmpegNode : FFmpegNode.t) : M unit :=
  rtpPorts <- allocateRTPPorts ffmpegNode (length (Job.rtpStreams job)) ;;
  let forwardingConfig :=
    {| fw_jobId := Job.jobId job;
       fw_peerId := Job.peerId job;
       targetNode_ip := extractIPFromURL (FFmpegNode.url ffmpegNode);
       targetNode_ports := rtpPorts;
       fw_rtpStreams := rewritePorts 0 rtpPorts (Job.rtpStreams job) |} in
  response <- fetch (ConfigureRtpForwarding (RoomServerNode.url roomServer) forwardingConfig) ;;
  let '(ok, statusText, _) := response in
  if negb ok then throw ("Failed to configure RTP forwarding: " +:+ statusText)
  else updateJob r (Job.with_rtpForwarding (Some forwardingConfig)).

Definition startRecordingOnNode (r : nat) (ffmpegNode : FFmpegNode.t) : M unit :=
  withJob r (fun job =>
    match Job.rtpForwarding job with
    | None => throw "Cannot read properties of undefined (reading 'rtpStreams')"
    | Some forwarding =>
        response <- fetch (StartRecording (FFmpegNode.url ffmpegNode) (Job.jobId job)
                             (fw_rtpStreams forwarding)) ;;
        let '(ok, statusText, _) := response in
        if negb ok
        then throw ("Failed to start recording on FFmpeg node: " +:+ statusText)
        else ret tt
    end).

(** The [try] block of [assignJobToNode].  The nodes are named by their
    registry keys; their counters are read and written in place. *)
Definition assignSteps (r : nat) (job : Job.t) (ffmpegNode : FFmpegNode.t)
    (roomServer : RoomServerNode.t) : M unit :=
  setStatus r initializing ;;
  updateJob r (Job.with_ffmpegNodeId (FFmpegNode.id ffmpegNode)) ;;
  setupRTPForwarding r job roomServer ffmpegNode ;;
  startRecordingOnNode r ffmpegNode ;;
  modify (with_roomServers (malter
    (fun n => RoomServerNode.with_currentLoad (RoomServerNode.currentLoad n + 1)%Q n)
    (RoomServerNode.id roomServer))) ;;
  modify (with_ffmpegNodes (malter
    (fun n => FFmpegNode.with_currentLoad (FFmpegNode.currentLoad n + 1)%Q n)
    (FFmpegNode.id ffmpegNode))) ;;
  modify (with_ffmpegNodes (malter
    (fun n => FFmpegNode.with_activeJobs (FFmpegNode.activeJobs n ++ [Job.jobId job]) n)
    (FFmpegNode.id ffmpegNode))) ;;
  setStatus r recording ;;
  database (DbUpdateRecordingJob (Job.jobId job)).

(** Its [catch] block. *)
Definition assignFailed (r : nat) (message : string) : M unit :=
  setStatus r failed ;;
  updateJob r (Job.with_errorMessage (Some message)).

Definition assignJobToNode (r : nat) (ffmpegNode : FFmpegNode.t)
    (roomServer : RoomServerNode.t) : M unit :=
  withJob r (fun job =>
    tryCatch (assignSteps r job ffmpegNode roomServer) (assignFailed r)).

Definition startDistributedRecording (request : DistributedRecordingRequest)
    (stamp : string) : M string :=
  let jobId := "rec-" +:+ stamp in
  s <- get ;;
  match mget (rq_roomServerId request) (roomServers s) with
  | None => throw ("Room server " +:+ rq_roomServerId request +:+ " is not available")
  | Some roomServer =>
      if negb (RoomServerNode.isHealthy roomServer)
      then throw ("Room server " +:+ rq_roomServerId request +:+ " is not available")
      else
        r <- newJob
          {| Job.jobId := jobId;
             Job.roomServerId := rq_roomServerId request;
             Job.roomId := rq_roomId request;
             Job.peerId := rq_peerId request;
             Job.peerInfo := rq_peerInfo request;
             Job.ffmpegNodeId := "";
             Job.rtpStreams := rq_rtpStreams request;
             Job.rtpForwarding := None;
             Job.options := rq_options request;
             Job.status := pending;
             Job.startTime := now;
             Job.endTime := None;
             Job.outputPath := None;
             Job.errorMessage := None |} ;;
        match selectOptimalFFmpegNode (mvalues (ffmpegNodes s))
                {| rr_region := RoomServerNode.region roomServer;
                   codecRequirements := extractCodecRequirements (rq_rtpStreams request);
                   estimatedLoad :=
                     estimateRecordingLoad (rq_rtpStreams request) (rq_options request);
                   preferGPU := false; minCPUCores := None; minRAM := None |} with
        | Some selectedNode => assignJobToNode r selectedNode roomServer
        | None => modify (with_jobQueue (fun q => q ++ [r]))
        end ;;
        modify (with_activeJobs (mset jobId r)) ;;
        database (DbSaveRecordingJob jobId) ;;
        ret jobId
  end.

Definition stopRecordingOnNode (job : Job.t) (ffmpegNode : FFmpegNode.t) : M unit :=
  response <- fetch (StopRecording (FFmpegNode.url ffmpegNode) (Job.jobId job)) ;;
  let '(ok, _, _) := response in
  if ok then
    modify (with_ffmpegNodes (malter
      (fun n => FFmpegNode.with_currentLoad (Qmax 0 (FFmpegNode.currentLoad n - 1)) n)
      (FFmpegNode.id ffmpegNode))) ;;
    modify (with_ffmpegNodes (malter
      (fun n => FFmpegNode.with_activeJobs
         (List.filter (fun id => negb (String.eqb id (Job.jobId job))) (FFmpegNode.activeJobs n)) n)
      (FFmpegNode.id ffmpegNode)))
  else ret tt.

Definition stopRTPForwarding (job : Job.t) (roomServer : RoomServerNode.t) : M unit :=
  response <- fetch (StopRtpForwarding (RoomServerNode.url roomServer) (Job.jobId job)) ;;
  let '(ok, _, _) := response in
  if ok then
    modify (with_roomServers (malter
      (fun n => RoomServerNode.with_currentLoad (Qmax 0 (RoomServerNode.currentLoad n - 1)) n)
      (RoomServerNode.id roomServer)))
  else ret tt.

Definition stopDistributedRecording (jobId : string) : M string :=
  s <- get ;;
  match mget jobId (activeJobs s) with
  | None => throw ("Recording job " +:+ jobId +:+ " not found")
  | Some r =>
      match jobs s !! r with
      | None => throw ("Recording job " +:+ jobId +:+ " not found")
      | Some job =>
          tryCatch
            (match mget (Job.ffmpegNodeId job) (ffmpegNodes s) with
             | Some ffmpegNode => stopRecordingOnNode job ffmpegNode
             | None => ret tt
             end ;;
             match mget (Job.roomServerId job) (roomServers s) with
             | Some roomServer => stopRTPForwarding job roomServer
             | None => ret tt
             end ;;
             setStatus r completed ;;
             updateJob r (Job.with_endTime (Some now)) ;;
             database (DbUpdateRecordingJob jobId) ;;
             modify (with_activeJobs (mdelete jobId)) ;;
             ret (match Job.outputPath job with
                  | Some path => stringOr path ("Recording " +:+ jobId +:+ " completed")
                  | None => "Recording " +:+ jobId +:+ " completed"
                  end))
            (fun message =>
               setStatus r failed ;;
               updateJob r (Job.with_errorMessage (Some message)) ;;
               updateJob r (Job.with_endTime (Some now)) ;;
               throw message)
      end
  end.

(** The jobs of the active map (their references, in map order) that satisfy
    [p] now. *)
Definition activeJobsWhere (p : Job.t -> bool) (s : State) : list nat :=
  List.filter (fun r => match jobs s !! r with
                   | Some job => p job
                   | None => false
                   end) (mvalues (activeJobs s)).

(** The body of the loop of [handleUnhealthyRoomServer]. *)
Definition failAffectedJob (r : nat) : M unit :=
  setStatus r failed ;;
  updateJob r (Job.with_errorMessage (Some "Room server became unhealthy")) ;;
  updateJob r (Job.with_endTime (Some now)) ;;
  withJob r (fun job =>
    s' <- get ;;
    match mget (Job.ffmpegNodeId job) (ffmpegNodes s') with
    | Some ffmpegNode =>
        tryCatch (stopRecordingOnNode job ffmpegNode) (fun _ => ret tt)
    | None => ret tt
    end).

Definition handleUnhealthyRoomServer (id : string) : M unit :=
  modify (with_roomServers (malter (RoomServerNode.with_isHealthy false) id)) ;;
  s <- get ;;
  let affectedJobs :=
    activeJobsWhere (fun job =>
      String.eqb (Job.roomServerId job) id && JobStatus_eqb (Job.status job) recording) s in
  forEach affectedJobs failAffectedJob.

(** The requirement that the failover of a recorder hands to the placement. *)
Definition failoverRequirement (job : Job.t) : RecordingRequirements :=
  {| rr_region := stringOr (displayName (Job.peerInfo job)) "default";
     codecRequirements := extractCodecRequirements (Job.rtpStreams job);
     estimatedLoad := 1;
     preferGPU := false; minCPUCores := None; minRAM := None |}.

(** The body of the loop of [handleUnhealthyFFmpegNode]. *)
Definition reassignJob (id : string) (r : nat) : M unit :=
  withJob r (fun job =>
    s' <- get ;;
    match selectOptimalFFmpegNode
            (List.filter (fun n => FFmpegNode.isHealthy n
                                   && negb (String.eqb (FFmpegNode.id n) id))
                         (mvalues (ffmpegNodes s')))
            (failoverRequirement job) with
    | Some newNode =>
        match mget (Job.roomServerId job) (roomServers s') with
        | Some roomServer =>
            setStatus r pending ;;
            updateJob r (Job.with_ffmpegNodeId "") ;;
            assignJobToNode r newNode roomServer
        | None => ret tt
        end
    | None =>
        setStatus r failed ;;
        updateJob r (Job.with_errorMessage
                       (Some "No available FFmpeg nodes for reassignment")) ;;
        updateJob r (Job.with_endTime (Some now))
    end).

Definition handleUnhealthyFFmpegNode (id : string) : M unit :=
  modify (with_ffmpegNodes (malter (FFmpegNode.with_isHealthy false) id)) ;;
  s <- get ;;
  let affectedJobs :=
    activeJobsWhere (fun job =>
      String.eqb (Job.ffmpegNodeId job) id && JobStatus_eqb (Job.status job) recording) s in
  forEach affectedJobs (reassignJob id).

(** The node objects behind the references of a local array. *)
Definition nodesOf (keys : list string) (s : State) : list FFmpegNode.t :=
  omap (fun k => mget k (ffmpegNodes s)) keys.

(** The body of the drain loop; [availableNodes] is the local array of the
    pass (references to node objects). *)
Definition processQueuedJob (availableNodes : list string) (r : nat)
  : M (list string) :=
  s <- get ;;
  match jobs s !! r with
  | None => ret availableNodes
  | Some job =>
      match mget (Job.roomServerId job) (roomServers s) with
      | None => ret availableNodes
      | Some roomServer =>
          if negb (RoomServerNode.isHealthy roomServer) then ret availableNodes
          else
            match selectOptimalFFmpegNode (nodesOf availableNodes s)
                    {| rr_region := RoomServerNode.region roomServer;
                       codecRequirements := extractCodecRequirements (Job.rtpStreams job);
                       estimatedLoad :=
                         estimateRecordingLoad (Job.rtpStreams job) (Job.options job);
                       preferGPU := false; minCPUCores := None; minRAM := None |} with
            | None => ret availableNodes
            | Some selectedNode =>
                modify (with_jobQueue (removeFirst Nat.eqb r)) ;;
                assignJobToNode r selectedNode roomServer ;;
                ret (removeFirst String.eqb (FFmpegNode.id selectedNode) availableNodes)
            end
      end
  end.

Definition processJobQueue : M unit :=
  s <- get ;;
  if isEmpty (jobQueue s) then ret tt
  else
    let availableNodes :=
      map fst (List.filter (fun kv => available (snd kv)) (ffmpegNodes s)) in
    forEachWith (jobQueue s) availableNodes processQueuedJob ;;
    ret tt.

Definition timeoutMs : Z := 60000.

Definition performHealthChecks : M unit :=
  s <- get ;;
  forEach (mkeys (roomServers s)) (fun id =>
    s' <- get ;;
    match mget id (roomServers s') with
    | Some roomServer =>
        if Z.ltb timeoutMs (now - RoomServerNode.lastHeartbeat roomServer)
        then handleUnhealthyRoomServer id else ret tt
    | None => ret tt
    end) ;;
  forEach (mkeys (ffmpegNodes s)) (fun id =>
    s' <- get ;;
    match mget id (ffmpegNodes s') with
    | Some ffmpegNode =>
        if Z.ltb timeoutMs (now - FFmpegNode.lastHeartbeat ffmpegNode)
        then handleUnhealthyFFmpegNode id else ret tt
    | None => ret tt
    end) ;;
  processJobQueue.

Definition updateRoomServerHeartbeat (id : string) (data : RoomServerHeartbeat) : M unit :=
  modify (with_roomServers (malter (fun roomServer =>
    let n := RoomServerNode.with_lastHeartbeat now roomServer in
    let n := RoomServerNode.with_currentLoad
               (numberOr (rsh_currentLoad data) (RoomServerNode.currentLoad n)) n in
    let n := RoomServerNode.with_rooms
               (arrayOr (rsh_rooms data) (RoomServerNode.rooms n)) n in
    RoomServerNode.with_isHealthy true n) id)).

Definition updateFFmpegNodeHeartbeat (nodeId : string) (data : FFmpegNodeHeartbeat) : M unit :=
  modify (with_ffmpegNodes (malter (fun ffmpegNode =>
    let n := FFmpegNode.with_lastHeartbeat now ffmpegNode in
    let n := FFmpegNode.with_currentLoad
               (numberOr (fnh_currentLoad data) (FFmpegNode.currentLoad n)) n in
    let n := FFmpegNode.with_activeJobs
               (arrayOr (fnh_activeJobs data) (FFmpegNode.activeJobs n)) n in
    FFmpegNode.with_isHealthy true n) nodeId)).

(** [restoreState], given what the three database reads return (a failed
    read is caught and leaves the state as it is, which is the case of three
    empty lists on a fresh instance). *)
Definition restoreState (storedRoomServers : list RoomServerNode.t)
    (storedFFmpegNodes : list FFmpegNode.t) (storedJobs : list Job.t) : M unit :=
  forEach storedRoomServers (fun roomServer =>
    modify (with_roomServers (mset (RoomServerNode.id roomServer) roomServer))) ;;
  forEach storedFFmpegNodes (fun ffmpegNode =>
    modify (with_ffmpegNodes (mset (FFmpegNode.id ffmpegNode) ffmpegNode))) ;;
  forEach storedJobs (fun job =>
    r <- newJob job ;;
    modify (with_activeJobs (mset (Job.jobId job) r))).

End Orchestrator.

(** * Specification-side definitions and scenarios *)

(** ** Capacity *)

(** The capacity as the design states it:
    [min(cores × 1.5 × (hasGPU ? 2 : 1), floor(RAM_bytes / (500·2²⁰)), 12)]. *)
Definition derivedCapacity (cores ramBytes : Q) (gpu : bool) : Q :=
  Qmin (Qmin (cores * (3 # 2) * (if gpu then 2 else 1))
             (inject_Z (Qfloor (ramBytes / inject_Z (500 * 2 ^ 20)))))
       12.

Definition GiB : Q := inject_Z (2 ^ 30).

(** ** A tie between two recorders *)

Module PlacementTie.

Definition specs : NodeSpecs := {| cpuCores := 4; ram := 8 * GiB; hasGPU := false |}.

(** Two recorders that differ in their identifier only. *)
Definition recorder (id : string) : FFmpegNode.t :=
  {| FFmpegNode.id := id; FFmpegNode.url := "http://10.0.0.5:4000";
     FFmpegNode.region := "us-east-1"; FFmpegNode.capacity := 6;
     FFmpegNode.currentLoad := 0; FFmpegNode.isHealthy := true;
     FFmpegNode.lastHeartbeat := 0; FFmpegNode.specs := specs;
     FFmpegNode.supportedCodecs := ["h264"; "vp8"; "opus"];
     FFmpegNode.activeJobs := [] |}.

Definition recorders : list FFmpegNode.t :=
  [recorder "ffmpeg-us-east-1-2-b"; recorder "ffmpeg-us-east-1-1-a"].

Definition requirement : RecordingRequirements :=
  {| rr_region := "us-east-1"; codecRequirements := ["opus"; "vp8"];
     estimatedLoad := 2; preferGPU := false; minCPUCores := None; minRAM := None |}.

(** Two recorders whose scores differ by the rounding of the doubles: both
    score 44 in exact arithmetic. *)
Definition loaded (id : string) (capacity load cores : Q) : FFmpegNode.t :=
  {| FFmpegNode.id := id; FFmpegNode.url := "http://10.0.0.5:4000";
     FFmpegNode.region := "us-east-1"; FFmpegNode.capacity := capacity;
     FFmpegNode.currentLoad := load; FFmpegNode.isHealthy := true;
     FFmpegNode.lastHeartbeat := 0;
     FFmpegNode.specs := {| cpuCores := cores; ram := 8 * GiB; hasGPU := false |};
     FFmpegNode.supportedCodecs := ["h264"; "vp8"; "opus"];
     FFmpegNode.activeJobs := [] |}.

Definition rounded : list FFmpegNode.t :=
  [loaded "rec-a" 3 2 2; loaded "rec-b" 5 4 5].

End PlacementTie.

(** ** The order of the scores *)

(** The comparator of the placement is consistent on a list of scores:
    outranking is transitive, and so is its absence.  This is the condition
    under which [Array.prototype.sort] produces a defined order. *)
Definition consistent (scores : list float) : Prop :=
  forall a b c, In a scores -> In b scores -> In c scores ->
    (Double.outranks a b = true -> Double.outranks b c = true ->
     Double.outranks a c = true)
    /\ (Double.outranks a b = false -> Double.outranks b c = false ->
        Double.outranks a c = false).


(** ** A small fleet *)

Module Fleet.

Definition answering (ports : list Z) : Oracle := fun _ _ => Response true "OK" ports.

Definition okAll : Oracle := answering [5000; 5002].

(** Rejects the calls selected by [p], answers the others. *)
Definition rejecting (p : Call -> bool) (message : string) : Oracle :=
  fun _ c => if p c then Rejected message else Response true "OK" [5000; 5002].

Definition isStartRecording (c : Call) : bool :=
  match c with StartRecording _ _ _ => true | _ => false end.

Definition isStopRecording (c : Call) : bool :=
  match c with StopRecording _ _ => true | _ => false end.

Definition isStopRtpForwarding (c : Call) : bool :=
  match c with StopRtpForwarding _ _ => true | _ => false end.

Definition isDbUpdateRecordingJob (c : Call) : bool :=
  match c with DbUpdateRecordingJob _ => true | _ => false end.

(** Answers every call, never with success. *)
Definition refusing : Oracle := fun _ _ => Response false "Bad Gateway" [].

Definition specs (cores : Q) : NodeSpecs :=
  {| cpuCores := cores; ram := 8 * GiB; hasGPU := false |}.

Definition rs1 : RoomServerRegistration :=
  {| serverId := "rs1"; rsr_url := "http://rs1.example:3000";
     rsr_region := "us-east-1"; rsr_rooms := None; rsr_capacity := 10;
     rsr_specs := specs 4 |}.

Definition recorderIn (region : string) (host : string) (cores : Q)
  : FFmpegNodeRegistration :=
  {| fnr_url := "http://" +:+ host +:+ ":4000"; fnr_region := region;
     fnr_specs := specs cores; fnr_supportedCodecs := None |}.

Definition alice : PeerInfo :=
  {| pi_peerId := "peer-1"; displayName := "Alice"; isAuthenticated := true;
     roles := []; joinTime := 0 |}.

Definition streams : list RTPStreamInfo :=
  [ {| kind := audio; port := Some 40000; payloadType := 111; ssrc := 1;
       codecName := "opus" |};
    {| kind := video; port := Some 40002; payloadType := 96; ssrc := 2;
       codecName := "vp8" |} ].

Definition request : DistributedRecordingRequest :=
  {| rq_roomServerId := "rs1"; rq_roomId := "room-1"; rq_peerId := "peer-1";
     rq_peerInfo := alice; rq_rtpStreams := streams;
     rq_options := {| quality := medium; format := mp4; includeAudio := true;
                      includeVideo := true |} |}.

Definition rn1 : string := "ffmpeg-us-east-1-0-aaaa".

(** Room server [rs1] and recorder [rn1] registered at time 0. *)
Definition registered : State :=
  finalState (registerFFmpegNode okAll 0 (recorderIn "us-east-1" "10.0.0.1" 4) "0-aaaa"
    (finalState (registerRoomServer okAll 0 rs1 initialState))).

(** One job, [rec-1], recording on [rn1]. *)
Definition recordingOne : State :=
  finalState (startDistributedRecording okAll 1000 request "1" registered).

(** A second start whose [start-recording] call is rejected: [rec-2] is
    failed and stays in the active map. *)
Definition oneFailed : State :=
  finalState (startDistributedRecording (rejecting isStartRecording "connect ECONNREFUSED")
                2000 request "2" recordingOne).

(** [recordingOne] after a heartbeat of [rn1] that reports one job, under
    an identifier that the orchestrator does not know. *)
Definition misreported : State :=
  finalState (updateFFmpegNodeHeartbeat 5000 rn1
                {| fnh_currentLoad := Some 1%Q; fnh_activeJobs := Some ["rec-x"] |}
                recordingOne).

(** The forwarding configuration that an assign of job [jobId] to [rn1]
    builds from the answer of [okAll]. *)
Definition forwarding (jobId : string) : RTPForwardingConfig :=
  {| fw_jobId := jobId; fw_peerId := "peer-1"; targetNode_ip := "10.0.0.1";
     targetNode_ports := [5000; 5002];
     fw_rtpStreams := rewritePorts 0 [5000; 5002] streams |}.

(** The objects of [rs1] and [rn1] as they are once [rec-1] is recording. *)
Definition roomServer1 : RoomServerNode.t :=
  {| RoomServerNode.id := "rs1"; RoomServerNode.url := "http://rs1.example:3000";
     RoomServerNode.region := "us-east-1"; RoomServerNode.rooms := [];
     RoomServerNode.capacity := 10; RoomServerNode.currentLoad := 1;
     RoomServerNode.isHealthy := true; RoomServerNode.lastHeartbeat := 0;
     RoomServerNode.specs := specs 4 |}.

Definition recorder1 : FFmpegNode.t :=
  {| FFmpegNode.id := rn1; FFmpegNode.url := "http://10.0.0.1:4000";
     FFmpegNode.region := "us-east-1";
     FFmpegNode.capacity := calculateNodeCapacity (specs 4);
     FFmpegNode.currentLoad := 1; FFmpegNode.isHealthy := true;
     FFmpegNode.lastHeartbeat := 0; FFmpegNode.specs := specs 4;
     FFmpegNode.supportedCodecs := ["h264"; "vp8"; "opus"];
     FFmpegNode.activeJobs := ["rec-1"] |}.

(** A pending job as [startDistributedRecording] creates it. *)
Definition pendingJob (jobId : string) (startTime : Z) : Job.t :=
  {| Job.jobId := jobId; Job.roomServerId := "rs1"; Job.roomId := "room-1";
     Job.peerId := "peer-1"; Job.peerInfo := alice; Job.ffmpegNodeId := "";
     Job.rtpStreams := streams; Job.rtpForwarding := None;
     Job.options := rq_options request; Job.status := pending;
     Job.startTime := startTime; Job.endTime := None; Job.outputPath := None;
     Job.errorMessage := None |}.

(** [recordingOne] with the object of a second job created, before its
    assignment. *)
Definition secondCreated : State :=
  finalState (newJob (pendingJob "rec-2" 2000) recordingOne).

End Fleet.

(** ** A job stopped while it waits in the queue *)

Module Requeue.

Definition rn : string := "ffmpeg-us-east-1-4000-aaaa".

(** No recorder is registered: the job [rec-q1] is queued. *)
Definition queued : State :=
  finalState (startDistributedRecording Fleet.okAll 1000 Fleet.request "q1"
    (finalState (registerRoomServer Fleet.okAll 0 Fleet.rs1 initialState))).

(** A recorder registers while the job waits. *)
Definition waiting : State :=
  finalState (registerFFmpegNode Fleet.okAll 4000
                (Fleet.recorderIn "us-east-1" "10.0.0.1" 4) "4000-aaaa" queued).

Definition stopped : State :=
  finalState (stopDistributedRecording Fleet.okAll 3000 "rec-q1" queued).

(** A recorder registers, then the health loop runs. *)
Definition recorderAdded : State :=
  finalState (registerFFmpegNode Fleet.okAll 4000
                (Fleet.recorderIn "us-east-1" "10.0.0.1" 4) "4000-aaaa" stopped).

Definition drained : State :=
  finalState (performHealthChecks Fleet.okAll 5000 recorderAdded).

End Requeue.

(** ** A recorder that stops sending heartbeats *)

Module Failover.

Definition rnE : string := "ffmpeg-eu-west-1-60000-bbbb".
Definition rnU : string := "ffmpeg-us-east-1-60000-cccc".

(** [rec-1] records on [rn1]; at time 60000 a recorder of another region
    (4 cores) and a recorder of the region of the room server (2 cores)
    register, and the room server sends a heartbeat. *)
Definition before : State :=
  finalState (updateRoomServerHeartbeat 60000 "rs1"
                {| rsh_currentLoad := Some 1%Q; rsh_rooms := None |}
    (finalState (registerFFmpegNode Fleet.okAll 60000
                   (Fleet.recorderIn "us-east-1" "10.0.0.2" 2) "60000-cccc"
      (finalState (registerFFmpegNode Fleet.okAll 60000
                     (Fleet.recorderIn "eu-west-1" "10.0.1.1" 4) "60000-bbbb"
         Fleet.recordingOne))))).

(** The health loop at time 70000: only [rn1] has missed its heartbeats. *)
Definition after : State :=
  finalState (performHealthChecks Fleet.okAll 70000 before).

(** The recorders that the failover hands to the placement. *)
Definition remaining : list FFmpegNode.t :=
  List.filter (fun n => FFmpegNode.isHealthy n
                        && negb (String.eqb (FFmpegNode.id n) Fleet.rn1))
    (mvalues (ffmpegNodes
       (with_ffmpegNodes (malter (FFmpegNode.with_isHealthy false) Fleet.rn1) before))).

Definition requirement (region : string) : RecordingRequirements :=
  {| rr_region := region;
     codecRequirements := extractCodecRequirements Fleet.streams;
     estimatedLoad := 1; preferGPU := false; minCPUCores := None; minRAM := None |}.

End Failover.

(** ** A restart with a job that was initializing *)

Module Restored.

Definition storedRoomServer : RoomServerNode.t :=
  {| RoomServerNode.id := "rs1"; RoomServerNode.url := "http://rs1.example:3000";
     RoomServerNode.region := "us-east-1"; RoomServerNode.rooms := [];
     RoomServerNode.capacity := 10; RoomServerNode.currentLoad := 2;
     RoomServerNode.isHealthy := true; RoomServerNode.lastHeartbeat := 0;
     RoomServerNode.specs := Fleet.specs 4 |}.

Definition storedRecorder : FFmpegNode.t :=
  {| FFmpegNode.id := Fleet.rn1; FFmpegNode.url := "http://10.0.0.1:4000";
     FFmpegNode.region := "us-east-1";
     FFmpegNode.capacity := 6; FFmpegNode.currentLoad := 2;
     FFmpegNode.isHealthy := true; FFmpegNode.lastHeartbeat := 65000;
     FFmpegNode.specs := Fleet.specs 4;
     FFmpegNode.supportedCodecs := ["h264"; "vp8"; "opus"];
     FFmpegNode.activeJobs := ["rec-a"; "rec-b"] |}.

Definition storedJob (jobId : string) (status : JobStatus) : Job.t :=
  {| Job.jobId := jobId; Job.roomServerId := "rs1"; Job.roomId := "room-1";
     Job.peerId := "peer-1"; Job.peerInfo := Fleet.alice;
     Job.ffmpegNodeId := Fleet.rn1; Job.rtpStreams := Fleet.streams;
     Job.rtpForwarding := None; Job.options := rq_options Fleet.request;
     Job.status := status; Job.startTime := 1000; Job.endTime := None;
     Job.outputPath := None; Job.errorMessage := None |}.

(** The state after a restart: [rec-a] was initializing and [rec-b] was
    recording when the snapshot was written. *)
Definition restored : State :=
  finalState (restoreState [storedRoomServer] [storedRecorder]
                [storedJob "rec-a" initializing; storedJob "rec-b" recording]
                initialState).


End Restored.

(** ** Assertions on computations *)

(** What holds of the outcome of [m] run from [s]: [Qr] of a returned value
    and state, [Qt] of a thrown message and state. *)
Definition post {A : Type} (m : M A) (s : State)
    (Qr : A -> State -> Prop) (Qt : string -> State -> Prop) : Prop :=
  match m s with
  | Returned a s' => Qr a s'
  | Thrown message s' => Qt message s'
  end.

(** [P] is kept by [m], whether [m] returns or throws. *)
Definition keeps {A : Type} (P : State -> Prop) (m : M A) : Prop :=
  forall s, P s -> P (finalState (m s)).

(** A predicate that no call disturbs. *)
Definition callStable (P : State -> Prop) : Prop :=
  forall s c, P s -> P (with_log (fun l => l ++ [Called c]) s).

(** The log of [s'] is the log of [s] followed by events that satisfy [P]. *)
Definition extends (P : Event -> Prop) (s s' : State) : Prop :=
  exists events, log s' = log s ++ events /\ Forall P events.

(** ** Predicates of the claims *)

(** [|n.activeJobs| == n.currentLoad]. *)
Definition loadMatchesJobs (n : FFmpegNode.t) : Prop :=
  (inject_Z (Z.of_nat (length (FFmpegNode.activeJobs n))) == FFmpegNode.currentLoad n)%Q.

Definition accounted (s : State) : Prop :=
  Forall (fun kv => loadMatchesJobs (snd kv)) (ffmpegNodes s).

Definition occurrences (x : string) (l : list string) : nat :=
  length (List.filter (fun id => String.eqb id x) l).

(** The recorder that a recording job of the active map names lists the job
    exactly once. *)
Definition listedOnce (s : State) : Prop :=
  forall r job ffmpegNode n,
    r ∈ mvalues (activeJobs s) -> jobs s !! r = Some job ->
    Job.status job = recording ->
    mget (Job.ffmpegNodeId job) (ffmpegNodes s) = Some ffmpegNode ->
    mget (FFmpegNode.id ffmpegNode) (ffmpegNodes s) = Some n ->
    occurrences (Job.jobId job) (FFmpegNode.activeJobs n) = 1%nat.

(** The active map holds a job once, and no two of its jobs carry the same
    identifier. *)
Definition distinctJobs (s : State) : Prop :=
  NoDup (mvalues (activeJobs s))
  /\ forall r r' job job',
       r ∈ mvalues (activeJobs s) -> r' ∈ mvalues (activeJobs s) ->
       jobs s !! r = Some job -> jobs s !! r' = Some job' ->
       Job.jobId job = Job.jobId job' -> r = r'.

(** The accounting of the recorders agrees with the jobs of the active map. *)
Definition reconciled (s : State) : Prop :=
  accounted s /\ listedOnce s /\ distinctJobs s.

(** A status write along an edge of the graph (calls are not constrained). *)
Definition legalEvent (e : Event) : Prop :=
  match e with
  | Called _ => True
  | StatusSet _ old new => isValidStatusTransition old new = true
  end.

(** The same, with the reset of a failover, [recording → pending]. *)
Definition failoverEvent (e : Event) : Prop :=
  match e with
  | Called _ => True
  | StatusSet _ old new =>
      isValidStatusTransition old new = true \/ (old = recording /\ new = pending)
  end.

(** What an acknowledged [stop-recording] does to the recorder of the job. *)
Definition released (jobId : string) (n : FFmpegNode.t) : FFmpegNode.t :=
  FFmpegNode.with_activeJobs
    (List.filter (fun id => negb (String.eqb id jobId)) (FFmpegNode.activeJobs n))
    (FFmpegNode.with_currentLoad (Qmax 0 (FFmpegNode.currentLoad n - 1)) n).

(** The job as the [catch] block of a stop leaves it. *)
Definition stopFailed (message : string) (now : Z) (job : Job.t) : Job.t :=
  Job.with_endTime (Some now)
    (Job.with_errorMessage (Some message) (Job.with_status failed job)).

(** The job as the health loop leaves it when its room server fails. *)
Definition failedByRoomServer (now : Z) (job : Job.t) : Prop :=
  Job.status job = failed
  /\ Job.errorMessage job = Some "Room server became unhealthy"
  /\ Job.endTime job = Some now.

(** The writes of the health loop to such a job. *)
Definition failForRoomServer (now : Z) (job : Job.t) : Job.t :=
  Job.with_endTime (Some now)
    (Job.with_errorMessage (Some "Room server became unhealthy")
       (Job.with_status failed job)).

(** The jobs that the handling of an unhealthy room server selects. *)
Definition affectedByRoomServer (id : string) (s : State) : list nat :=
  activeJobsWhere (fun job =>
    String.eqb (Job.roomServerId job) id && JobStatus_eqb (Job.status job) recording) s.

(** The jobs that the failover of a recorder selects. *)
Definition affectedByRecorder (id : string) (s : State) : list nat :=
  activeJobsWhere (fun job =>
    String.eqb (Job.ffmpegNodeId job) id && JobStatus_eqb (Job.status job) recording) s.

(** The events of the forward steps of an assign. *)
Definition assignEvent (e : Event) : Prop :=
  match e with
  | StatusSet _ _ _ => True
  | Called (AllocatePorts _ _) | Called (ConfigureRtpForwarding _ _)
  | Called (StartRecording _ _ _) | Called (DbUpdateRecordingJob _) => True
  | Called _ => False
  end.

(** No outbound call is rejected. *)
Definition answersAll (orc : Oracle) : Prop :=
  forall n c, exists ok statusText ports, orc n c = Response ok statusText ports.

(** The requirement of the queue drain for a job of a room server. *)
Definition drainRequirement (job : Job.t) (roomServer : RoomServerNode.t)
  : RecordingRequirements :=
  {| rr_region := RoomServerNode.region roomServer;
     codecRequirements := extractCodecRequirements (Job.rtpStreams job);
     estimatedLoad := estimateRecordingLoad (Job.rtpStreams job) (Job.options job);
     preferGPU := false; minCPUCores := None; minRAM := None |}.

Definition isCall (e : Event) : Prop :=
  match e with
  | Called _ => True
  | StatusSet _ _ _ => False
  end.

Definition statusOf (r : nat) (s : State) : option JobStatus :=
  Job.status <$> jobs s !! r.

(** Since [s0] the log has grown by events that satisfy [E], and the job
    behind [r] now has status [status]. *)
Definition tracks (r : nat) (status : JobStatus) (E : Event -> Prop) (s0 s : State) : Prop :=
  extends E s0 s /\ statusOf r s = Some status.

(** The other jobs are as in [s0], and the job behind [r] has the [endTime]
    it has in [s0]. *)
Definition touchesOnly (r : nat) (s0 s : State) : Prop :=
  (forall y, y <> r -> jobs s !! y = jobs s0 !! y)
  /\ Job.endTime <$> jobs s !! r = Job.endTime <$> jobs s0 !! r.

(** The state in which a failover starts the new assignment of a job. *)
Definition resetForReassign (r : nat) (job : Job.t) (s : State) : State :=
  with_jobs (alter (Job.with_ffmpegNodeId "") r)
    (with_jobs (alter (Job.with_status pending) r)
       (with_log (fun l => l ++ [StatusSet r (Job.status job) pending]) s)).

(** The state in which a failover leaves a job that no recorder can take. *)
Definition failedWithoutRecorder (now : Z) (r : nat) (job : Job.t) (s : State) : State :=
  with_jobs (alter (Job.with_endTime (Some now)) r)
    (with_jobs (alter (Job.with_errorMessage
                         (Some "No available FFmpeg nodes for reassignment")) r)
       (with_jobs (alter (Job.with_status failed) r)
          (with_log (fun l => l ++ [StatusSet r (Job.status job) failed]) s))).

(** The database answers every query (the HTTP calls may fail). *)
Definition databaseAnswers (orc : Oracle) : Prop :=
  forall n c, isRpc c = false ->
    exists ok statusText ports, orc n c = Response ok statusText ports.

(** The job as a stop that returns leaves it. *)
Definition stopCompleted (now : Z) (job : Job.t) : Job.t :=
  Job.with_endTime (Some now) (Job.with_status completed job).

(** The events of a stop of the job behind [r], whose status is [old]. *)
Definition stopEvent (r : nat) (old : JobStatus) (e : Event) : Prop :=
  match e with
  | Called _ => True
  | StatusSet r' old' new => r' = r /\ old' = old /\ (new = completed \/ new = failed)
  end.

(** The queue is [q], its jobs are pending, and the active map holds a job
    once. *)
Definition queueReady (q : list nat) (s : State) : Prop :=
  NoDup (mvalues (activeJobs s))
  /\ jobQueue s = q
  /\ forall r, r ∈ q -> statusOf r s = Some pending.

(** [endTime] is set only on terminal jobs. *)
Definition endTimeOnlyIfTerminal (s : State) : Prop :=
  forall r job, jobs s !! r = Some job ->
    is_Some (Job.endTime job) -> isTerminal job = true.
(** * Properties *)

(** ** Numbers *)

Lemma gtb_true (x y : Q) : Num.gtb x y = true <-> (y < x)%Q.
Proof.
  unfold Num.gtb. rewrite negb_true_iff, <- not_true_iff_false, Qle_bool_iff.
  split; [apply Qnot_le_lt | apply Qlt_not_le].
Qed.

Lemma gtb_false (x y : Q) : Num.gtb x y = false <-> (x <= y)%Q.
Proof. unfold Num.gtb. rewrite negb_false_iff. apply Qle_bool_iff. Qed.

(** ** Maps *)

Section JsMapFacts.
Context {V : Type}.
Implicit Types (m : JsMap V) (k : string) (v : V).

Lemma mget_mset_same k v m : mget k (mset k v m) = Some v.
Proof.
  induction m as [|[k' v'] m IH]; simpl.
  - now rewrite String.eqb_refl.
  - destruct (String.eqb k k') eqn:E; simpl; rewrite ?E, ?String.eqb_refl; auto.
Qed.

Lemma mget_mset_other k k' v m : k' <> k -> mget k' (mset k v m) = mget k' m.
Proof.
  intros Hne. induction m as [|[k0 v0] m IH]; simpl.
  - destruct (String.eqb_spec k' k); congruence.
  - destruct (String.eqb_spec k k0) as [->|]; simpl.
    + destruct (String.eqb_spec k' k0); congruence.
    + now rewrite IH.
Qed.

Lemma mget_malter f k k' m :
  mget k' (malter f k m) = if String.eqb k' k then f <$> mget k' m else mget k' m.
Proof.
  induction m as [|[k0 v0] m IH]; simpl.
  - now destruct (String.eqb k' k).
  - destruct (String.eqb_spec k k0) as [->|Hk]; simpl.
    + destruct (String.eqb_spec k' k0); auto.
    + rewrite IH. destruct (String.eqb_spec k' k0) as [->|]; auto.
      destruct (String.eqb_spec k0 k); congruence.
Qed.

Lemma mkeys_malter f k m : mkeys (malter f k m) = mkeys m.
Proof.
  unfold mkeys. induction m as [|[k0 v0] m IH]; simpl; auto.
  destruct (String.eqb k k0); simpl; congruence.
Qed.

Lemma mget_None_notin k m : mget k m = None <-> k ∉ mkeys m.
Proof.
  unfold mkeys. induction m as [|[k0 v0] m IH]; simpl.
  - split; [intros _; apply not_elem_of_nil | auto].
  - rewrite not_elem_of_cons.
    destruct (String.eqb_spec k k0) as [->|Hne].
    + split; [discriminate | tauto].
    + rewrite IH. tauto.
Qed.

Lemma mget_mdelete_same k m : NoDup (mkeys m) -> mget k (mdelete k m) = None.
Proof.
  unfold mkeys. induction m as [|[k0 v0] m IH]; simpl; auto.
  rewrite NoDup_cons. intros [Hnotin Hnd].
  destruct (String.eqb_spec k k0) as [->|Hne]; simpl.
  - apply mget_None_notin. exact Hnotin.
  - destruct (String.eqb_spec k k0); [congruence | auto].
Qed.

Lemma Forall_mset (P : string * V -> Prop) k v m :
  P (k, v) -> Forall P m -> Forall P (mset k v m).
Proof.
  intros Hv. induction 1 as [|[k0 v0] m H0 Hm IH]; simpl.
  - repeat constructor; auto.
  - destruct (String.eqb k k0); constructor; auto.
Qed.

Lemma Forall_malter (P : string * V -> Prop) f k m :
  (forall k0 v0, P (k0, v0) -> P (k0, f v0)) -> Forall P m -> Forall P (malter f k m).
Proof.
  intros Hf. induction 1 as [|[k0 v0] m H0 Hm IH]; simpl.
  - constructor.
  - destruct (String.eqb k k0); constructor; auto.
Qed.

End JsMapFacts.

(** ** Capacity *)

Lemma calculateNodeCapacity_derived (specs : NodeSpecs) :
  (calculateNodeCapacity specs
   == derivedCapacity (cpuCores specs) (ram specs) (hasGPU specs))%Q.
Proof.
  unfold calculateNodeCapacity, derivedCapacity, Num.min3, Num.floor.
  change (500 * 1024 * 1024)%Q with (inject_Z (500 * 2 ^ 20)).
  destruct (hasGPU specs).
  - reflexivity.
  - apply Q.min_compat; [apply Q.min_compat|]; try reflexivity. ring.
Qed.

Lemma estimateCapacity_calculate (specs : NodeSpecs) :
  estimateCapacity specs = calculateNodeCapacity specs.
Proof. reflexivity. Qed.

(** C9.  The capacity a recorder gets at registration is
    [min(cores × 1.5 × (hasGPU ? 2 : 1), floor(RAM_bytes / (500·2²⁰)), 12)]:
    that is what [calculateNodeCapacity] (and the estimate of the node
    manager) computes, it is the capacity of the node that
    [registerFFmpegNode] stores under the identifier it generates, and for
    4 cores, 8 GiB and no GPU it is 6. *)
Theorem C9_derived_capacity :
  (forall specs : NodeSpecs,
      (calculateNodeCapacity specs
       == derivedCapacity (cpuCores specs) (ram specs) (hasGPU specs))%Q
      /\ (estimateCapacity specs
          == derivedCapacity (cpuCores specs) (ram specs) (hasGPU specs))%Q)
  /\ (forall orc now registration stamp s,
         let nodeId := "ffmpeg-" +:+ fnr_region registration +:+ "-" +:+ stamp in
         let outcome := registerFFmpegNode orc now registration stamp s in
         (forall id s', outcome = Returned id s' -> id = nodeId)
         /\ exists node,
              mget nodeId (ffmpegNodes (finalState outcome)) = Some node
              /\ (FFmpegNode.capacity node
                  == derivedCapacity (cpuCores (fnr_specs registration))
                       (ram (fnr_specs registration))
                       (hasGPU (fnr_specs registration)))%Q)
  /\ (calculateNodeCapacity {| cpuCores := 4; ram := 8 * GiB; hasGPU := false |} == 6)%Q.
Proof.
  split; [|split].
  - intros specs. split; exact (calculateNodeCapacity_derived specs).
  - intros orc now registration stamp s nodeId outcome.
    subst outcome. cbv [registerFFmpegNode bind modify database call ret throw].
    fold nodeId.
    match goal with
    | |- context [orc ?n ?c] => destruct (orc n c) as [message|ok statusText ports]
    end; simpl.
    + split; [discriminate|]. eexists. split; [apply mget_mset_same|].
      apply calculateNodeCapacity_derived.
    + split; [congruence|]. eexists. split; [apply mget_mset_same|].
      apply calculateNodeCapacity_derived.
  - reflexivity.
Qed.

Lemma C9_derived_capacity_witness :
  exists id s',
    registerFFmpegNode Fleet.okAll 0 (Fleet.recorderIn "us-east-1" "10.0.0.1" 4) "0-aaaa"
      initialState = Returned id s'
    /\ id = Fleet.rn1.
Proof.
  destruct C9_derived_capacity as (_ & Hregistered & _).
  eexists. eexists. split; [vm_compute; reflexivity|].
  eapply (proj1 (Hregistered Fleet.okAll 0 (Fleet.recorderIn "us-east-1" "10.0.0.1" 4)
                   "0-aaaa" initialState)).
  vm_compute. reflexivity.
Defined.

(** ** Placement *)

Section SortFacts.

Implicit Types (x y : FFmpegNode.t * float) (l : list (FFmpegNode.t * float)).

Lemma insertByScore_not_nil x l : insertByScore x l <> [].
Proof. destruct l as [|y l]; simpl; [|destruct (Double.outranks _ _)]; discriminate. Qed.

Lemma sortByScore_nil l : sortByScore l = [] -> l = [].
Proof.
  destruct l as [|x l]; simpl; auto.
  intros H. now apply insertByScore_not_nil in H.
Qed.

Lemma consistent_tail (a : float) (scores : list float) :
  consistent (a :: scores) -> consistent scores.
Proof.
  intros H x y z Hx Hy Hz. apply H; right; assumption.
Qed.

(** The head of the sorted array is the first element of the array that no
    element outranks. *)
Lemma sortByScore_head l first rest :
  consistent (map snd l) ->
  sortByScore l = first :: rest ->
  exists before after,
    l = before ++ first :: after
    /\ Forall (fun y => Double.outranks (snd first) (snd y) = true) before
    /\ Forall (fun y => Double.outranks (snd y) (snd first) = false) after.
Proof.
  revert first rest. induction l as [|x l IH]; simpl; [discriminate|].
  intros first rest Hcons Hsort.
  destruct (sortByScore l) as [|y sorted] eqn:Hl.
  - apply sortByScore_nil in Hl. subst l. simpl in Hsort.
    injection Hsort as <- <-. exists [], []. repeat split; constructor.
  - destruct (IH y sorted (consistent_tail _ _ Hcons) eq_refl)
      as (before & after & -> & Hbefore & Hafter).
    assert (Hy : In (snd y) (snd x :: map snd (before ++ y :: after))).
    { right. apply in_map, in_or_app. right. left. reflexivity. }
    assert (Hx : In (snd x) (snd x :: map snd (before ++ y :: after)))
      by (left; reflexivity).
    simpl in Hsort. destruct (Double.outranks (snd y) (snd x)) eqn:Hcmp.
    + injection Hsort as <- <-.
      exists (x :: before), after. repeat split; auto.
    + injection Hsort as <- <-.
      exists [], (before ++ y :: after). repeat split; [constructor|].
      apply List.Forall_app. split; [|constructor].
      * rewrite List.Forall_forall in Hbefore |- *. intros z Hz.
        assert (Hzin : In (snd z) (snd x :: map snd (before ++ y :: after))).
        { right. apply in_map, in_or_app. left. exact Hz. }
        destruct (Double.outranks (snd z) (snd x)) eqn:Hzx; [|reflexivity].
        destruct (Hcons (snd y) (snd z) (snd x) Hy Hzin Hx) as [Htrans _].
        rewrite (Htrans (Hbefore z Hz) Hzx) in Hcmp. discriminate.
      * exact Hcmp.
      * rewrite List.Forall_forall in Hafter |- *. intros z Hz.
        assert (Hzin : In (snd z) (snd x :: map snd (before ++ y :: after))).
        { right. apply in_map, in_or_app. right. right. exact Hz. }
        destruct (Hcons (snd z) (snd y) (snd x) Hzin Hy Hx) as [_ Hneg].
        apply Hneg; [apply Hafter, Hz|exact Hcmp].
Qed.

End SortFacts.

(** C8, as stated, fails: of two candidates with the same (maximal) score
    the placement returns the one that comes first in the array it is
    given, here the recorder registered first, whose identifier is the
    greater one; given the same two recorders in the other order it returns
    the other one. *)
Lemma C8_tie_goes_to_first_candidate :
  selectOptimalFFmpegNode PlacementTie.recorders PlacementTie.requirement
    = Some (PlacementTie.recorder "ffmpeg-us-east-1-2-b")
  /\ In (PlacementTie.recorder "ffmpeg-us-east-1-1-a")
        (candidates PlacementTie.recorders PlacementTie.requirement)
  /\ calculateNodeScore (PlacementTie.recorder "ffmpeg-us-east-1-1-a")
       PlacementTie.requirement
     = calculateNodeScore (PlacementTie.recorder "ffmpeg-us-east-1-2-b")
         PlacementTie.requirement
  /\ String.ltb "ffmpeg-us-east-1-1-a" "ffmpeg-us-east-1-2-b" = true
  /\ selectOptimalFFmpegNode (rev PlacementTie.recorders) PlacementTie.requirement
     = Some (PlacementTie.recorder "ffmpeg-us-east-1-1-a").
Proof.
  split; [vm_compute; reflexivity|].
  split; [right; left; reflexivity|].
  split; [reflexivity|].
  split; [reflexivity|].
  vm_compute. reflexivity.
Qed.

(** C8, amended.  The placement is a function of the array of recorders
    and of the requirement.  The scores are doubles, and a candidate
    outranks another when the difference of their scores, as the doubles
    give it, is positive.  When no candidate remains the placement returns
    none.  Otherwise, and when this comparison is consistent on the scores
    of the candidates, it returns the first candidate, in the order of the
    array, that no candidate outranks: it outranks every candidate before
    it, and no candidate after it outranks it.  The identifiers play no
    part. *)
Theorem C8_placement_first_of_maximal_score :
  forall (availableNodes : list FFmpegNode.t) (requirements : RecordingRequirements),
    consistent (map (fun n => calculateNodeScore n requirements)
                    (candidates availableNodes requirements)) ->
    match selectOptimalFFmpegNode availableNodes requirements with
    | None => candidates availableNodes requirements = []
    | Some selected =>
        exists before after,
          candidates availableNodes requirements = before ++ selected :: after
          /\ Forall (fun n => Double.outranks
                                (calculateNodeScore selected requirements)
                                (calculateNodeScore n requirements) = true) before
          /\ Forall (fun n => Double.outranks
                                (calculateNodeScore n requirements)
                                (calculateNodeScore selected requirements) = false) after
    end.
Proof.
  intros availableNodes requirements Hcons. unfold selectOptimalFFmpegNode.
  set (scored := map _ _).
  assert (Hscores : map snd scored
                    = map (fun n => calculateNodeScore n requirements)
                          (candidates availableNodes requirements)).
  { subst scored. rewrite List.map_map. reflexivity. }
  destruct (sortByScore scored) as [|first rest] eqn:Hsort.
  - apply sortByScore_nil in Hsort. subst scored.
    now apply List.map_eq_nil in Hsort.
  - apply sortByScore_head in Hsort as (before & after & Hsplit & Hbefore & Hafter);
      [|rewrite Hscores; exact Hcons].
    subst scored.
    apply List.map_eq_app in Hsplit as (before' & tail & Hcands & <- & Htail).
    apply List.map_eq_cons in Htail as (selected & after' & -> & <- & <-).
    exists before', after'. simpl in *. split; [exact Hcands|].
    rewrite List.Forall_map in Hbefore, Hafter. auto.
Qed.

(** On two recorders that both score 44 in exact arithmetic, the doubles
    give 43.99999999999999 to the first and 44 to the second: the placement
    returns the second. *)
Lemma C8_placement_first_of_maximal_score_witness :
  exists before after,
    candidates PlacementTie.rounded PlacementTie.requirement
    = before ++ PlacementTie.loaded "rec-b" 5 4 5 :: after
    /\ Forall (fun n => Double.outranks
                          (calculateNodeScore (PlacementTie.loaded "rec-b" 5 4 5)
                             PlacementTie.requirement)
                          (calculateNodeScore n PlacementTie.requirement) = true) before
    /\ Forall (fun n => Double.outranks
                          (calculateNodeScore n PlacementTie.requirement)
                          (calculateNodeScore (PlacementTie.loaded "rec-b" 5 4 5)
                             PlacementTie.requirement) = false) after.
Proof.
  apply (C8_placement_first_of_maximal_score PlacementTie.rounded PlacementTie.requirement).
  intros a b c Ha Hb Hc.
  destruct Ha as [<-|[<-|[]]], Hb as [<-|[<-|[]]], Hc as [<-|[<-|[]]];
    vm_compute; split; congruence.
Defined.

(** ** Rules for computations *)

Section Rules.
Context {A : Type}.
Implicit Types (m : M A) (s : State).

Lemma post_ret (a : A) s Qr Qt : Qr a s -> post (ret a) s Qr Qt.
Proof. auto. Qed.

Lemma post_throw message s (Qr : A -> State -> Prop) Qt :
  Qt message s -> post (throw message) s Qr Qt.
Proof. auto. Qed.

Lemma post_bind {B : Type} (m0 : M B) (k : B -> M A) s Qr Qt :
  post m0 s (fun b s' => post (k b) s' Qr Qt) Qt -> post (bind m0 k) s Qr Qt.
Proof. unfold post, bind. now destruct (m0 s). Qed.

Lemma post_tryCatch m (handler : string -> M A) s Qr Qt :
  post m s Qr (fun message s' => post (handler message) s' Qr Qt) ->
  post (tryCatch m handler) s Qr Qt.
Proof. unfold post, tryCatch. now destruct (m s). Qed.

Lemma post_mono m s (Qr Qr' : A -> State -> Prop) (Qt Qt' : string -> State -> Prop) :
  post m s Qr Qt ->
  (forall a s', Qr a s' -> Qr' a s') ->
  (forall message s', Qt message s' -> Qt' message s') ->
  post m s Qr' Qt'.
Proof. unfold post. destruct (m s); auto. Qed.

Lemma post_final m s (P : State -> Prop) :
  post m s (fun _ s' => P s') (fun _ s' => P s') <-> P (finalState (m s)).
Proof. unfold post. now destruct (m s). Qed.

(** A step that keeps [P], followed by a continuation specified under [P]. *)
Lemma post_bind_keeps {B : Type} (P : State -> Prop) (m0 : M B) (k : B -> M A)
    s Qr Qt :
  keeps P m0 -> P s ->
  (forall b s', P s' -> post (k b) s' Qr Qt) ->
  (forall message s', P s' -> Qt message s') ->
  post (bind m0 k) s Qr Qt.
Proof.
  intros Hkeeps Hs Hk Ht. apply post_bind. specialize (Hkeeps s Hs).
  unfold post. destruct (m0 s); simpl in Hkeeps; auto.
  now apply Hk.
Qed.

Lemma keeps_post (P : State -> Prop) m s :
  keeps P m -> P s -> post m s (fun _ s' => P s') (fun _ s' => P s').
Proof. intros Hkeeps Hs. apply post_final. auto. Qed.

Lemma keeps_ret (P : State -> Prop) (a : A) : keeps P (ret a).
Proof. intros s Hs. exact Hs. Qed.

Lemma keeps_throw (P : State -> Prop) message : keeps P (throw (A := A) message).
Proof. intros s Hs. exact Hs. Qed.

Lemma keeps_bind {B : Type} (P : State -> Prop) (m0 : M B) (k : B -> M A) :
  keeps P m0 -> (forall b, keeps P (k b)) -> keeps P (bind m0 k).
Proof.
  intros Hm Hk s Hs. specialize (Hm s Hs). unfold bind.
  destruct (m0 s); simpl in *; auto. now apply Hk.
Qed.

Lemma keeps_tryCatch (P : State -> Prop) m (handler : string -> M A) :
  keeps P m -> (forall message, keeps P (handler message)) ->
  keeps P (tryCatch m handler).
Proof.
  intros Hm Hh s Hs. specialize (Hm s Hs). unfold tryCatch.
  destruct (m s); simpl in *; auto. now apply Hh.
Qed.

End Rules.

Lemma keeps_get (P : State -> Prop) : keeps P get.
Proof. intros s Hs. exact Hs. Qed.

Lemma keeps_modify (P : State -> Prop) (f : State -> State) :
  (forall s, P s -> P (f s)) -> keeps P (modify f).
Proof. intros Hf s Hs. now apply Hf. Qed.

Lemma keeps_withJob (P : State -> Prop) (r : nat) (k : Job.t -> M unit) :
  (forall job, keeps P (k job)) -> keeps P (withJob r k).
Proof.
  intros Hk s Hs. unfold withJob. destruct (jobs s !! r); [now apply Hk | exact Hs].
Qed.

Lemma keeps_forEach {A : Type} (P : State -> Prop) (l : list A) (body : A -> M unit) :
  (forall x, keeps P (body x)) -> keeps P (forEach l body).
Proof.
  intros Hbody. induction l as [|x l IH]; simpl.
  - apply keeps_ret.
  - apply keeps_bind; auto.
Qed.

Lemma keeps_forEachWith {A L : Type} (P : State -> Prop) (l : list A) (local : L)
    (body : L -> A -> M L) :
  (forall local' x, keeps P (body local' x)) -> keeps P (forEachWith l local body).
Proof.
  intros Hbody. revert local. induction l as [|x l IH]; intros local; simpl.
  - apply keeps_ret.
  - apply keeps_bind; auto.
Qed.

Section Calls.
Variable orc : Oracle.
Variable P : State -> Prop.
Variable c : Call.
Hypothesis Pcall : forall s, P s -> P (with_log (fun l => l ++ [Called c]) s).

Lemma keeps_call : keeps P (call orc c).
Proof. intros s Hs. now apply Pcall. Qed.

Lemma keeps_fetch : keeps P (fetch orc c).
Proof.
  unfold fetch. apply keeps_bind; [apply keeps_call|].
  intros [message|ok statusText ports]; [apply keeps_throw | apply keeps_ret].
Qed.

Lemma keeps_database : keeps P (database orc c).
Proof.
  unfold database. apply keeps_bind; [apply keeps_call|].
  intros [message|ok statusText ports]; [apply keeps_throw | apply keeps_ret].
Qed.

End Calls.

Lemma callStable_at (P : State -> Prop) (c : Call) :
  callStable P -> forall s, P s -> P (with_log (fun l => l ++ [Called c]) s).
Proof. intros H s Hs. now apply H. Qed.

Lemma keeps_modify2 {A : Type} (P : State -> Prop) (f g : State -> State) (k : M A) :
  (forall s, P s -> P (g (f s))) -> keeps P k ->
  keeps P (bind (modify f) (fun _ => bind (modify g) (fun _ => k))).
Proof. intros Hgf Hk s Hs. unfold bind, modify. apply Hk. now apply Hgf. Qed.

Lemma keeps_modify_pair (P : State -> Prop) (f g : State -> State) :
  (forall s, P s -> P (g (f s))) ->
  keeps P (bind (modify f) (fun _ => modify g)).
Proof. intros Hgf s Hs. unfold bind, modify. simpl. now apply Hgf. Qed.

(** Breaking a computation down to its primitive steps. *)
Ltac keeps_step :=
  lazymatch goal with
  | |- keeps _ (ret _) => apply keeps_ret
  | |- keeps _ (throw _) => apply keeps_throw
  | |- keeps _ get => apply keeps_get
  | |- keeps _ (bind _ _) => apply keeps_bind; [|intros ?]
  | |- keeps _ (tryCatch _ _) => apply keeps_tryCatch; [|intros ?]
  | |- keeps _ (withJob _ _) => apply keeps_withJob; intros ?
  | |- keeps _ (forEach _ _) => apply keeps_forEach; intros ?
  | |- keeps _ (forEachWith _ _ _) => apply keeps_forEachWith; intros ? ?
  | |- keeps _ (fetch _ _) => apply keeps_fetch
  | |- keeps _ (database _ _) => apply keeps_database
  | |- keeps _ (call _ _) => apply keeps_call
  | |- keeps _ (match ?x with _ => _ end) => destruct x
  | |- keeps _ (let _ := _ in _) => cbv zeta
  end.

(** ** Load accounting of the recorders *)

Lemma malter_malter {V : Type} (f g : V -> V) k (m : JsMap V) :
  malter g k (malter f k m) = malter (fun v => g (f v)) k m.
Proof.
  induction m as [|[k0 v0] m IH]; simpl; auto.
  destruct (String.eqb k k0) eqn:E; simpl; rewrite E; congruence.
Qed.

Lemma Forall_malter_at {V : Type} (P : string * V -> Prop) (f : V -> V) k (m : JsMap V) :
  (forall v, mget k m = Some v -> P (k, v) -> P (k, f v)) ->
  Forall P m -> Forall P (malter f k m).
Proof.
  intros Hf Hm. induction Hm as [|[k0 v0] m H0 Hm IH]; simpl in *.
  - constructor.
  - destruct (String.eqb_spec k k0) as [->|Hne]; constructor; auto.
Qed.

Lemma loadMatchesJobs_fresh (n : FFmpegNode.t) :
  FFmpegNode.activeJobs n = [] -> FFmpegNode.currentLoad n = 0%Q -> loadMatchesJobs n.
Proof. unfold loadMatchesJobs. intros -> ->. reflexivity. Qed.

Lemma loadMatchesJobs_assign (n : FFmpegNode.t) (jobId : string) :
  loadMatchesJobs n ->
  loadMatchesJobs
    (FFmpegNode.with_activeJobs
       (FFmpegNode.activeJobs (FFmpegNode.with_currentLoad (FFmpegNode.currentLoad n + 1)%Q n)
        ++ [jobId])
       (FFmpegNode.with_currentLoad (FFmpegNode.currentLoad n + 1)%Q n)).
Proof.
  unfold loadMatchesJobs. simpl. intros H.
  rewrite length_app. simpl. rewrite Nat2Z.inj_add, inject_Z_plus, H. reflexivity.
Qed.

Lemma length_without (jobId : string) (l : list string) :
  (occurrences jobId l
   + length (List.filter (fun id => negb (String.eqb id jobId)) l) = length l)%nat.
Proof. unfold occurrences. apply List.filter_length. Qed.

Lemma loadMatchesJobs_stop (n : FFmpegNode.t) (jobId : string) :
  loadMatchesJobs n -> occurrences jobId (FFmpegNode.activeJobs n) = 1%nat ->
  loadMatchesJobs
    (FFmpegNode.with_activeJobs
       (List.filter (fun id => negb (String.eqb id jobId))
          (FFmpegNode.activeJobs
             (FFmpegNode.with_currentLoad (Qmax 0 (FFmpegNode.currentLoad n - 1)) n)))
       (FFmpegNode.with_currentLoad (Qmax 0 (FFmpegNode.currentLoad n - 1)) n)).
Proof.
  unfold loadMatchesJobs. simpl. intros H Hocc.
  pose proof (length_without jobId (FFmpegNode.activeJobs n)) as Hlen.
  rewrite Hocc in Hlen. rewrite <- Hlen in H.
  rewrite Nat2Z.inj_add, inject_Z_plus in H. simpl in H.
  assert (Hload : (FFmpegNode.currentLoad n - 1
                   == inject_Z (Z.of_nat (length
                        (List.filter (fun id => negb (String.eqb id jobId))
                           (FFmpegNode.activeJobs n)))))%Q).
  { rewrite <- H. ring. }
  rewrite Q.max_r; [now symmetry|].
  rewrite Hload. change 0%Q with (inject_Z 0). rewrite <- Zle_Qle. lia.
Qed.

Section Accounting.
Variable orc : Oracle.
Variable now : Z.

Ltac accounted_auto :=
  repeat first
    [ keeps_step
    | apply keeps_modify; intros ? ?; assumption
    | intros ? ?; assumption ].

Lemma accounted_setStatus r v : keeps accounted (setStatus r v).
Proof. unfold setStatus, updateJob. accounted_auto. Qed.

Lemma accounted_updateJob r f : keeps accounted (updateJob r f).
Proof. unfold updateJob. accounted_auto. Qed.

Lemma accounted_assignJobToNode r ffmpegNode roomServer :
  keeps accounted (assignJobToNode orc r ffmpegNode roomServer).
Proof.
  unfold assignJobToNode, assignSteps, assignFailed. apply keeps_withJob. intros job.
  apply keeps_tryCatch.
  - apply keeps_bind; [apply accounted_setStatus | intros _].
    apply keeps_bind; [apply accounted_updateJob | intros _].
    apply keeps_bind.
    { unfold setupRTPForwarding, allocateRTPPorts.
      repeat first [apply accounted_updateJob | keeps_step | intros ? ?; assumption]. }
    intros _. apply keeps_bind.
    { unfold startRecordingOnNode. accounted_auto. }
    intros _. apply keeps_bind; [apply keeps_modify; intros ? ?; assumption | intros _].
    apply keeps_modify2.
    + intros s Hs. unfold accounted in *. simpl. rewrite malter_malter.
      apply Forall_malter; [|exact Hs].
      intros k0 n Hn. simpl in *. now apply loadMatchesJobs_assign.
    + apply keeps_bind; [apply accounted_setStatus | intros _].
      now apply keeps_database.
  - intros message.
    apply keeps_bind; [apply accounted_setStatus | intros _].
    apply accounted_updateJob.
Qed.

Lemma accounted_with_isHealthy v id s :
  accounted s -> accounted (with_ffmpegNodes (malter (FFmpegNode.with_isHealthy v) id) s).
Proof.
  unfold accounted. simpl. apply Forall_malter. intros k0 n Hn. exact Hn.
Qed.

Lemma accounted_registerRoomServer registration :
  keeps accounted (registerRoomServer orc now registration).
Proof. unfold registerRoomServer. accounted_auto. Qed.

Lemma accounted_registerFFmpegNode registration stamp :
  keeps accounted (registerFFmpegNode orc now registration stamp).
Proof.
  unfold registerFFmpegNode. cbv zeta.
  apply keeps_bind; [|intros _; accounted_auto].
  apply keeps_modify. intros s Hs. unfold accounted in *. simpl.
  apply Forall_mset; [|exact Hs]. now apply loadMatchesJobs_fresh.
Qed.

Lemma accounted_startDistributedRecording request stamp :
  keeps accounted (startDistributedRecording orc now request stamp).
Proof.
  unfold startDistributedRecording, newJob. cbv zeta.
  apply keeps_bind; [apply keeps_get | intros s0].
  destruct (mget _ _) as [roomServer|]; [|apply keeps_throw].
  destruct (negb _); [apply keeps_throw|].
  apply keeps_bind; [intros s Hs; exact Hs | intros r].
  apply keeps_bind.
  { destruct (selectOptimalFFmpegNode _ _);
      [apply accounted_assignJobToNode | apply keeps_modify; intros ? ?; assumption]. }
  intros _. accounted_auto.
Qed.

Lemma accounted_handleUnhealthyFFmpegNode id :
  keeps accounted (handleUnhealthyFFmpegNode orc now id).
Proof.
  unfold handleUnhealthyFFmpegNode.
  apply keeps_bind; [apply keeps_modify; intros s; apply accounted_with_isHealthy | intros _].
  apply keeps_bind; [apply keeps_get | intros s0]. cbv zeta.
  apply keeps_forEach. intros r. unfold reassignJob. apply keeps_withJob. intros job.
  apply keeps_bind; [apply keeps_get | intros s1].
  destruct (selectOptimalFFmpegNode _ _) as [newNode|].
  - destruct (mget _ _) as [roomServer|]; [|apply keeps_ret].
    apply keeps_bind; [apply accounted_setStatus | intros _].
    apply keeps_bind; [apply accounted_updateJob | intros _].
    apply accounted_assignJobToNode.
  - apply keeps_bind; [apply accounted_setStatus | intros _].
    apply keeps_bind; [apply accounted_updateJob | intros _].
    apply accounted_updateJob.
Qed.

Lemma accounted_processQueuedJob availableNodes r :
  keeps accounted (processQueuedJob orc availableNodes r).
Proof.
  unfold processQueuedJob.
  apply keeps_bind; [apply keeps_get | intros s0].
  destruct (jobs s0 !! r) as [job|]; [|apply keeps_ret].
  destruct (mget _ _) as [roomServer|]; [|apply keeps_ret].
  destruct (negb _); [apply keeps_ret|].
  destruct (selectOptimalFFmpegNode _ _) as [selectedNode|]; [|apply keeps_ret].
  apply keeps_bind; [apply keeps_modify; intros ? ?; assumption | intros _].
  apply keeps_bind; [apply accounted_assignJobToNode | intros _].
  apply keeps_ret.
Qed.

Lemma accounted_processJobQueue : keeps accounted (processJobQueue orc).
Proof.
  unfold processJobQueue.
  apply keeps_bind; [apply keeps_get | intros s0].
  destruct (isEmpty _); [apply keeps_ret|]. cbv zeta.
  apply keeps_bind; [|intros _; apply keeps_ret].
  apply keeps_forEachWith. intros local r. apply accounted_processQueuedJob.
Qed.

(** A report with a load that is not zero and a list of that length. *)
Lemma accounted_consistent_heartbeat nodeId load reported s :
  ~ (load == 0)%Q ->
  (inject_Z (Z.of_nat (length reported)) == load)%Q ->
  accounted s ->
  accounted (finalState (updateFFmpegNodeHeartbeat now nodeId
    {| fnh_currentLoad := Some load; fnh_activeJobs := Some reported |} s)).
Proof.
  intros Hnonzero Hlen Hs. unfold updateFFmpegNodeHeartbeat, modify, accounted in *.
  simpl. apply Forall_malter_at; [|exact Hs]. intros n _ _.
  unfold loadMatchesJobs, numberOr, Num.truthy. simpl.
  destruct (Qeq_bool load 0) eqn:E; simpl; [|exact Hlen].
  apply Qeq_bool_iff in E. contradiction.
Qed.

(** The accounting step of a stop, for a recorder that lists the job once. *)
Lemma accounted_stopRecordingOnNode job ffmpegNode s :
  accounted s ->
  (forall n, mget (FFmpegNode.id ffmpegNode) (ffmpegNodes s) = Some n ->
             occurrences (Job.jobId job) (FFmpegNode.activeJobs n) = 1%nat) ->
  accounted (finalState (stopRecordingOnNode orc job ffmpegNode s)).
Proof.
  intros Hs Honce. cbv [stopRecordingOnNode fetch call bind ret throw modify].
  destruct (orc _ _) as [message|ok statusText ports]; simpl; [exact Hs|].
  destruct ok; simpl; [|exact Hs].
  unfold accounted in *. simpl. rewrite malter_malter.
  apply Forall_malter_at; [|exact Hs]. intros n Hn Hmatch. simpl in *.
  apply loadMatchesJobs_stop; auto.
Qed.

Lemma final_bind {A B : Type} (P : State -> Prop) (m : M A) (k : A -> M B) s :
  P (finalState (m s)) -> (forall a, keeps P (k a)) -> P (finalState (bind m k s)).
Proof.
  intros Hm Hk. unfold bind. destruct (m s); simpl in *; auto. now apply Hk.
Qed.

Lemma final_tryCatch {A : Type} (P : State -> Prop) (m : M A) handler s :
  P (finalState (m s)) -> (forall message, keeps P (handler message)) ->
  P (finalState (tryCatch m handler s)).
Proof.
  intros Hm Hh. unfold tryCatch. destruct (m s); simpl in *; auto. now apply Hh.
Qed.

Lemma accounted_stopRTPForwarding job roomServer :
  keeps accounted (stopRTPForwarding orc job roomServer).
Proof. unfold stopRTPForwarding. accounted_auto. Qed.

Lemma accounted_stopDistributedRecording jobId s :
  accounted s ->
  (forall r job ffmpegNode n,
      mget jobId (activeJobs s) = Some r -> jobs s !! r = Some job ->
      mget (Job.ffmpegNodeId job) (ffmpegNodes s) = Some ffmpegNode ->
      mget (FFmpegNode.id ffmpegNode) (ffmpegNodes s) = Some n ->
      occurrences (Job.jobId job) (FFmpegNode.activeJobs n) = 1%nat) ->
  accounted (finalState (stopDistributedRecording orc now jobId s)).
Proof.
  intros Hs Honce. unfold stopDistributedRecording.
  change (bind get ?k s) with (k s s). cbv beta.
  destruct (mget jobId (activeJobs s)) as [r|] eqn:Hr; [|exact Hs].
  destruct (jobs s !! r) as [job|] eqn:Hjob; [|exact Hs].
  apply final_tryCatch.
  - apply final_bind.
    + destruct (mget (Job.ffmpegNodeId job) (ffmpegNodes s)) as [ffmpegNode|] eqn:Hnode;
        [|exact Hs].
      apply accounted_stopRecordingOnNode; eauto.
    + intros _. apply keeps_bind.
      { destruct (mget (Job.roomServerId job) (roomServers s));
          [apply accounted_stopRTPForwarding | apply keeps_ret]. }
      intros _. apply keeps_bind; [apply accounted_setStatus | intros _].
      apply keeps_bind; [apply accounted_updateJob | intros _].
      accounted_auto.
  - intros message.
    apply keeps_bind; [apply accounted_setStatus | intros _].
    apply keeps_bind; [apply accounted_updateJob | intros _].
    apply keeps_bind; [apply accounted_updateJob | intros _].
    apply keeps_throw.
Qed.

(** A heartbeat that reports neither a load nor a list. *)
Lemma accounted_bare_heartbeat nodeId s :
  accounted s ->
  accounted (finalState (updateFFmpegNodeHeartbeat now nodeId
    {| fnh_currentLoad := None; fnh_activeJobs := None |} s)).
Proof.
  intros Hs. unfold updateFFmpegNodeHeartbeat, modify, accounted in *.
  simpl. apply Forall_malter_at; [|exact Hs]. intros n _ Hn. exact Hn.
Qed.

End Accounting.

(** ** Steps that leave a component of the state alone *)

Ltac frame_auto :=
  repeat first
    [ keeps_step
    | apply keeps_modify; intros ? ?; simpl; assumption
    | intros ? ?; simpl; assumption ].

Section StopFrames.
Variable orc : Oracle.
Variable P : State -> Prop.
Hypothesis Pcall : callStable P.
Hypothesis Pnodes : forall f s, P s -> P (with_ffmpegNodes f s).
Hypothesis Pservers : forall f s, P s -> P (with_roomServers f s).

Lemma keeps_stopRecordingOnNode job ffmpegNode :
  keeps P (stopRecordingOnNode orc job ffmpegNode).
Proof.
  unfold stopRecordingOnNode.
  repeat first [keeps_step | apply keeps_modify; intros ? ?; apply Pnodes; assumption
               | apply callStable_at; exact Pcall].
Qed.

Lemma keeps_stopRTPForwarding job roomServer :
  keeps P (stopRTPForwarding orc job roomServer).
Proof.
  unfold stopRTPForwarding.
  repeat first [keeps_step | apply keeps_modify; intros ? ?; apply Pservers; assumption
               | apply callStable_at; exact Pcall].
Qed.

End StopFrames.

(** ** Stopping a job that is not in the active map *)

Lemma stop_not_found orc now jobId s :
  mget jobId (activeJobs s) = None ->
  stopDistributedRecording orc now jobId s
  = Thrown ("Recording job " +:+ jobId +:+ " not found") s.
Proof.
  intros H. unfold stopDistributedRecording.
  change (bind get ?k s) with (k s s). cbv beta. now rewrite H.
Qed.

Lemma setStatus_returns r v s : exists s', setStatus r v s = Returned tt s'.
Proof.
  unfold setStatus, withJob, updateJob, bind, modify.
  destruct (jobs s !! r); eauto.
Qed.

Lemma stop_returns_deleted orc now jobId s :
  post (stopDistributedRecording orc now jobId) s
    (fun _ s' => activeJobs s' = mdelete jobId (activeJobs s))
    (fun _ _ => True).
Proof.
  unfold stopDistributedRecording. apply post_bind. unfold post at 1, get.
  destruct (mget jobId (activeJobs s)) as [r|]; [|exact I].
  destruct (jobs s !! r) as [job|]; [|exact I].
  set (unchanged := fun s1 : State => activeJobs s1 = activeJobs s).
  assert (Hcall : callStable unchanged) by (intros ? ? H; exact H).
  assert (Hcatch : forall message s1,
             post (setStatus r failed ;;
                   updateJob r (Job.with_errorMessage (Some message)) ;;
                   updateJob r (Job.with_endTime (Some now)) ;;
                   throw message) s1
               (fun (_ : string) s' => activeJobs s' = mdelete jobId (activeJobs s))
               (fun _ _ => True)).
  { intros message s1. unfold post, bind.
    destruct (setStatus_returns r failed s1) as [s2 ->]. exact I. }
  apply post_tryCatch.
  apply (post_bind_keeps unchanged); [|reflexivity| |intros; apply Hcatch].
  { destruct (mget (Job.ffmpegNodeId job) (ffmpegNodes s));
      [apply keeps_stopRecordingOnNode; auto | apply keeps_ret]. }
  intros _ s1 H1.
  apply (post_bind_keeps unchanged); [|exact H1| |intros; apply Hcatch].
  { destruct (mget (Job.roomServerId job) (roomServers s));
      [apply keeps_stopRTPForwarding; auto | apply keeps_ret]. }
  clear s1 H1. intros _ s1 H1.
  apply (post_bind_keeps unchanged); [|exact H1| |intros; apply Hcatch].
  { unfold setStatus, updateJob. frame_auto. }
  clear s1 H1. intros _ s1 H1.
  apply (post_bind_keeps unchanged); [|exact H1| |intros; apply Hcatch].
  { unfold updateJob. frame_auto. }
  clear s1 H1. intros _ s1 H1.
  apply (post_bind_keeps unchanged); [|exact H1| |intros; apply Hcatch].
  { apply keeps_database. now apply callStable_at. }
  clear s1 H1. intros _ s1 H1.
  unfold post, bind, modify, ret. simpl. now rewrite H1.
Qed.

(** C4, as stated, fails: a job that failed during its assignment stays in
    the active map; stopping it sends both stop calls again, moves it from
    failed to completed and decrements the counters of its recorder and of
    its room server. *)
Lemma C4_stop_of_a_failed_job_is_carried_out :
  statusOf 1 Fleet.oneFailed = Some failed
  /\ mget "rec-2" (activeJobs Fleet.oneFailed) = Some 1%nat
  /\ exists s',
       stopDistributedRecording Fleet.okAll 3000 "rec-2" Fleet.oneFailed
       = Returned "Recording rec-2 completed" s'
       /\ drop (length (log Fleet.oneFailed)) (log s')
          = [ Called (StopRecording "http://10.0.0.1:4000" "rec-2");
              Called (StopRtpForwarding "http://rs1.example:3000" "rec-2");
              StatusSet 1 failed completed;
              Called (DbUpdateRecordingJob "rec-2") ]
       /\ FFmpegNode.currentLoad <$> mget Fleet.rn1 (ffmpegNodes Fleet.oneFailed) = Some 1%Q
       /\ FFmpegNode.currentLoad <$> mget Fleet.rn1 (ffmpegNodes s') = Some 0%Q
       /\ RoomServerNode.currentLoad <$> mget "rs1" (roomServers Fleet.oneFailed) = Some 1%Q
       /\ RoomServerNode.currentLoad <$> mget "rs1" (roomServers s') = Some 0%Q.
Proof.
  split; [vm_compute; reflexivity|]. split; [vm_compute; reflexivity|].
  eexists. split; [vm_compute; reflexivity|].
  repeat split; vm_compute; reflexivity.
Qed.

(** C4, amended.  A stop on an identifier that is not in the active map
    throws [Recording job <id> not found] and leaves the state as it is: no
    call is made and no counter changes.  That is the case of a job that a
    stop has completed: a stop that returns has removed the job from the
    active map, so every later stop on its identifier is refused in that
    way.  (A terminal job that is still in the map is stopped like any
    other job.) *)
Theorem C4_stop_after_completion :
  forall (orc : Oracle) (now : Z) (jobId : string) (s : State),
    (mget jobId (activeJobs s) = None ->
     stopDistributedRecording orc now jobId s
     = Thrown ("Recording job " +:+ jobId +:+ " not found") s)
    /\ (forall outcome s',
           NoDup (mkeys (activeJobs s)) ->
           stopDistributedRecording orc now jobId s = Returned outcome s' ->
           forall orc' now',
             stopDistributedRecording orc' now' jobId s'
             = Thrown ("Recording job " +:+ jobId +:+ " not found") s').
Proof.
  intros orc now jobId s. split; [apply stop_not_found|].
  intros outcome s' Hkeys Hstop orc' now'. apply stop_not_found.
  pose proof (stop_returns_deleted orc now jobId s) as Hpost.
  unfold post in Hpost. rewrite Hstop in Hpost. rewrite Hpost.
  now apply mget_mdelete_same.
Qed.

Lemma C4_stop_after_completion_witness :
  stopDistributedRecording Fleet.okAll 9000 "rec-9" Fleet.recordingOne
  = Thrown "Recording job rec-9 not found" Fleet.recordingOne
  /\ stopDistributedRecording Fleet.okAll 9000 "rec-1"
       (finalState (stopDistributedRecording Fleet.okAll 5000 "rec-1" Fleet.recordingOne))
     = Thrown "Recording job rec-1 not found"
         (finalState (stopDistributedRecording Fleet.okAll 5000 "rec-1" Fleet.recordingOne)).
Proof.
  split.
  - apply (proj1 (C4_stop_after_completion Fleet.okAll 9000 "rec-9" Fleet.recordingOne)).
    vm_compute. reflexivity.
  - destruct (C4_stop_after_completion Fleet.okAll 5000 "rec-1" Fleet.recordingOne)
      as [_ Hagain].
    eapply Hagain.
    + apply (bool_decide_unpack _). vm_compute. exact I.
    + vm_compute. reflexivity.
Defined.

(** ** The log only grows *)

Lemma extends_refl (E : Event -> Prop) s : extends E s s.
Proof. exists []. split; [now rewrite app_nil_r | constructor]. Qed.

Lemma extends_snoc (E : Event -> Prop) s s1 e :
  extends E s s1 -> E e -> extends E s (with_log (fun l => l ++ [e]) s1).
Proof.
  intros (events & Hlog & Hall) He. exists (events ++ [e]). simpl. split.
  - now rewrite Hlog, app_assoc.
  - apply List.Forall_app. split; [exact Hall | now repeat constructor].
Qed.

Lemma extends_trans (E : Event -> Prop) s s1 s2 :
  extends E s s1 -> extends E s1 s2 -> extends E s s2.
Proof.
  intros (e1 & H1 & Hall1) (e2 & H2 & Hall2). exists (e1 ++ e2). split.
  - now rewrite H2, H1, app_assoc.
  - apply List.Forall_app. auto.
Qed.

Lemma extends_weaken (E E' : Event -> Prop) s s1 :
  (forall e, E e -> E' e) -> extends E s s1 -> extends E' s s1.
Proof.
  intros Himp (events & Hlog & Hall). exists events. split; [exact Hlog|].
  eapply List.Forall_impl; eauto.
Qed.

(** Steps whose events all satisfy [E]. *)
Ltac log_auto :=
  repeat first
    [ keeps_step
    | apply keeps_modify; intros ? ?; first
        [ assumption
        | apply extends_snoc; [assumption | simpl; auto] ]
    | intros ? ?; apply extends_snoc; [assumption | simpl; auto] ].

(** ** Assignment *)

Section Assign.
Variable orc : Oracle.

Lemma assign_events r ffmpegNode roomServer s0 :
  keeps (extends assignEvent s0) (assignJobToNode orc r ffmpegNode roomServer).
Proof.
  unfold assignJobToNode, assignSteps, assignFailed, setupRTPForwarding,
    allocateRTPPorts, startRecordingOnNode, setStatus, updateJob.
  log_auto.
Qed.

Lemma assignSteps_keeps_heap_size r job ffmpegNode roomServer n :
  keeps (fun s => length (jobs s) = n) (assignSteps orc r job ffmpegNode roomServer).
Proof.
  unfold assignSteps, setupRTPForwarding, allocateRTPPorts, startRecordingOnNode,
    setStatus, updateJob.
  repeat first
    [ keeps_step
    | apply keeps_modify; intros ? ?; simpl; rewrite ?length_alter; assumption
    | intros ? ?; simpl; assumption ].
Qed.

Lemma assign_failure r job ffmpegNode roomServer s message s1 :
  jobs s !! r = Some job ->
  assignSteps orc r job ffmpegNode roomServer s = Thrown message s1 ->
  exists job1,
    jobs s1 !! r = Some job1
    /\ assignJobToNode orc r ffmpegNode roomServer s
       = Returned tt
           (with_jobs (alter (Job.with_errorMessage (Some message)) r)
              (with_jobs (alter (Job.with_status failed) r)
                 (with_log (fun l => l ++ [StatusSet r (Job.status job1) failed]) s1))).
Proof.
  intros Hjob Hsteps.
  pose proof (assignSteps_keeps_heap_size r job ffmpegNode roomServer _ s eq_refl) as Hlen.
  rewrite Hsteps in Hlen. simpl in Hlen.
  destruct (jobs s1 !! r) as [job1|] eqn:Hjob1.
  - exists job1. split; [reflexivity|].
    unfold assignJobToNode, withJob. rewrite Hjob. unfold tryCatch. rewrite Hsteps.
    unfold assignFailed, setStatus, withJob, bind. rewrite Hjob1. reflexivity.
  - apply lookup_ge_None in Hjob1. apply lookup_lt_Some in Hjob. lia.
Qed.

End Assign.

(** C5, as stated, fails: here the ports were allocated and the forwarding
    was configured before [start-recording] was rejected.  The job is failed
    with the message of the rejection, and the assign made no call after
    it: the room server is not asked to stop and nothing releases the
    ports. *)
Lemma C5_failed_assign_reverses_nothing :
  drop (length (log Fleet.recordingOne)) (log Fleet.oneFailed)
  = [ StatusSet 1 pending initializing;
      Called (AllocatePorts "http://10.0.0.1:4000" 2);
      Called (ConfigureRtpForwarding "http://rs1.example:3000" (Fleet.forwarding "rec-2"));
      Called (StartRecording "http://10.0.0.1:4000" "rec-2"
                (fw_rtpStreams (Fleet.forwarding "rec-2")));
      StatusSet 1 initializing failed;
      Called (DbSaveRecordingJob "rec-2") ]
  /\ exists job,
       jobs Fleet.oneFailed !! 1%nat = Some job
       /\ Job.status job = failed
       /\ Job.errorMessage job = Some "connect ECONNREFUSED"
       /\ Job.rtpForwarding job = Some (Fleet.forwarding "rec-2").
Proof.
  split; [vm_compute; reflexivity|].
  eexists. split; [vm_compute; reflexivity|]. repeat split.
Qed.

(** C5, amended.  An assign makes the calls of its forward steps only
    (allocate-ports, configure-rtp-forwarding, start-recording and the
    database update): it never asks a room server or a recorder to stop.
    When a step throws, the job is set to failed with the message of that
    error as its error description and nothing else happens: no call
    follows the failure and the registries stay as the failed step left
    them. *)
Theorem C5_failed_assign_marks_the_job_only :
  forall (orc : Oracle) (r : nat) (ffmpegNode : FFmpegNode.t)
         (roomServer : RoomServerNode.t) (s : State) (job : Job.t),
    jobs s !! r = Some job ->
    extends assignEvent s (finalState (assignJobToNode orc r ffmpegNode roomServer s))
    /\ forall message s1,
         assignSteps orc r job ffmpegNode roomServer s = Thrown message s1 ->
         exists job1 s2,
           jobs s1 !! r = Some job1
           /\ assignJobToNode orc r ffmpegNode roomServer s = Returned tt s2
           /\ jobs s2 !! r
              = Some (Job.with_errorMessage (Some message) (Job.with_status failed job1))
           /\ log s2 = log s1 ++ [StatusSet r (Job.status job1) failed]
           /\ roomServers s2 = roomServers s1
           /\ ffmpegNodes s2 = ffmpegNodes s1.
Proof.
  intros orc r ffmpegNode roomServer s job Hjob. split.
  - apply assign_events. apply extends_refl.
  - intros message s1 Hsteps.
    destruct (assign_failure orc r job ffmpegNode roomServer s message s1 Hjob Hsteps)
      as (job1 & Hjob1 & Hassign).
    exists job1. eexists. split; [exact Hjob1|]. split; [exact Hassign|].
    simpl. repeat split.
    rewrite !list_lookup_alter_eq, Hjob1. reflexivity.
Qed.

Lemma C5_failed_assign_marks_the_job_only_witness :
  extends assignEvent Fleet.secondCreated
    (finalState (assignJobToNode (Fleet.rejecting Fleet.isStartRecording "connect ECONNREFUSED")
                   1 Fleet.recorder1 Fleet.roomServer1 Fleet.secondCreated))
  /\ exists s2,
       assignJobToNode (Fleet.rejecting Fleet.isStartRecording "connect ECONNREFUSED")
         1 Fleet.recorder1 Fleet.roomServer1 Fleet.secondCreated
       = Returned tt s2
       /\ Job.errorMessage <$> jobs s2 !! 1%nat = Some (Some "connect ECONNREFUSED").
Proof.
  destruct (C5_failed_assign_marks_the_job_only
              (Fleet.rejecting Fleet.isStartRecording "connect ECONNREFUSED")
              1 Fleet.recorder1 Fleet.roomServer1 Fleet.secondCreated
              (Fleet.pendingJob "rec-2" 2000)) as [Hevents Hfailure].
  - vm_compute. reflexivity.
  - split; [exact Hevents|].
    edestruct (Hfailure "connect ECONNREFUSED") as (job1 & s2 & _ & Hrun & Hjob & _).
    + vm_compute. reflexivity.
    + exists s2. split; [exact Hrun|]. rewrite Hjob. reflexivity.
Defined.

(** ** The stop path under failing calls *)

Section StopFailures.
Variable orc : Oracle.
Variable now : Z.
Variables (jobId : string) (s : State) (r : nat) (job : Job.t)
          (ffmpegNode : FFmpegNode.t).
Hypothesis Hactive : mget jobId (activeJobs s) = Some r.
Hypothesis Hjob : jobs s !! r = Some job.
Hypothesis Hnode : mget (Job.ffmpegNodeId job) (ffmpegNodes s) = Some ffmpegNode.

Lemma stop_recorder_rejects message :
  (forall n, orc n (StopRecording (FFmpegNode.url ffmpegNode) (Job.jobId job))
             = Rejected message) ->
  exists s',
    stopDistributedRecording orc now jobId s = Thrown message s'
    /\ ffmpegNodes s' = ffmpegNodes s
    /\ roomServers s' = roomServers s
    /\ activeJobs s' = activeJobs s
    /\ jobs s' !! r = Some (stopFailed message now job).
Proof.
  intros Horc. unfold stopDistributedRecording.
  change (bind get ?k s) with (k s s). cbv beta.
  rewrite Hactive, Hjob, Hnode.
  cbv [tryCatch bind stopRecordingOnNode fetch call ret throw].
  rewrite Horc.
  cbv [setStatus withJob bind modify updateJob throw]. simpl. rewrite Hjob.
  eexists. split; [reflexivity|]. simpl. repeat split.
  rewrite !list_lookup_alter_eq, Hjob. reflexivity.
Qed.

Lemma stop_room_server_rejects roomServer statusText ports message :
  mget (Job.roomServerId job) (roomServers s) = Some roomServer ->
  (forall n, orc n (StopRecording (FFmpegNode.url ffmpegNode) (Job.jobId job))
             = Response true statusText ports) ->
  (forall n, orc n (StopRtpForwarding (RoomServerNode.url roomServer) (Job.jobId job))
             = Rejected message) ->
  exists s',
    stopDistributedRecording orc now jobId s = Thrown message s'
    /\ ffmpegNodes s'
       = malter (released (Job.jobId job)) (FFmpegNode.id ffmpegNode) (ffmpegNodes s)
    /\ roomServers s' = roomServers s
    /\ activeJobs s' = activeJobs s
    /\ jobs s' !! r = Some (stopFailed message now job).
Proof.
  intros Hserver Hrecorder Hforwarding. unfold stopDistributedRecording.
  change (bind get ?k s) with (k s s). cbv beta.
  rewrite Hactive, Hjob, Hnode, Hserver.
  cbv [tryCatch bind stopRecordingOnNode stopRTPForwarding fetch call ret throw modify].
  rewrite Hrecorder, Hforwarding.
  cbv [setStatus withJob bind modify updateJob throw]. simpl. rewrite Hjob.
  eexists. split; [reflexivity|]. simpl. repeat split.
  - rewrite malter_malter. reflexivity.
  - rewrite !list_lookup_alter_eq, Hjob. reflexivity.
Qed.

(** Answers that are not a success are not errors. *)
Lemma stop_not_acknowledged roomServer statusText ports :
  mget (Job.roomServerId job) (roomServers s) = Some roomServer ->
  (forall n c, orc n c = Response false statusText ports) ->
  exists outcome s',
    stopDistributedRecording orc now jobId s = Returned outcome s'
    /\ ffmpegNodes s' = ffmpegNodes s
    /\ roomServers s' = roomServers s
    /\ jobs s' !! r = Some (Job.with_endTime (Some now) (Job.with_status completed job)).
Proof.
  intros Hserver Horc. unfold stopDistributedRecording.
  change (bind get ?k s) with (k s s). cbv beta.
  rewrite Hactive, Hjob, Hnode, Hserver.
  cbv [tryCatch bind stopRecordingOnNode stopRTPForwarding fetch call ret throw modify
       database].
  rewrite !Horc.
  cbv [setStatus withJob bind modify updateJob throw]. simpl. rewrite Hjob. simpl.
  rewrite Horc.
  eexists. eexists. split; [reflexivity|]. simpl. repeat split.
  rewrite !list_lookup_alter_eq, Hjob. reflexivity.
Qed.

End StopFailures.

(** C6, as stated, fails: when the [stop-recording] call is rejected the
    stop throws and the job is failed, but the counters of the recorder and
    of the room server keep their values and the recorder still lists the
    job. *)
Lemma C6_rejected_stop_releases_nothing :
  statusOf 0 Fleet.recordingOne = Some recording
  /\ exists s',
       stopDistributedRecording (Fleet.rejecting Fleet.isStopRecording "socket hang up")
         5000 "rec-1" Fleet.recordingOne
       = Thrown "socket hang up" s'
       /\ statusOf 0 s' = Some failed
       /\ mget Fleet.rn1 (ffmpegNodes s') = Some Fleet.recorder1
       /\ FFmpegNode.currentLoad Fleet.recorder1 = 1%Q
       /\ FFmpegNode.activeJobs Fleet.recorder1 = ["rec-1"]
       /\ RoomServerNode.currentLoad <$> mget "rs1" (roomServers s') = Some 1%Q.
Proof.
  split; [vm_compute; reflexivity|].
  eexists. split; [vm_compute; reflexivity|].
  repeat split; vm_compute; reflexivity.
Qed.

(** C6, amended.  When an outbound stop call is rejected, the stop throws
    the error of that call and the job is set to failed with that message
    and with [endTime]; the job stays in the active map.  Accounting is
    released per acknowledged call only: if [stop-recording] is rejected,
    the registries are unchanged (the recorder keeps its counter and still
    lists the job); if [stop-recording] is acknowledged and
    [stop-rtp-forwarding] is rejected, the counter of the recorder is
    decremented (clamped at zero) and the job is removed from its list,
    and the room servers are unchanged.  A call answered without success
    is not an error: the stop completes the job and changes no counter. *)
Theorem C6_stop_releases_what_was_acknowledged :
  forall (orc : Oracle) (now : Z) (jobId : string) (s : State) (r : nat)
         (job : Job.t) (ffmpegNode : FFmpegNode.t),
    mget jobId (activeJobs s) = Some r ->
    jobs s !! r = Some job ->
    mget (Job.ffmpegNodeId job) (ffmpegNodes s) = Some ffmpegNode ->
    (forall message,
        (forall n, orc n (StopRecording (FFmpegNode.url ffmpegNode) (Job.jobId job))
                   = Rejected message) ->
        exists s',
          stopDistributedRecording orc now jobId s = Thrown message s'
          /\ ffmpegNodes s' = ffmpegNodes s
          /\ roomServers s' = roomServers s
          /\ activeJobs s' = activeJobs s
          /\ jobs s' !! r = Some (stopFailed message now job))
    /\ (forall roomServer statusText ports message,
           mget (Job.roomServerId job) (roomServers s) = Some roomServer ->
           (forall n, orc n (StopRecording (FFmpegNode.url ffmpegNode) (Job.jobId job))
                      = Response true statusText ports) ->
           (forall n, orc n (StopRtpForwarding (RoomServerNode.url roomServer) (Job.jobId job))
                      = Rejected message) ->
           exists s',
             stopDistributedRecording orc now jobId s = Thrown message s'
             /\ ffmpegNodes s'
                = malter (released (Job.jobId job)) (FFmpegNode.id ffmpegNode) (ffmpegNodes s)
             /\ roomServers s' = roomServers s
             /\ activeJobs s' = activeJobs s
             /\ jobs s' !! r = Some (stopFailed message now job))
    /\ (forall roomServer statusText ports,
           mget (Job.roomServerId job) (roomServers s) = Some roomServer ->
           (forall n c, orc n c = Response false statusText ports) ->
           exists outcome s',
             stopDistributedRecording orc now jobId s = Returned outcome s'
             /\ ffmpegNodes s' = ffmpegNodes s
             /\ roomServers s' = roomServers s
             /\ jobs s' !! r
                = Some (Job.with_endTime (Some now) (Job.with_status completed job))).
Proof.
  intros orc now jobId s r job ffmpegNode Hactive Hjob Hnode. repeat split.
  - intros. eapply stop_recorder_rejects; eauto.
  - intros. eapply stop_room_server_rejects; eauto.
  - intros. eapply stop_not_acknowledged; eauto.
Qed.

Lemma C6_stop_releases_what_was_acknowledged_witness :
  (exists s',
      stopDistributedRecording (Fleet.rejecting Fleet.isStopRecording "socket hang up")
        5000 "rec-1" Fleet.recordingOne
      = Thrown "socket hang up" s'
      /\ ffmpegNodes s' = ffmpegNodes Fleet.recordingOne)
  /\ (exists s',
         stopDistributedRecording (Fleet.rejecting Fleet.isStopRtpForwarding "socket hang up")
           5000 "rec-1" Fleet.recordingOne
         = Thrown "socket hang up" s'
         /\ ffmpegNodes s'
            = malter (released "rec-1") Fleet.rn1 (ffmpegNodes Fleet.recordingOne)
         /\ roomServers s' = roomServers Fleet.recordingOne)
  /\ (exists outcome s',
         stopDistributedRecording Fleet.refusing 5000 "rec-1" Fleet.recordingOne
         = Returned outcome s'
         /\ ffmpegNodes s' = ffmpegNodes Fleet.recordingOne
         /\ roomServers s' = roomServers Fleet.recordingOne).
Proof.
  split; [|split].
  - edestruct (C6_stop_releases_what_was_acknowledged
                 (Fleet.rejecting Fleet.isStopRecording "socket hang up")
                 5000 "rec-1" Fleet.recordingOne 0%nat) as (Hrejected & _ & _).
    + vm_compute. reflexivity.
    + vm_compute. reflexivity.
    + vm_compute. reflexivity.
    + destruct (Hrejected "socket hang up") as (s' & Hstop & Hnodes & _).
      * intros n. reflexivity.
      * exists s'. split; [exact Hstop | exact Hnodes].
  - edestruct (C6_stop_releases_what_was_acknowledged
                 (Fleet.rejecting Fleet.isStopRtpForwarding "socket hang up")
                 5000 "rec-1" Fleet.recordingOne 0%nat) as (_ & Hforwarding & _).
    + vm_compute. reflexivity.
    + vm_compute. reflexivity.
    + vm_compute. reflexivity.
    + destruct (Hforwarding Fleet.roomServer1 "OK" [5000; 5002] "socket hang up")
        as (s' & Hstop & Hnodes & Hservers & _).
      * vm_compute. reflexivity.
      * intros n. reflexivity.
      * intros n. reflexivity.
      * exists s'. split; [exact Hstop|]. split; [exact Hnodes | exact Hservers].
  - edestruct (C6_stop_releases_what_was_acknowledged
                 Fleet.refusing 5000 "rec-1" Fleet.recordingOne 0%nat) as (_ & _ & Hrefused).
    + vm_compute. reflexivity.
    + vm_compute. reflexivity.
    + vm_compute. reflexivity.
    + destruct (Hrefused Fleet.roomServer1 "Bad Gateway" [])
        as (outcome & s' & Hstop & Hnodes & Hservers & _).
      * vm_compute. reflexivity.
      * intros n c. reflexivity.
      * exists outcome, s'. split; [exact Hstop|]. split; [exact Hnodes | exact Hservers].
Defined.

(** ** A stop of a queued job *)

Lemma stop_of_queued_job orc now jobId s r job :
  mget jobId (activeJobs s) = Some r ->
  jobs s !! r = Some job ->
  Job.ffmpegNodeId job = "" ->
  mget "" (ffmpegNodes s) = None ->
  NoDup (mkeys (activeJobs s)) ->
  answersAll orc ->
  exists outcome s',
    stopDistributedRecording orc now jobId s = Returned outcome s'
    /\ jobs s' !! r = Some (Job.with_endTime (Some now) (Job.with_status completed job))
    /\ mget jobId (activeJobs s') = None
    /\ jobQueue s' = jobQueue s.
Proof.
  intros Hactive Hjob Hid Hnone Hkeys Horc. unfold stopDistributedRecording.
  change (bind get ?k s) with (k s s). cbv beta.
  rewrite Hactive, Hjob, Hid, Hnone.
  assert (Hlookup : forall h : list Job.t,
             h !! r = Some job ->
             alter (Job.with_endTime (Some now)) r (alter (Job.with_status completed) r h) !! r
             = Some (Job.with_endTime (Some now) (Job.with_status completed job))).
  { intros h Hh. now rewrite !list_lookup_alter_eq, Hh. }
  destruct (mget (Job.roomServerId job) (roomServers s)) as [roomServer|].
  - cbv [tryCatch bind stopRTPForwarding fetch call ret throw modify database].
    match goal with
    | |- context [orc ?n ?c] => destruct (Horc n c) as (ok & statusText & ports & ->)
    end.
    destruct ok; cbv [setStatus withJob bind modify updateJob]; simpl; rewrite Hjob; simpl;
      match goal with
      | |- context [orc ?n ?c] => destruct (Horc n c) as (ok' & statusText' & ports' & ->)
      end;
      (eexists; eexists; split; [reflexivity|]; simpl; repeat split;
       [now apply Hlookup | now apply mget_mdelete_same]).
  - cbv [tryCatch bind ret throw modify database call setStatus withJob updateJob].
    simpl. rewrite Hjob. simpl.
    match goal with
    | |- context [orc ?n ?c] => destruct (Horc n c) as (ok' & statusText' & ports' & ->)
    end.
    eexists. eexists. split; [reflexivity|]. simpl. repeat split;
      [now apply Hlookup | now apply mget_mdelete_same].
Qed.

(** ** A drain step does not look at the status of the job *)

Lemma drain_takes_any_status orc s availableNodes r job roomServer selectedNode :
  jobs s !! r = Some job ->
  mget (Job.roomServerId job) (roomServers s) = Some roomServer ->
  RoomServerNode.isHealthy roomServer = true ->
  selectOptimalFFmpegNode (nodesOf availableNodes s) (drainRequirement job roomServer)
  = Some selectedNode ->
  exists rest,
    log (finalState (processQueuedJob orc availableNodes r s))
    = log s ++ StatusSet r (Job.status job) initializing :: rest.
Proof.
  intros Hjob Hserver Hhealthy Hselected. unfold drainRequirement in Hselected.
  set (entered := with_jobs (alter (Job.with_status initializing) r)
                    (with_log (fun l => l ++ [StatusSet r (Job.status job) initializing])
                       (with_jobQueue (removeFirst Nat.eqb r) s))).
  assert (Hgrown : extends (fun _ => True) entered
                     (finalState (processQueuedJob orc availableNodes r s))).
  { unfold processQueuedJob. change (bind get ?k s) with (k s s). cbv beta.
    rewrite Hjob, Hserver, Hhealthy, Hselected. change (negb true) with false. cbv iota.
    unfold bind at 1, modify at 1.
    apply final_bind; [|intros _; apply keeps_ret].
    unfold assignJobToNode, withJob. simpl jobs. rewrite Hjob.
    apply final_tryCatch.
    - unfold assignSteps. apply final_bind.
      + unfold setStatus, withJob. simpl jobs. rewrite Hjob.
        unfold updateJob, bind, modify. simpl. apply extends_refl.
      + intros _.
        unfold setupRTPForwarding, allocateRTPPorts, startRecordingOnNode, setStatus,
          updateJob.
        log_auto.
    - intros message. unfold assignFailed, setStatus, updateJob. log_auto. }
  destruct Hgrown as (events & Hlog & _). exists events.
  rewrite Hlog. unfold entered. simpl. now rewrite <- app_assoc.
Qed.

Lemma stop_of_queued_job_rejected orc now jobId s r job roomServer message :
  mget jobId (activeJobs s) = Some r ->
  jobs s !! r = Some job ->
  Job.ffmpegNodeId job = "" ->
  mget "" (ffmpegNodes s) = None ->
  mget (Job.roomServerId job) (roomServers s) = Some roomServer ->
  (forall n, orc n (StopRtpForwarding (RoomServerNode.url roomServer) (Job.jobId job))
             = Rejected message) ->
  exists s',
    stopDistributedRecording orc now jobId s = Thrown message s'
    /\ jobs s' !! r = Some (stopFailed message now job)
    /\ activeJobs s' = activeJobs s
    /\ jobQueue s' = jobQueue s.
Proof.
  intros Hactive Hjob Hid Hnone Hserver Horc. unfold stopDistributedRecording.
  change (bind get ?k s) with (k s s). cbv beta.
  rewrite Hactive, Hjob, Hid, Hnone, Hserver.
  cbv [tryCatch bind stopRTPForwarding fetch call ret throw modify].
  rewrite Horc.
  cbv [setStatus withJob bind modify updateJob throw]. simpl. rewrite Hjob.
  eexists. split; [reflexivity|]. simpl. repeat split.
  rewrite !list_lookup_alter_eq, Hjob. reflexivity.
Qed.

(** C10, as stated, fails: a stop of a job that waits in the queue does not
    always succeed.  The queued job has a registered room server, so the
    stop calls [stop-rtp-forwarding]; when that call is rejected the stop
    throws, and the job is failed, not completed, and stays in the active
    map (and in the queue).  When the database update is rejected the stop
    throws as well: the job, already completed, is failed and stays in the
    active map. *)
Lemma C10_stop_of_a_queued_job_can_throw :
  (statusOf 0 Requeue.queued = Some pending
   /\ Job.ffmpegNodeId <$> jobs Requeue.queued !! 0%nat = Some ""
   /\ mget "rec-q1" (activeJobs Requeue.queued) = Some 0%nat
   /\ jobQueue Requeue.queued = [0%nat])
  /\ (exists s',
        stopDistributedRecording
          (Fleet.rejecting Fleet.isStopRtpForwarding "connect ECONNREFUSED")
          3000 "rec-q1" Requeue.queued
        = Thrown "connect ECONNREFUSED" s'
        /\ statusOf 0 s' = Some failed
        /\ mget "rec-q1" (activeJobs s') = Some 0%nat
        /\ jobQueue s' = [0%nat]
        /\ drop (length (log Requeue.queued)) (log s')
           = [ Called (StopRtpForwarding "http://rs1.example:3000" "rec-q1");
               StatusSet 0 pending failed ])
  /\ (exists s',
        stopDistributedRecording
          (Fleet.rejecting Fleet.isDbUpdateRecordingJob "database is locked")
          3000 "rec-q1" Requeue.queued
        = Thrown "database is locked" s'
        /\ statusOf 0 s' = Some failed
        /\ mget "rec-q1" (activeJobs s') = Some 0%nat
        /\ jobQueue s' = [0%nat]
        /\ drop (length (log Requeue.queued)) (log s')
           = [ Called (StopRtpForwarding "http://rs1.example:3000" "rec-q1");
               StatusSet 0 pending completed;
               Called (DbUpdateRecordingJob "rec-q1");
               StatusSet 0 completed failed ]).
Proof.
  split; [repeat split; vm_compute; reflexivity|].
  split; eexists; (split; [vm_compute; reflexivity|]);
    repeat split; vm_compute; reflexivity.
Qed.

(** C10, amended.  A stop of a job that waits in the queue (pending, no
    recorder), when no outbound call is rejected, returns, completes the
    job and removes it from the active map, and leaves the queue as it is:
    the job is still queued.  When the [stop-rtp-forwarding] call to its
    room server is rejected the stop throws: the job is failed and stays in
    the active map and in the queue.  A drain step takes a queued job
    whatever its status: when its room server is healthy and the placement
    returns a recorder it starts the assignment by writing [initializing]
    over the status the job has.  So the stopped job is assigned again: in
    the run of [Requeue] the health loop moves the completed job to
    recording on the recorder, with its [endTime] still set and out of the
    active map. *)
Theorem C10_stopped_job_stays_queued :
  (forall (orc : Oracle) (now : Z) (jobId : string) (s : State) (r : nat) (job : Job.t),
      mget jobId (activeJobs s) = Some r ->
      jobs s !! r = Some job ->
      Job.status job = pending ->
      Job.ffmpegNodeId job = "" ->
      mget "" (ffmpegNodes s) = None ->
      r ∈ jobQueue s ->
      NoDup (mkeys (activeJobs s)) ->
      answersAll orc ->
      exists outcome s',
        stopDistributedRecording orc now jobId s = Returned outcome s'
        /\ statusOf r s' = Some completed
        /\ mget jobId (activeJobs s') = None
        /\ r ∈ jobQueue s')
  /\ (forall (orc : Oracle) (now : Z) (jobId : string) (s : State) (r : nat) (job : Job.t)
             (roomServer : RoomServerNode.t) (message : string),
         mget jobId (activeJobs s) = Some r ->
         jobs s !! r = Some job ->
         Job.status job = pending ->
         Job.ffmpegNodeId job = "" ->
         mget "" (ffmpegNodes s) = None ->
         r ∈ jobQueue s ->
         mget (Job.roomServerId job) (roomServers s) = Some roomServer ->
         (forall n, orc n (StopRtpForwarding (RoomServerNode.url roomServer) (Job.jobId job))
                    = Rejected message) ->
         exists s',
           stopDistributedRecording orc now jobId s = Thrown message s'
           /\ statusOf r s' = Some failed
           /\ mget jobId (activeJobs s') = Some r
           /\ r ∈ jobQueue s')
  /\ (forall (orc : Oracle) (s : State) (availableNodes : list string) (r : nat)
             (job : Job.t) (roomServer : RoomServerNode.t) (selectedNode : FFmpegNode.t),
         jobs s !! r = Some job ->
         mget (Job.roomServerId job) (roomServers s) = Some roomServer ->
         RoomServerNode.isHealthy roomServer = true ->
         selectOptimalFFmpegNode (nodesOf availableNodes s) (drainRequirement job roomServer)
         = Some selectedNode ->
         exists rest,
           log (finalState (processQueuedJob orc availableNodes r s))
           = log s ++ StatusSet r (Job.status job) initializing :: rest)
  /\ (statusOf 0 Requeue.queued = Some pending
      /\ statusOf 0 Requeue.stopped = Some completed
      /\ jobQueue Requeue.stopped = [0%nat]
      /\ activeJobs Requeue.stopped = []
      /\ statusOf 0 Requeue.drained = Some recording
      /\ Job.endTime <$> jobs Requeue.drained !! 0%nat = Some (Some 3000)
      /\ FFmpegNode.activeJobs <$> mget Requeue.rn (ffmpegNodes Requeue.drained)
         = Some ["rec-q1"]
      /\ activeJobs Requeue.drained = []).
Proof.
  split; [|split; [|split]].
  - intros orc now jobId s r job Hactive Hjob _ Hid Hnone Hqueued Hkeys Horc.
    destruct (stop_of_queued_job orc now jobId s r job Hactive Hjob Hid Hnone Hkeys Horc)
      as (outcome & s' & Hstop & Hjob' & Hgone & Hqueue).
    exists outcome, s'. repeat split; auto.
    + unfold statusOf. now rewrite Hjob'.
    + now rewrite Hqueue.
  - intros orc now jobId s r job roomServer message
      Hactive Hjob _ Hid Hnone Hqueued Hserver Horc.
    destruct (stop_of_queued_job_rejected orc now jobId s r job roomServer message
                Hactive Hjob Hid Hnone Hserver Horc)
      as (s' & Hstop & Hjob' & Hkept & Hqueue).
    exists s'. repeat split; auto.
    + unfold statusOf. now rewrite Hjob'.
    + now rewrite Hkept.
    + now rewrite Hqueue.
  - intros. eapply drain_takes_any_status; eauto.
  - repeat split; vm_compute; reflexivity.
Qed.

Lemma C10_stopped_job_stays_queued_witness :
  (exists outcome s',
      stopDistributedRecording Fleet.okAll 3000 "rec-q1" Requeue.queued = Returned outcome s'
      /\ statusOf 0 s' = Some completed
      /\ 0%nat ∈ jobQueue s')
  /\ (exists s',
        stopDistributedRecording
          (Fleet.rejecting Fleet.isStopRtpForwarding "connect ECONNREFUSED")
          3000 "rec-q1" Requeue.queued
        = Thrown "connect ECONNREFUSED" s'
        /\ statusOf 0 s' = Some failed
        /\ 0%nat ∈ jobQueue s')
  /\ exists rest,
       log (finalState (processQueuedJob Fleet.okAll [Requeue.rn] 0 Requeue.recorderAdded))
       = log Requeue.recorderAdded ++ StatusSet 0 completed initializing :: rest.
Proof.
  destruct C10_stopped_job_stays_queued as (Hstop & Hrejected & Hdrain & _).
  split; [|split].
  - edestruct (Hstop Fleet.okAll 3000 "rec-q1" Requeue.queued 0%nat)
      as (outcome & s' & Hreturned & Hcompleted & _ & Hqueued).
    + vm_compute. reflexivity.
    + vm_compute. reflexivity.
    + reflexivity.
    + reflexivity.
    + reflexivity.
    + vm_compute. apply list_elem_of_here.
    + apply (bool_decide_unpack _). vm_compute. exact I.
    + intros n c. do 3 eexists. reflexivity.
    + exists outcome, s'. auto.
  - edestruct (Hrejected (Fleet.rejecting Fleet.isStopRtpForwarding "connect ECONNREFUSED")
                 3000 "rec-q1" Requeue.queued 0%nat)
      as (s' & Hthrown & Hfailed & _ & Hqueued).
    + vm_compute. reflexivity.
    + vm_compute. reflexivity.
    + reflexivity.
    + reflexivity.
    + reflexivity.
    + vm_compute. apply list_elem_of_here.
    + vm_compute. reflexivity.
    + intros n. reflexivity.
    + exists s'. auto.
  - edestruct (Hdrain Fleet.okAll Requeue.recorderAdded [Requeue.rn] 0%nat) as (rest & Hlog).
    + vm_compute. reflexivity.
    + vm_compute. reflexivity.
    + reflexivity.
    + vm_compute. reflexivity.
    + exists rest. exact Hlog.
Defined.

(** ** Failover of a recorder *)

(** C1, on the code.  The job [rec-1] of room server [rs1] (region
    [us-east-1], peer [Alice]) records on [rn1] when [rn1] misses its
    heartbeats.  The failover hands the placement the display name of the
    peer as the region: no recorder is in a region of that name, so the
    region preference is void and the recorder of the other region, which
    scores higher, takes the job.  With the region of the room server as
    the requirement the placement returns the recorder of that region. *)
Theorem C1_failover_places_by_display_name :
  RoomServerNode.region <$> mget "rs1" (roomServers Failover.before) = Some "us-east-1"
  /\ displayName <$> (Job.peerInfo <$> jobs Failover.before !! 0%nat) = Some "Alice"
  /\ rr_region <$> (failoverRequirement <$> jobs Failover.before !! 0%nat) = Some "Alice"
  /\ Job.ffmpegNodeId <$> jobs Failover.before !! 0%nat = Some Fleet.rn1
  /\ statusOf 0 Failover.before = Some recording
  /\ FFmpegNode.isHealthy <$> mget Fleet.rn1 (ffmpegNodes Failover.after) = Some false
  /\ statusOf 0 Failover.after = Some recording
  /\ Job.ffmpegNodeId <$> jobs Failover.after !! 0%nat = Some Failover.rnE
  /\ FFmpegNode.id <$> selectOptimalFFmpegNode Failover.remaining (Failover.requirement "Alice")
     = Some Failover.rnE
  /\ FFmpegNode.id <$> selectOptimalFFmpegNode Failover.remaining
                         (Failover.requirement "us-east-1")
     = Some Failover.rnU.
Proof. repeat split; vm_compute; reflexivity. Qed.

(** C3, as stated, fails, in both of its parts.  The failover of a recorder
    resets the job from recording to pending, which is not an edge of the
    graph, before it assigns the job again.  A stop writes [completed] over
    whatever status the job has: over [pending] for a job that waits in the
    queue, over [failed] for a job whose assign failed; and when the
    database update is rejected it writes [failed] over [completed].  The
    queue drain writes [initializing] over the [completed] of a job that
    was stopped while it waited, and leaves that job recording with its
    [endTime] set.  A job that an assign has failed is terminal and has no
    [endTime]. *)
Lemma C3_status_writes_off_the_graph :
  (isValidStatusTransition recording pending = false
   /\ exists rest,
        drop (length (log Failover.before)) (log Failover.after)
        = StatusSet 0 recording pending :: StatusSet 0 pending initializing :: rest)
  /\ (isValidStatusTransition pending completed = false
      /\ drop (length (log Requeue.queued)) (log Requeue.stopped)
         = [ Called (StopRtpForwarding "http://rs1.example:3000" "rec-q1");
             StatusSet 0 pending completed;
             Called (DbUpdateRecordingJob "rec-q1") ])
  /\ (isValidStatusTransition failed completed = false
      /\ drop (length (log Fleet.oneFailed))
           (log (finalState (stopDistributedRecording Fleet.okAll 5000 "rec-2"
                               Fleet.oneFailed)))
         = [ Called (StopRecording "http://10.0.0.1:4000" "rec-2");
             Called (StopRtpForwarding "http://rs1.example:3000" "rec-2");
             StatusSet 1 failed completed;
             Called (DbUpdateRecordingJob "rec-2") ])
  /\ (isValidStatusTransition completed failed = false
      /\ drop (length (log Fleet.recordingOne))
           (log (finalState
                   (stopDistributedRecording
                      (Fleet.rejecting Fleet.isDbUpdateRecordingJob "database is locked")
                      5000 "rec-1" Fleet.recordingOne)))
         = [ Called (StopRecording "http://10.0.0.1:4000" "rec-1");
             Called (StopRtpForwarding "http://rs1.example:3000" "rec-1");
             StatusSet 0 recording completed;
             Called (DbUpdateRecordingJob "rec-1");
             StatusSet 0 completed failed ])
  /\ (isValidStatusTransition completed initializing = false
      /\ (exists rest,
            drop (length (log Requeue.recorderAdded)) (log Requeue.drained)
            = StatusSet 0 completed initializing :: rest)
      /\ statusOf 0 Requeue.drained = Some recording
      /\ Job.endTime <$> jobs Requeue.drained !! 0%nat = Some (Some 3000))
  /\ (statusOf 1 Fleet.oneFailed = Some failed
      /\ Job.endTime <$> jobs Fleet.oneFailed !! 1%nat = Some None).
Proof.
  repeat apply conj; try reflexivity;
    try (eexists; vm_compute; reflexivity); vm_compute; reflexivity.
Qed.


(** ** Loops *)


(** A loop whose body never throws under [Pre] establishes [G] for every
    element, when no iteration undoes what another one established. *)
Lemma forEach_all {A : Type} (Pre G : A -> State -> Prop) (body : A -> M unit) (l : list A) :
  (forall x s, Pre x s -> exists s', body x s = Returned tt s' /\ G x s') ->
  (forall x y, keeps (Pre x) (body y)) ->
  (forall x y, keeps (G x) (body y)) ->
  forall s, (forall x, x ∈ l -> Pre x s) ->
            forall x, x ∈ l -> G x (finalState (forEach l body s)).
Proof.
  intros Hbody Hpre Hkeep. induction l as [|a l IH]; intros s Hs x Hx.
  - now apply elem_of_nil in Hx.
  - destruct (Hbody a s) as (s' & Hrun & Ha); [apply Hs, list_elem_of_here|].
    assert (Hs' : forall y, y ∈ l -> Pre y s').
    { intros y Hy. pose proof (Hpre y a s (Hs y (list_elem_of_further _ _ _ Hy))) as H.
      now rewrite Hrun in H. }
    simpl. unfold bind. rewrite Hrun.
    apply elem_of_cons in Hx as [->|Hx].
    + apply keeps_forEach; auto.
    + now apply IH.
Qed.

(** A loop over distinct elements, each ready when its turn comes. *)
Lemma forEach_distinct {A : Type} (Inv : State -> Prop) (Pre : A -> State -> Prop)
    (body : A -> M unit) (l : list A) :
  NoDup l ->
  (forall x s, Inv s -> Pre x s -> Inv (finalState (body x s))) ->
  (forall x y s, x <> y -> Pre x s -> Pre y s -> Pre y (finalState (body x s))) ->
  forall s, Inv s -> (forall x, x ∈ l -> Pre x s) -> Inv (finalState (forEach l body s)).
Proof.
  intros Hnodup Hinv Hpre. induction Hnodup as [|a l Hnotin Hnodup IH]; intros s Hs Hall.
  - exact Hs.
  - simpl. unfold bind.
    pose proof (Hinv a s Hs (Hall a (list_elem_of_here _ _))) as Ha.
    assert (Hrest : forall y, y ∈ l -> Pre y (finalState (body a s))).
    { intros y Hy. apply Hpre;
        [|apply Hall, list_elem_of_here|apply Hall; now apply list_elem_of_further].
      intros ->. contradiction. }
    destruct (body a s) as [[] s'|message s']; simpl in *; auto.
Qed.

(** ** The jobs of an unhealthy room server *)

Section RoomServerFailure.
Variable orc : Oracle.
Variable now : Z.

Lemma failAffectedJob_result r s job :
  jobs s !! r = Some job ->
  exists s',
    failAffectedJob orc now r s = Returned tt s'
    /\ jobs s'
       = alter (Job.with_endTime (Some now)) r
           (alter (Job.with_errorMessage (Some "Room server became unhealthy")) r
              (alter (Job.with_status failed) r (jobs s)))
    /\ roomServers s' = roomServers s
    /\ activeJobs s' = activeJobs s
    /\ match mget (Job.ffmpegNodeId job) (ffmpegNodes s) with
       | None =>
           log s' = log s ++ [StatusSet r (Job.status job) failed]
           /\ ffmpegNodes s' = ffmpegNodes s
       | Some node =>
           log s' = log s ++ [StatusSet r (Job.status job) failed;
                              Called (StopRecording (FFmpegNode.url node) (Job.jobId job))]
           /\ (ffmpegNodes s' = ffmpegNodes s
               \/ ffmpegNodes s'
                  = malter (released (Job.jobId job)) (FFmpegNode.id node) (ffmpegNodes s))
       end.
Proof.
  intros Hjob. unfold failAffectedJob.
  cbv [bind setStatus withJob modify updateJob get]. simpl. rewrite Hjob. simpl.
  rewrite !list_lookup_alter_eq, Hjob. simpl.
  destruct (mget (Job.ffmpegNodeId job) (ffmpegNodes s)) as [node|].
  - cbv [tryCatch stopRecordingOnNode fetch call bind ret throw modify]. simpl.
    destruct (orc _ _) as [message|ok statusText ports]; simpl.
    + eexists. split; [reflexivity|]. simpl. rewrite <- app_assoc. auto 10.
    + destruct ok; simpl.
      * eexists. split; [reflexivity|]. simpl. rewrite <- app_assoc, malter_malter.
        repeat split; auto.
      * eexists. split; [reflexivity|]. simpl. rewrite <- app_assoc. auto 10.
  - eexists. split; [reflexivity|]. simpl. auto.
Qed.

Lemma alter_dangling {A : Type} (f : A -> A) (r : nat) (l : list A) :
  l !! r = None -> alter f r l = l.
Proof.
  intros H. apply list_eq. intros i. rewrite list_lookup_alter.
  destruct (decide (r = i)) as [->|]; [now rewrite H | reflexivity].
Qed.

Lemma alter_three {A : Type} (f g h : A -> A) (r : nat) (l : list A) :
  alter h r (alter g r (alter f r l)) = alter (fun x => h (g (f x))) r l.
Proof.
  rewrite !list_alter_alter_eq. reflexivity.
Qed.

(** What the body of the loop does to the state, whatever the state. *)
Lemma failAffectedJob_effect r s :
  exists s',
    failAffectedJob orc now r s = Returned tt s'
    /\ jobs s' = alter (failForRoomServer now) r (jobs s)
    /\ roomServers s' = roomServers s
    /\ activeJobs s' = activeJobs s
    /\ (exists events, log s' = log s ++ events)
    /\ (ffmpegNodes s' = ffmpegNodes s
        \/ exists jobId k, ffmpegNodes s' = malter (released jobId) k (ffmpegNodes s)).
Proof.
  destruct (jobs s !! r) as [job|] eqn:Hjob.
  - destruct (failAffectedJob_result r s job Hjob)
      as (s' & Hrun & Hjobs & Hservers & Hactive & Hrest).
    exists s'. split; [exact Hrun|]. split.
    { rewrite Hjobs. apply alter_three. }
    split; [exact Hservers|]. split; [exact Hactive|].
    destruct (mget (Job.ffmpegNodeId job) (ffmpegNodes s)) as [node|].
    + destruct Hrest as [Hlog [Hnodes|Hnodes]]; split; eauto.
    + destruct Hrest as [Hlog Hnodes]; split; eauto.
  - unfold failAffectedJob. cbv [bind setStatus withJob modify updateJob get]. simpl.
    rewrite Hjob. simpl. rewrite !list_lookup_alter_eq, Hjob. simpl.
    eexists. split; [reflexivity|]. simpl.
    rewrite !alter_dangling by (rewrite ?alter_dangling; assumption).
    repeat split; auto. exists []. now rewrite app_nil_r.
Qed.

(** Consequences for the other jobs and for the recorders. *)
Lemma failAffectedJob_other_job r x (v : option Job.t) :
  r <> x -> keeps (fun s => jobs s !! x = v) (failAffectedJob orc now r).
Proof.
  intros Hne s Hs. destruct (failAffectedJob_effect r s) as (s' & -> & Hjobs & _).
  simpl. rewrite Hjobs. now rewrite list_lookup_alter_ne.
Qed.

Lemma failAffectedJob_keeps_failed r x :
  keeps (fun s => exists job, jobs s !! x = Some job /\ failedByRoomServer now job)
        (failAffectedJob orc now r).
Proof.
  intros s (job & Hjob & Hfailed).
  destruct (failAffectedJob_effect r s) as (s' & -> & Hjobs & _).
  simpl. rewrite Hjobs.
  destruct (decide (r = x)) as [->|Hne].
  - rewrite list_lookup_alter_eq, Hjob. eexists. split; [reflexivity|]. repeat split.
  - rewrite list_lookup_alter_ne by exact Hne. eauto.
Qed.

Lemma failAffectedJob_keeps_heap_size r n :
  keeps (fun s => length (jobs s) = n) (failAffectedJob orc now r).
Proof.
  intros s Hs. destruct (failAffectedJob_effect r s) as (s' & -> & Hjobs & _).
  simpl. now rewrite Hjobs, length_alter.
Qed.





End RoomServerFailure.

Lemma activeJobsWhere_elem (p : Job.t -> bool) (s : State) (r : nat) :
  r ∈ activeJobsWhere p s -> exists job, jobs s !! r = Some job /\ p job = true.
Proof.
  unfold activeJobsWhere. rewrite list_elem_of_In, List.filter_In.
  intros [_ H]. destruct (jobs s !! r) as [job|]; [eauto | discriminate].
Qed.

Lemma JobStatus_eqb_eq (a b : JobStatus) : JobStatus_eqb a b = true -> a = b.
Proof. destruct a, b; simpl; congruence. Qed.


Lemma affectedByRoomServer_failed orc now id s r :
  r ∈ affectedByRoomServer id s ->
  exists job',
    jobs (finalState (forEach (affectedByRoomServer id s) (failAffectedJob orc now)
                        (with_roomServers
                           (malter (RoomServerNode.with_isHealthy false) id) s))) !! r
    = Some job'
    /\ failedByRoomServer now job'.
Proof.
  intros Hr.
  apply (forEach_all (fun x s1 => (x < length (jobs s1))%nat)
           (fun x s1 => exists job', jobs s1 !! x = Some job'
                                     /\ failedByRoomServer now job')
           (failAffectedJob orc now) (affectedByRoomServer id s)); auto.
  - intros x s1 Hx. apply lookup_lt_is_Some in Hx as [job1 Hjob1].
    destruct (failAffectedJob_result orc now x s1 job1 Hjob1)
      as (s2 & Hrun & Hjobs & _).
    exists s2. split; [exact Hrun|]. rewrite Hjobs, !list_lookup_alter_eq, Hjob1.
    eexists. split; [reflexivity|]. repeat split.
  - intros x y s1 Hx.
    pose proof (failAffectedJob_keeps_heap_size orc now y _ s1 eq_refl) as Hlen.
    simpl in Hlen. now rewrite Hlen.
  - intros x y. apply failAffectedJob_keeps_failed.
  - intros x Hx. apply activeJobsWhere_elem in Hx as (job1 & Hjob1 & _).
    apply lookup_lt_is_Some. eauto.
Qed.



(** ** Status writes *)

Lemma setStatus_at r v s job :
  jobs s !! r = Some job ->
  setStatus r v s
  = Returned tt (with_jobs (alter (Job.with_status v) r)
                   (with_log (fun l => l ++ [StatusSet r (Job.status job) v]) s)).
Proof. intros H. unfold setStatus, withJob. now rewrite H. Qed.

Lemma statusOf_alter r r' (f : Job.t -> Job.t) s :
  (forall job, Job.status (f job) = Job.status job) ->
  statusOf r (with_jobs (alter f r') s) = statusOf r s.
Proof.
  intros Hf. unfold statusOf. simpl. destruct (decide (r' = r)) as [->|Hne].
  - rewrite list_lookup_alter_eq. destruct (jobs s !! r); simpl; [now rewrite Hf | reflexivity].
  - now rewrite list_lookup_alter_ne.
Qed.

Lemma statusOf_set r v s :
  is_Some (jobs s !! r) -> statusOf r (with_jobs (alter (Job.with_status v) r) s) = Some v.
Proof.
  intros [job Hjob]. unfold statusOf. simpl. now rewrite list_lookup_alter_eq, Hjob.
Qed.

Lemma statusOf_Some r s v :
  statusOf r s = Some v -> exists job, jobs s !! r = Some job /\ Job.status job = v.
Proof.
  unfold statusOf. destruct (jobs s !! r) as [job|]; simpl; [|discriminate].
  intros [= <-]. eauto.
Qed.

(** A status write along [E] moves the tracked status. *)
Lemma tracks_setStatus r old new (E : Event -> Prop) s0 s :
  tracks r old E s0 s -> E (StatusSet r old new) ->
  exists s', setStatus r new s = Returned tt s' /\ tracks r new E s0 s'.
Proof.
  intros [Hlog Hstatus] HE. apply statusOf_Some in Hstatus as (job & Hjob & <-).
  rewrite (setStatus_at r new s job Hjob). eexists. split; [reflexivity|]. split.
  - apply (extends_snoc E s0 s). exact Hlog. exact HE.
  - apply statusOf_set. simpl. eauto.
Qed.

(** Steps that write no status and make calls only. *)
Ltac tracks_auto :=
  repeat first
    [ keeps_step
    | apply keeps_modify; intros ? [? ?]; split;
        [ first [ assumption | apply extends_snoc; [assumption | exact I] ]
        | first [ assumption | rewrite statusOf_alter by reflexivity; assumption ] ]
    | intros ? [? ?]; split; [apply extends_snoc; [assumption | exact I] | assumption] ].

Ltac touches_auto :=
  repeat first
    [ keeps_step
    | apply keeps_modify; intros ? [Hother Hend]; first
        [ split; assumption
        | split; simpl;
            [ intros y Hy; rewrite list_lookup_alter_ne by congruence; now apply Hother
            | rewrite list_lookup_alter_eq, <- Hend;
              match goal with |- context [jobs ?s !! ?r] => destruct (jobs s !! r) end;
              reflexivity ] ]
    | intros ? [? ?]; split; assumption ].

Section AssignStatus.
Variable orc : Oracle.

Lemma assign_touchesOnly r ffmpegNode roomServer s0 :
  keeps (touchesOnly r s0) (assignJobToNode orc r ffmpegNode roomServer).
Proof.
  unfold assignJobToNode, assignSteps, assignFailed, setupRTPForwarding,
    allocateRTPPorts, startRecordingOnNode, setStatus, updateJob.
  touches_auto.
Qed.

Lemma touchesOnly_refl r s : touchesOnly r s s.
Proof. split; auto. Qed.

Lemma assignSteps_tracks r job ffmpegNode roomServer s0 s :
  tracks r pending legalEvent s0 s ->
  post (assignSteps orc r job ffmpegNode roomServer) s
    (fun _ s' => tracks r recording legalEvent s0 s')
    (fun _ s' => tracks r initializing legalEvent s0 s'
                 \/ tracks r recording legalEvent s0 s').
Proof.
  intros Hs. unfold assignSteps. apply post_bind.
  destruct (tracks_setStatus r pending initializing legalEvent s0 s Hs eq_refl)
    as (s1 & Hrun & H1).
  unfold post at 1. rewrite Hrun. clear Hrun Hs.
  apply (post_bind_keeps (tracks r initializing legalEvent s0)); [|exact H1| |auto].
  { unfold updateJob. tracks_auto. }
  clear s1 H1. intros _ s1 H1.
  apply (post_bind_keeps (tracks r initializing legalEvent s0)); [|exact H1| |auto].
  { unfold setupRTPForwarding, allocateRTPPorts, updateJob. tracks_auto. }
  clear s1 H1. intros _ s1 H1.
  apply (post_bind_keeps (tracks r initializing legalEvent s0)); [|exact H1| |auto].
  { unfold startRecordingOnNode. tracks_auto. }
  clear s1 H1. intros _ s1 H1.
  apply (post_bind_keeps (tracks r initializing legalEvent s0)); [|exact H1| |auto].
  { tracks_auto. }
  clear s1 H1. intros _ s1 H1.
  apply (post_bind_keeps (tracks r initializing legalEvent s0)); [|exact H1| |auto].
  { tracks_auto. }
  clear s1 H1. intros _ s1 H1.
  apply (post_bind_keeps (tracks r initializing legalEvent s0)); [|exact H1| |auto].
  { tracks_auto. }
  clear s1 H1. intros _ s1 H1.
  apply post_bind.
  destruct (tracks_setStatus r initializing recording legalEvent s0 s1 H1 eq_refl)
    as (s2 & Hrun & H2).
  unfold post at 1. rewrite Hrun.
  eapply post_mono.
  - apply (keeps_post (tracks r recording legalEvent s0)); [|exact H2]. tracks_auto.
  - auto.
  - auto.
Qed.

(** Assign moves a pending job along edges of the graph. *)
Lemma assign_legal r ffmpegNode roomServer s job :
  jobs s !! r = Some job -> Job.status job = pending ->
  extends legalEvent s (finalState (assignJobToNode orc r ffmpegNode roomServer s)).
Proof.
  intros Hjob Hpending. unfold assignJobToNode, withJob. rewrite Hjob.
  assert (Hs : tracks r pending legalEvent s s).
  { split; [apply extends_refl|]. unfold statusOf. now rewrite Hjob, <- Hpending. }
  pose proof (assignSteps_tracks r job ffmpegNode roomServer s s Hs) as Hsteps.
  unfold post in Hsteps. unfold tryCatch.
  destruct (assignSteps orc r job ffmpegNode roomServer s) as [[] s1|message s1].
  - simpl. apply Hsteps.
  - assert (Hfailed : forall status,
               tracks r status legalEvent s s1 ->
               legalEvent (StatusSet r status failed) ->
               extends legalEvent s (finalState (assignFailed r message s1))).
    { intros status Htracks Hlegal.
      destruct (tracks_setStatus r status failed legalEvent s s1 Htracks Hlegal)
        as (s2 & Hrun & [H2 _]).
      unfold assignFailed, bind. rewrite Hrun. exact H2. }
    destruct Hsteps as [H|H]; eapply Hfailed; eauto; reflexivity.
Qed.

End AssignStatus.

Lemma NoDup_List_filter {A : Type} (p : A -> bool) (l : list A) :
  NoDup l -> NoDup (List.filter p l).
Proof.
  induction 1 as [|x l Hnotin Hnodup IH]; simpl; [constructor|].
  destruct (p x); [|exact IH]. constructor; [|exact IH].
  rewrite list_elem_of_In, List.filter_In, <- list_elem_of_In. tauto.
Qed.

Lemma activeJobsWhere_NoDup p s :
  NoDup (mvalues (activeJobs s)) -> NoDup (activeJobsWhere p s).
Proof. apply NoDup_List_filter. Qed.

Lemma activeJobsWhere_recording (q : Job.t -> bool) s r :
  r ∈ activeJobsWhere (fun job => q job && JobStatus_eqb (Job.status job) recording) s ->
  statusOf r s = Some recording.
Proof.
  intros Hr. apply activeJobsWhere_elem in Hr as (job & Hjob & Hp).
  apply andb_true_iff in Hp as [_ Hstatus]. apply JobStatus_eqb_eq in Hstatus.
  unfold statusOf. rewrite Hjob. simpl. now rewrite Hstatus.
Qed.

Lemma legal_is_failover (e : Event) : legalEvent e -> failoverEvent e.
Proof. destruct e; simpl; auto. Qed.

(** A job that is recording has no [endTime] where [endTime] is set on
    terminal jobs only. *)
Lemma recording_no_endTime r s :
  endTimeOnlyIfTerminal s -> statusOf r s = Some recording ->
  Job.endTime <$> jobs s !! r = Some None.
Proof.
  intros Honly Hstatus. apply statusOf_Some in Hstatus as (job & Hjob & Hrec).
  rewrite Hjob. simpl. destruct (Job.endTime job) as [t|] eqn:Hend; [|reflexivity].
  assert (Hterminal : isTerminal job = true) by (apply (Honly r); eauto; rewrite Hend; eauto).
  unfold isTerminal in Hterminal. rewrite Hrec in Hterminal. discriminate.
Qed.

Lemma endTimeOnlyIfTerminal_touched r s0 s :
  endTimeOnlyIfTerminal s0 -> touchesOnly r s0 s ->
  Job.endTime <$> jobs s0 !! r = Some None ->
  endTimeOnlyIfTerminal s.
Proof.
  intros Honly [Hother Hend] Hnone y job Hjob Hset.
  destruct (decide (y = r)) as [->|Hne].
  - rewrite Hnone, Hjob in Hend. simpl in Hend. injection Hend as Hend.
    rewrite Hend in Hset. now destruct Hset.
  - apply (Honly y); [|exact Hset]. now rewrite <- Hother.
Qed.

Section HealthLoopStatus.
Variable orc : Oracle.
Variable now : Z.

(** *** The jobs of an unhealthy room server *)

Lemma failAffectedJob_legal r s0 s :
  extends legalEvent s0 s -> statusOf r s = Some recording ->
  extends legalEvent s0 (finalState (failAffectedJob orc now r s)).
Proof.
  intros Hlog Hstatus. apply statusOf_Some in Hstatus as (job & Hjob & Hrec).
  destruct (failAffectedJob_result orc now r s job Hjob)
    as (s' & -> & _ & _ & _ & Hrest).
  simpl. apply (extends_trans legalEvent s0 s s'); [exact Hlog|].
  rewrite Hrec in Hrest.
  destruct (mget (Job.ffmpegNodeId job) (ffmpegNodes s)) as [node|];
    destruct Hrest as [Hlog' _]; eexists; (split; [exact Hlog'|]);
    repeat constructor.
Qed.

Lemma failAffectedJob_endTime r s :
  endTimeOnlyIfTerminal s -> endTimeOnlyIfTerminal (finalState (failAffectedJob orc now r s)).
Proof.
  intros Honly. destruct (failAffectedJob_effect orc now r s) as (s' & -> & Hjobs & _).
  simpl. intros y job Hjob Hset. rewrite Hjobs in Hjob.
  destruct (decide (r = y)) as [->|Hne].
  - rewrite list_lookup_alter_eq in Hjob.
    destruct (jobs s !! y) as [job0|]; [|discriminate].
    injection Hjob as <-. reflexivity.
  - rewrite list_lookup_alter_ne in Hjob by exact Hne. eapply Honly; eauto.
Qed.

Lemma failAffectedJob_other_status r y s v :
  r <> y -> statusOf y s = v -> statusOf y (finalState (failAffectedJob orc now r s)) = v.
Proof.
  intros Hne Hs. unfold statusOf in *.
  now rewrite (failAffectedJob_other_job orc now r y (jobs s !! y) Hne s eq_refl).
Qed.

Lemma handleUnhealthyRoomServer_legal id s :
  NoDup (mvalues (activeJobs s)) ->
  extends legalEvent s (finalState (handleUnhealthyRoomServer orc now id s)).
Proof.
  intros Hnodup.
  set (s0 := with_roomServers (malter (RoomServerNode.with_isHealthy false) id) s).
  change (extends legalEvent s0
            (finalState (forEach (affectedByRoomServer id s) (failAffectedJob orc now) s0))).
  apply (forEach_distinct (extends legalEvent s0)
           (fun r s1 => statusOf r s1 = Some recording)).
  - now apply activeJobsWhere_NoDup.
  - intros r s1. apply failAffectedJob_legal.
  - intros x y s1 Hne _. now apply failAffectedJob_other_status.
  - apply extends_refl.
  - intros r Hr. now apply activeJobsWhere_recording in Hr.
Qed.

Lemma handleUnhealthyRoomServer_endTime id s :
  endTimeOnlyIfTerminal s ->
  endTimeOnlyIfTerminal (finalState (handleUnhealthyRoomServer orc now id s)).
Proof.
  intros Honly.
  set (s0 := with_roomServers (malter (RoomServerNode.with_isHealthy false) id) s).
  change (endTimeOnlyIfTerminal
            (finalState (forEach (affectedByRoomServer id s) (failAffectedJob orc now) s0))).
  apply (keeps_forEach endTimeOnlyIfTerminal); [|exact Honly].
  intros r s1. apply failAffectedJob_endTime.
Qed.

(** *** The jobs of an unhealthy recorder *)

Lemma reassignJob_unfold id r s job :
  jobs s !! r = Some job ->
  reassignJob orc now id r s
  = match selectOptimalFFmpegNode
            (List.filter (fun n => FFmpegNode.isHealthy n
                                   && negb (String.eqb (FFmpegNode.id n) id))
                         (mvalues (ffmpegNodes s)))
            (failoverRequirement job) with
    | Some newNode =>
        match mget (Job.roomServerId job) (roomServers s) with
        | Some roomServer =>
            assignJobToNode orc r newNode roomServer (resetForReassign r job s)
        | None => Returned tt s
        end
    | None => Returned tt (failedWithoutRecorder now r job s)
    end.
Proof.
  intros Hjob. unfold reassignJob, withJob. rewrite Hjob.
  change (bind get ?k s) with (k s s). cbv beta.
  destruct (selectOptimalFFmpegNode _ _) as [newNode|].
  - destruct (mget _ _) as [roomServer|]; [|reflexivity].
    unfold bind at 1. rewrite (setStatus_at r pending s job Hjob). reflexivity.
  - unfold bind at 1. rewrite (setStatus_at r failed s job Hjob). reflexivity.
Qed.

Lemma reassignJob_spec id r s0 s :
  statusOf r s = Some recording ->
  (extends failoverEvent s0 s ->
   extends failoverEvent s0 (finalState (reassignJob orc now id r s)))
  /\ (forall y, y <> r -> jobs (finalState (reassignJob orc now id r s)) !! y = jobs s !! y)
  /\ (endTimeOnlyIfTerminal s ->
      endTimeOnlyIfTerminal (finalState (reassignJob orc now id r s))).
Proof.
  intros Hstatus. pose proof Hstatus as Hrecording.
  apply statusOf_Some in Hstatus as (job & Hjob & Hrec).
  rewrite (reassignJob_unfold id r s job Hjob).
  destruct (selectOptimalFFmpegNode _ (failoverRequirement job)) as [newNode|].
  - destruct (mget (Job.roomServerId job) (roomServers s)) as [roomServer|];
      [|simpl; auto].
    set (s1 := resetForReassign r job s).
    assert (Hjob1 : jobs s1 !! r
                    = Some (Job.with_ffmpegNodeId "" (Job.with_status pending job))).
    { unfold s1, resetForReassign. simpl. now rewrite !list_lookup_alter_eq, Hjob. }
    assert (Hother1 : forall y, y <> r -> jobs s1 !! y = jobs s !! y).
    { intros y Hy. unfold s1, resetForReassign. simpl.
      now rewrite !list_lookup_alter_ne by congruence. }
    pose proof (assign_legal orc r newNode roomServer s1 _ Hjob1 eq_refl) as Hlegal.
    pose proof (assign_touchesOnly orc r newNode roomServer s1 s1 (touchesOnly_refl r s1))
      as [Hother Hend].
    rewrite Hjob1 in Hend. simpl in Hend.
    split; [|split].
    + intros Hlog. apply (extends_trans failoverEvent s0 s1).
      * unfold s1, resetForReassign. rewrite Hrec.
        apply (extends_snoc failoverEvent s0 s); [exact Hlog|]. simpl. auto.
      * eapply extends_weaken; [apply legal_is_failover | exact Hlegal].
    + intros y Hy. rewrite Hother by exact Hy. now apply Hother1.
    + intros Honly. apply (endTimeOnlyIfTerminal_touched r s); [exact Honly| |].
      * split; [intros y Hy; rewrite Hother by exact Hy; now apply Hother1|].
        rewrite Hend, Hjob. reflexivity.
      * now apply recording_no_endTime.
  - unfold failedWithoutRecorder. simpl.
    split; [|split].
    + intros Hlog. rewrite Hrec.
      apply (extends_snoc failoverEvent s0 s); [exact Hlog|]. simpl. auto.
    + intros y Hy. now rewrite !list_lookup_alter_ne by congruence.
    + intros Honly y job' Hjob' Hset. simpl in Hjob'.
      destruct (decide (r = y)) as [->|Hne].
      * rewrite !list_lookup_alter_eq, Hjob in Hjob'. injection Hjob' as <-. reflexivity.
      * rewrite !list_lookup_alter_ne in Hjob' by exact Hne. eapply Honly; eauto.
Qed.

Lemma reassignJob_other_status id x y s :
  x <> y -> statusOf x s = Some recording -> statusOf y s = Some recording ->
  statusOf y (finalState (reassignJob orc now id x s)) = Some recording.
Proof.
  intros Hne Hx Hy. destruct (reassignJob_spec id x s s Hx) as (_ & Hother & _).
  unfold statusOf. rewrite Hother by congruence. exact Hy.
Qed.

Lemma handleUnhealthyFFmpegNode_events id s :
  NoDup (mvalues (activeJobs s)) ->
  extends failoverEvent s (finalState (handleUnhealthyFFmpegNode orc now id s)).
Proof.
  intros Hnodup.
  set (s0 := with_ffmpegNodes (malter (FFmpegNode.with_isHealthy false) id) s).
  change (extends failoverEvent s0
            (finalState (forEach (affectedByRecorder id s) (reassignJob orc now id) s0))).
  apply (forEach_distinct (extends failoverEvent s0)
           (fun r s1 => statusOf r s1 = Some recording)).
  - now apply activeJobsWhere_NoDup.
  - intros r s1 Hlog Hstatus. now apply (reassignJob_spec id r s0 s1).
  - intros x y s1. apply reassignJob_other_status.
  - apply extends_refl.
  - intros r Hr. now apply activeJobsWhere_recording in Hr.
Qed.

Lemma handleUnhealthyFFmpegNode_endTime id s :
  NoDup (mvalues (activeJobs s)) ->
  endTimeOnlyIfTerminal s ->
  endTimeOnlyIfTerminal (finalState (handleUnhealthyFFmpegNode orc now id s)).
Proof.
  intros Hnodup Honly.
  set (s0 := with_ffmpegNodes (malter (FFmpegNode.with_isHealthy false) id) s).
  change (endTimeOnlyIfTerminal
            (finalState (forEach (affectedByRecorder id s) (reassignJob orc now id) s0))).
  apply (forEach_distinct endTimeOnlyIfTerminal
           (fun r s1 => statusOf r s1 = Some recording)).
  - now apply activeJobsWhere_NoDup.
  - intros r s1 Hs1 Hstatus. now apply (reassignJob_spec id r s0 s1).
  - intros x y s1. apply reassignJob_other_status.
  - exact Honly.
  - intros r Hr. now apply activeJobsWhere_recording in Hr.
Qed.

End HealthLoopStatus.

(** ** Load accounting of the health loop *)

Lemma occurrences_without (x y : string) (l : list string) :
  x <> y ->
  occurrences x (List.filter (fun id => negb (String.eqb id y)) l) = occurrences x l.
Proof.
  intros Hne. unfold occurrences. induction l as [|z l IH]; simpl; [reflexivity|].
  destruct (String.eqb_spec z y) as [->|Hzy]; simpl.
  - destruct (String.eqb_spec y x) as [->|_]; [contradiction | exact IH].
  - destruct (String.eqb z x); simpl; now rewrite IH.
Qed.

Lemma mget_mvalues {V : Type} k (m : JsMap V) v : mget k m = Some v -> v ∈ mvalues m.
Proof.
  unfold mvalues. induction m as [|[k0 v0] m IH]; simpl; [discriminate|].
  destruct (String.eqb k k0).
  - intros [= ->]. apply list_elem_of_here.
  - intros H. apply list_elem_of_further. auto.
Qed.

Lemma mvalues_mdelete {V : Type} k (m : JsMap V) :
  sublist (mvalues (mdelete k m)) (mvalues m).
Proof.
  unfold mvalues. induction m as [|[k0 v0] m IH]; simpl; [constructor|].
  destruct (String.eqb k k0); simpl.
  - now apply sublist_cons.
  - now apply sublist_skip.
Qed.

Lemma lookup_alter_of (f : Job.t -> Job.t) r x (h : list Job.t) job' :
  alter f r h !! x = Some job' ->
  exists job, h !! x = Some job /\ ((x <> r /\ job' = job) \/ (x = r /\ job' = f job)).
Proof.
  intros H. destruct (decide (r = x)) as [->|Hne].
  - rewrite list_lookup_alter_eq in H. destruct (h !! x) as [job|]; [|discriminate].
    injection H as <-. eauto.
  - rewrite list_lookup_alter_ne in H by exact Hne. exists job'.
    split; [exact H|]. left. split; [congruence | reflexivity].
Qed.

(** The job behind [r], recording and listed once, leaves the accounting:
    its status is written, its recorder releases it or is left as it is,
    and the active map loses entries at most. *)
Lemma reconciled_release (f : Job.t -> Job.t) r job s s' :
  reconciled s ->
  r ∈ mvalues (activeJobs s) ->
  jobs s !! r = Some job ->
  Job.status job = recording ->
  jobs s' = alter f r (jobs s) ->
  (forall j, Job.jobId (f j) = Job.jobId j
             /\ Job.ffmpegNodeId (f j) = Job.ffmpegNodeId j
             /\ Job.status (f j) <> recording) ->
  sublist (mvalues (activeJobs s')) (mvalues (activeJobs s)) ->
  (ffmpegNodes s' = ffmpegNodes s
   \/ exists node,
        mget (Job.ffmpegNodeId job) (ffmpegNodes s) = Some node
        /\ ffmpegNodes s'
           = malter (released (Job.jobId job)) (FFmpegNode.id node) (ffmpegNodes s)) ->
  reconciled s'.
Proof.
  intros (Hacc & Hlisted & Hnodup & Hids) Hr Hjob Hrec Hjobs Hf Hactive Hnodes.
  assert (Hin : forall x, x ∈ mvalues (activeJobs s') -> x ∈ mvalues (activeJobs s)).
  { intros x Hx. eapply elem_of_sublist; eauto. }
  assert (Hdistinct : distinctJobs s').
  { split; [eapply sublist_NoDup; eauto|]. rewrite Hjobs.
    intros x y jx jy Hx Hy Hjx Hjy Hid.
    apply lookup_alter_of in Hjx as (jx0 & Hjx0 & Hcx).
    apply lookup_alter_of in Hjy as (jy0 & Hjy0 & Hcy).
    apply (Hids x y jx0 jy0); auto.
    destruct Hcx as [[_ ->]|[_ ->]], Hcy as [[_ ->]|[_ ->]];
      rewrite ?(proj1 (Hf _)) in Hid; exact Hid. }
  assert (Hstill : forall x jx, x ∈ mvalues (activeJobs s') -> jobs s' !! x = Some jx ->
                                Job.status jx = recording ->
                                x <> r /\ x ∈ mvalues (activeJobs s) /\ jobs s !! x = Some jx).
  { intros x jx Hx Hjx Hrx. rewrite Hjobs in Hjx.
    apply lookup_alter_of in Hjx as (jx0 & Hjx0 & [[Hne ->]|[-> ->]]).
    - auto.
    - now destruct (proj2 (proj2 (Hf jx0))). }
  destruct Hnodes as [Heq|(node & Hnode & Heq)].
  - split; [|split; [|exact Hdistinct]].
    + unfold accounted. now rewrite Heq.
    + intros x jx nodex n Hx Hjx Hrx Hnodex Hn. rewrite Heq in Hnodex, Hn.
      destruct (Hstill x jx Hx Hjx Hrx) as (_ & Hx0 & Hjx0).
      eapply Hlisted; eauto.
  - split; [|split; [|exact Hdistinct]].
    + unfold accounted in *. rewrite Heq.
      apply Forall_malter_at; [|exact Hacc]. intros n Hn Hmatch. simpl in *.
      apply loadMatchesJobs_stop; [exact Hmatch|].
      now apply (Hlisted r job node n).
    + intros x jx nodex n Hx Hjx Hrx Hnodex Hn. rewrite Heq in Hnodex, Hn.
      destruct (Hstill x jx Hx Hjx Hrx) as (Hne & Hx0 & Hjx0).
      assert (Hid : Job.jobId jx <> Job.jobId job).
      { intros Hid. apply Hne. now apply (Hids x r jx job). }
      rewrite mget_malter in Hnodex.
      assert (exists nodex0, mget (Job.ffmpegNodeId jx) (ffmpegNodes s) = Some nodex0
                             /\ FFmpegNode.id nodex = FFmpegNode.id nodex0)
        as (nodex0 & Hnodex0 & Hidnode).
      { destruct (String.eqb (Job.ffmpegNodeId jx) (FFmpegNode.id node)).
        - destruct (mget (Job.ffmpegNodeId jx) (ffmpegNodes s)) as [nodex0|];
            simpl in Hnodex; [|discriminate Hnodex].
          injection Hnodex as <-. eauto.
        - eauto. }
      rewrite Hidnode, mget_malter in Hn.
      destruct (String.eqb (FFmpegNode.id nodex0) (FFmpegNode.id node)).
      * destruct (mget (FFmpegNode.id nodex0) (ffmpegNodes s)) as [n0|] eqn:Hn0;
          simpl in Hn; [|discriminate Hn].
        injection Hn as <-. simpl. rewrite occurrences_without by exact Hid.
        now apply (Hlisted x jx nodex0 n0).
      * now apply (Hlisted x jx nodex0 n).
Qed.

Lemma activeJobsWhere_active (p : Job.t -> bool) (s : State) (r : nat) :
  r ∈ activeJobsWhere p s -> r ∈ mvalues (activeJobs s).
Proof.
  unfold activeJobsWhere. rewrite !list_elem_of_In, List.filter_In. tauto.
Qed.

Section RoomServerAccounting.
Variable orc : Oracle.
Variable now : Z.

(** The body of the loop: the job it fails was recording and listed once. *)
Lemma failAffectedJob_reconciled r s :
  reconciled s -> r ∈ mvalues (activeJobs s) -> statusOf r s = Some recording ->
  reconciled (finalState (failAffectedJob orc now r s)).
Proof.
  intros Hs Hr Hstatus.
  apply statusOf_Some in Hstatus as (job & Hjob & Hrec).
  destruct (failAffectedJob_result orc now r s job Hjob)
    as (s' & -> & Hjobs & _ & Hactive & Hnodes).
  simpl. rewrite alter_three in Hjobs.
  apply (reconciled_release (failForRoomServer now) r job s s' Hs Hr Hjob Hrec Hjobs).
  - intros j. repeat split; discriminate.
  - now rewrite Hactive.
  - destruct (mget (Job.ffmpegNodeId job) (ffmpegNodes s)) as [node|].
    + destruct Hnodes as [_ [Heq|Heq]]; eauto.
    + left. apply Hnodes.
Qed.

Lemma stop_shape jobId s r job :
  mget jobId (activeJobs s) = Some r ->
  jobs s !! r = Some job ->
  let s' := finalState (stopDistributedRecording orc now jobId s) in
  (exists f,
      jobs s' = alter f r (jobs s)
      /\ forall j, Job.jobId (f j) = Job.jobId j
                   /\ Job.ffmpegNodeId (f j) = Job.ffmpegNodeId j
                   /\ Job.status (f j) <> recording)
  /\ (activeJobs s' = activeJobs s \/ activeJobs s' = mdelete jobId (activeJobs s))
  /\ (ffmpegNodes s' = ffmpegNodes s
      \/ exists node,
           mget (Job.ffmpegNodeId job) (ffmpegNodes s) = Some node
           /\ ffmpegNodes s'
              = malter (released (Job.jobId job)) (FFmpegNode.id node) (ffmpegNodes s)).
Proof.
  intros Hactive Hjob. unfold stopDistributedRecording.
  change (bind get ?k s) with (k s s). cbv beta zeta.
  rewrite Hactive, Hjob.
  destruct (mget (Job.ffmpegNodeId job) (ffmpegNodes s)) as [ffmpegNode|] eqn:Hnode;
    destruct (mget (Job.roomServerId job) (roomServers s)) as [roomServer|];
    cbv [tryCatch bind stopRecordingOnNode stopRTPForwarding fetch call ret throw modify
         database setStatus withJob updateJob];
    repeat first
      [ rewrite Hjob
      | rewrite list_lookup_alter_eq
      | progress simpl
      | match goal with
        | |- context [orc ?n ?c] => destruct (orc n c) as [?|[] ? ?]
        end ].
  all: rewrite ?list_alter_alter_eq, ?malter_malter.
  all: (split; [eexists; split; [reflexivity | intros j; repeat split; discriminate]|]).
  all: (split; [first [left; reflexivity | right; reflexivity]|]).
  all: first [left; reflexivity | right; eexists; split; reflexivity].
Qed.

Lemma stop_reconciled jobId s r job :
  mget jobId (activeJobs s) = Some r ->
  jobs s !! r = Some job ->
  Job.status job = recording ->
  reconciled s ->
  reconciled (finalState (stopDistributedRecording orc now jobId s)).
Proof.
  intros Hactive Hjob Hrec Hs.
  destruct (stop_shape jobId s r job Hactive Hjob)
    as ((f & Hjobs & Hf) & Hmap & Hnodes).
  apply (reconciled_release f r job s _ Hs (mget_mvalues _ _ _ Hactive) Hjob Hrec Hjobs Hf).
  - destruct Hmap as [->| ->]; [reflexivity | apply mvalues_mdelete].
  - exact Hnodes.
Qed.

Lemma handleUnhealthyRoomServer_reconciled id :
  keeps reconciled (handleUnhealthyRoomServer orc now id).
Proof.
  intros s Hs.
  set (s0 := with_roomServers (malter (RoomServerNode.with_isHealthy false) id) s).
  change (reconciled
            (finalState (forEach (affectedByRoomServer id s) (failAffectedJob orc now) s0))).
  apply (forEach_distinct reconciled
           (fun r s1 => r ∈ mvalues (activeJobs s1) /\ statusOf r s1 = Some recording)).
  - apply activeJobsWhere_NoDup. apply Hs.
  - intros r s1 Hs1 [Hr Hstatus]. now apply failAffectedJob_reconciled.
  - intros x y s1 Hne _ [Hy Hstatus]. split.
    + destruct (failAffectedJob_effect orc now x s1) as (s' & -> & _ & _ & Hactive & _).
      simpl. now rewrite Hactive.
    + now apply failAffectedJob_other_status.
  - exact Hs.
  - intros r Hr. split.
    + now apply activeJobsWhere_active in Hr.
    + now apply activeJobsWhere_recording in Hr.
Qed.

Lemma performHealthChecks_accounted s :
  reconciled s -> accounted (finalState (performHealthChecks orc now s)).
Proof.
  intros Hs. unfold performHealthChecks.
  change (bind get ?k s) with (k s s). cbv beta.
  apply final_bind.
  - apply (keeps_forEach reconciled); [|exact Hs].
    intros id. apply keeps_bind; [apply keeps_get | intros s1].
    destruct (mget id (roomServers s1)) as [roomServer|]; [|apply keeps_ret].
    destruct (Z.ltb _ _); [|apply keeps_ret].
    apply handleUnhealthyRoomServer_reconciled.
  - intros _. apply keeps_bind.
    + apply keeps_forEach. intros id.
      apply keeps_bind; [apply keeps_get | intros s1].
      destruct (mget id (ffmpegNodes s1)) as [ffmpegNode|]; [|apply keeps_ret].
      destruct (Z.ltb _ _); [|apply keeps_ret].
      apply accounted_handleUnhealthyFFmpegNode.
    + intros _. apply accounted_processJobQueue.
Qed.

End RoomServerAccounting.

(** C2, as stated, fails, for three of the operations it names.  A
    heartbeat stores what the recorder reports: after a report of load 3
    with no active job, the list of the recorder is empty and its counter
    is 3; a reported load of 0 is ignored while the reported empty list is
    stored.  A stop decrements the counter of the recorder that the job
    names whether or not that recorder lists the job: the stop of the
    failed job [rec-2], which [rn1] never listed, leaves [rn1] with counter
    0 and the list [rec-1].  The handling of an unhealthy room server does
    the same: after a heartbeat that reports one job under another
    identifier (the equality holds), it leaves [rn1] with counter 0 and a
    list of one. *)
Lemma C2_load_and_list_are_updated_apart :
  (accounted Fleet.registered
   /\ exists n,
        mget Fleet.rn1
          (ffmpegNodes (finalState
             (updateFFmpegNodeHeartbeat 5000 Fleet.rn1
                {| fnh_currentLoad := Some 3%Q; fnh_activeJobs := Some [] |}
                Fleet.registered))) = Some n
        /\ FFmpegNode.activeJobs n = []
        /\ FFmpegNode.currentLoad n = 3%Q
        /\ ~ loadMatchesJobs n)
  /\ (accounted Fleet.recordingOne
      /\ exists n,
           mget Fleet.rn1
             (ffmpegNodes (finalState
                (updateFFmpegNodeHeartbeat 5000 Fleet.rn1
                   {| fnh_currentLoad := Some 0%Q; fnh_activeJobs := Some [] |}
                   Fleet.recordingOne))) = Some n
           /\ FFmpegNode.activeJobs n = []
           /\ FFmpegNode.currentLoad n = 1%Q
           /\ ~ loadMatchesJobs n)
  /\ (accounted Fleet.oneFailed
      /\ statusOf 1 Fleet.oneFailed = Some failed
      /\ mget "rec-2" (activeJobs Fleet.oneFailed) = Some 1%nat
      /\ exists outcome s' n,
           stopDistributedRecording Fleet.okAll 5000 "rec-2" Fleet.oneFailed
           = Returned outcome s'
           /\ mget Fleet.rn1 (ffmpegNodes s') = Some n
           /\ FFmpegNode.activeJobs n = ["rec-1"]
           /\ FFmpegNode.currentLoad n = 0%Q
           /\ ~ loadMatchesJobs n)
  /\ (accounted Fleet.misreported
      /\ exists n,
           mget Fleet.rn1
             (ffmpegNodes (finalState
                (handleUnhealthyRoomServer Fleet.okAll 70000 "rs1" Fleet.misreported)))
           = Some n
           /\ FFmpegNode.activeJobs n = ["rec-x"]
           /\ FFmpegNode.currentLoad n = 0%Q
           /\ ~ loadMatchesJobs n).
Proof.
  split; [|split; [|split]].
  - split; [vm_compute; repeat constructor|].
    eexists. split; [vm_compute; reflexivity|]. simpl.
    repeat split. intros H. vm_compute in H. discriminate H.
  - split; [vm_compute; repeat constructor|].
    eexists. split; [vm_compute; reflexivity|]. simpl.
    repeat split. intros H. vm_compute in H. discriminate H.
  - split; [vm_compute; repeat constructor|].
    split; [reflexivity|]. split; [reflexivity|].
    eexists. eexists. eexists. split; [vm_compute; reflexivity|].
    split; [vm_compute; reflexivity|]. simpl.
    repeat split. intros H. vm_compute in H. discriminate H.
  - split; [vm_compute; repeat constructor|].
    eexists. split; [vm_compute; reflexivity|]. simpl.
    repeat split. intros H. vm_compute in H. discriminate H.
Qed.

(** C2, amended.  On every recorder [|activeJobs| == currentLoad] is kept
    by the registration of a room server or of a recorder, by the start of
    a recording (assigned or queued), by the failover of a recorder and by
    the queue drain, whatever the outbound calls answer.  A stop keeps it
    when the recorder of the job lists the job exactly once.  The handling
    of an unhealthy room server, and so a whole pass of the health loop,
    keeps it when every recording job of the active map is listed exactly
    once by its recorder and the jobs of the active map are distinct; the
    stop of a recording job and the handling of a room server hand these
    two conditions on.  A heartbeat
    stores the reported load and list as they are: the equality holds
    after a heartbeat that reports neither, and after one that reports a
    load other than zero and a list of that length. *)
Theorem C2_load_accounting :
  forall (orc : Oracle) (now : Z) (s : State),
    accounted s ->
    (forall registration,
        accounted (finalState (registerRoomServer orc now registration s)))
    /\ (forall registration stamp,
           accounted (finalState (registerFFmpegNode orc now registration stamp s)))
    /\ (forall request stamp,
           accounted (finalState (startDistributedRecording orc now request stamp s)))
    /\ (forall id, accounted (finalState (handleUnhealthyFFmpegNode orc now id s)))
    /\ accounted (finalState (processJobQueue orc s))
    /\ (forall jobId,
           (forall r job ffmpegNode n,
               mget jobId (activeJobs s) = Some r -> jobs s !! r = Some job ->
               mget (Job.ffmpegNodeId job) (ffmpegNodes s) = Some ffmpegNode ->
               mget (FFmpegNode.id ffmpegNode) (ffmpegNodes s) = Some n ->
               occurrences (Job.jobId job) (FFmpegNode.activeJobs n) = 1%nat) ->
           accounted (finalState (stopDistributedRecording orc now jobId s)))
    /\ (forall jobId r job,
           mget jobId (activeJobs s) = Some r -> jobs s !! r = Some job ->
           Job.status job = recording ->
           listedOnce s -> distinctJobs s ->
           reconciled (finalState (stopDistributedRecording orc now jobId s)))
    /\ (forall id,
           listedOnce s -> distinctJobs s ->
           reconciled (finalState (handleUnhealthyRoomServer orc now id s)))
    /\ (listedOnce s -> distinctJobs s ->
        accounted (finalState (performHealthChecks orc now s)))
    /\ (forall nodeId,
           accounted (finalState (updateFFmpegNodeHeartbeat now nodeId
             {| fnh_currentLoad := None; fnh_activeJobs := None |} s)))
    /\ (forall nodeId load reported,
           ~ (load == 0)%Q ->
           (inject_Z (Z.of_nat (length reported)) == load)%Q ->
           accounted (finalState (updateFFmpegNodeHeartbeat now nodeId
             {| fnh_currentLoad := Some load; fnh_activeJobs := Some reported |} s))).
Proof.
  intros orc now s Hs. repeat apply conj.
  - intros. now apply accounted_registerRoomServer.
  - intros. now apply accounted_registerFFmpegNode.
  - intros. now apply accounted_startDistributedRecording.
  - intros. now apply accounted_handleUnhealthyFFmpegNode.
  - now apply accounted_processJobQueue.
  - intros. now apply accounted_stopDistributedRecording.
  - intros jobId r job Hr Hjob Hrec Hlisted Hdistinct.
    apply (stop_reconciled orc now jobId s r job); auto.
    repeat split; auto; apply Hdistinct.
  - intros id Hlisted Hdistinct. apply handleUnhealthyRoomServer_reconciled.
    repeat split; auto; apply Hdistinct.
  - intros Hlisted Hdistinct. apply performHealthChecks_accounted.
    repeat split; auto; apply Hdistinct.
  - intros. now apply accounted_bare_heartbeat.
  - intros. now apply accounted_consistent_heartbeat.
Qed.

Lemma C2_load_accounting_witness :
  accounted (finalState (stopDistributedRecording Fleet.okAll 5000 "rec-1" Fleet.recordingOne))
  /\ reconciled (finalState (stopDistributedRecording Fleet.okAll 5000 "rec-1"
                               Fleet.recordingOne))
  /\ reconciled (finalState (handleUnhealthyRoomServer Fleet.okAll 70000 "rs1"
                               Fleet.recordingOne))
  /\ accounted (finalState (performHealthChecks Fleet.okAll 70000 Fleet.recordingOne))
  /\ accounted (finalState (updateFFmpegNodeHeartbeat 5000 Fleet.rn1
       {| fnh_currentLoad := Some 1%Q; fnh_activeJobs := Some ["rec-1"] |}
       Fleet.recordingOne)).
Proof.
  assert (H : accounted Fleet.recordingOne) by (vm_compute; repeat constructor).
  assert (Hlisted : listedOnce Fleet.recordingOne).
  { intros r job ffmpegNode n Hr Hjob _ Hnode Hn.
    vm_compute in Hr. apply list_elem_of_singleton in Hr. subst r.
    vm_compute in Hjob. injection Hjob as <-.
    vm_compute in Hnode. injection Hnode as <-.
    vm_compute in Hn. injection Hn as <-.
    reflexivity. }
  assert (Hdistinct : distinctJobs Fleet.recordingOne).
  { split; [apply (bool_decide_unpack _); vm_compute; exact I|].
    intros r r' job job' Hr Hr' _ _ _.
    vm_compute in Hr, Hr'.
    apply list_elem_of_singleton in Hr, Hr'. congruence. }
  destruct (C2_load_accounting Fleet.okAll 70000 Fleet.recordingOne H)
    as (_ & _ & _ & _ & _ & _ & _ & Hserver & Hloop & _).
  destruct (C2_load_accounting Fleet.okAll 5000 Fleet.recordingOne H)
    as (_ & _ & _ & _ & _ & Hstop & Hstopped & _ & _ & _ & Hheartbeat).
  split; [|split; [|split; [|split]]].
  - apply Hstop. intros r job ffmpegNode n Hr Hjob Hnode Hn.
    vm_compute in Hr. injection Hr as <-.
    vm_compute in Hjob. injection Hjob as <-.
    vm_compute in Hnode. injection Hnode as <-.
    vm_compute in Hn. injection Hn as <-.
    reflexivity.
  - eapply (Hstopped "rec-1" 0%nat); auto; vm_compute; reflexivity.
  - now apply Hserver.
  - now apply Hloop.
  - apply Hheartbeat; [|reflexivity]. intros H1. vm_compute in H1. discriminate H1.
Defined.


Lemma assign_endTime orc r ffmpegNode roomServer s job :
  jobs s !! r = Some job -> Job.status job = pending ->
  endTimeOnlyIfTerminal s ->
  endTimeOnlyIfTerminal (finalState (assignJobToNode orc r ffmpegNode roomServer s)).
Proof.
  intros Hjob Hpending Honly.
  apply (endTimeOnlyIfTerminal_touched r s); [exact Honly| |].
  - apply assign_touchesOnly. apply touchesOnly_refl.
  - rewrite Hjob. simpl. destruct (Job.endTime job) as [t|] eqn:Hend; [|reflexivity].
    assert (Hterminal : isTerminal job = true)
      by (apply (Honly r); eauto; rewrite Hend; eauto).
    unfold isTerminal in Hterminal. rewrite Hpending in Hterminal. discriminate.
Qed.

(** ** Status writes of a stop, of a start and of the queue drain *)

Lemma stop_effect orc now jobId s r job :
  mget jobId (activeJobs s) = Some r ->
  jobs s !! r = Some job ->
  databaseAnswers orc ->
  let s' := finalState (stopDistributedRecording orc now jobId s) in
  extends (stopEvent r (Job.status job)) s s'
  /\ (jobs s' = alter (stopCompleted now) r (jobs s)
      \/ exists message, jobs s' = alter (stopFailed message now) r (jobs s)).
Proof.
  intros Hactive Hjob Hdb. unfold stopDistributedRecording.
  change (bind get ?k s) with (k s s). cbv beta zeta.
  rewrite Hactive, Hjob.
  destruct (mget (Job.ffmpegNodeId job) (ffmpegNodes s)) as [ffmpegNode|];
    destruct (mget (Job.roomServerId job) (roomServers s)) as [roomServer|];
    cbv [tryCatch bind stopRecordingOnNode stopRTPForwarding fetch call ret throw modify
         database setStatus withJob updateJob];
    repeat first
      [ rewrite Hjob
      | progress simpl
      | match goal with
        | |- context [orc ?n (DbUpdateRecordingJob ?j)] =>
            destruct (Hdb n (DbUpdateRecordingJob j) eq_refl) as (? & ? & ? & ->)
        | |- context [orc ?n ?c] => destruct (orc n c) as [?|[] ? ?]
        end ].
  all: unfold extends; simpl; rewrite <- ?app_assoc; simpl; rewrite ?list_alter_alter_eq.
  all: (split;
        [ eexists; split;
            [ reflexivity
            | repeat (apply List.Forall_cons; [simpl; first [exact I | repeat split; auto]|]);
              apply List.Forall_nil ]
        | first [ left; reflexivity | right; eexists; reflexivity ] ]).
Qed.

Lemma stop_recording_legal orc now jobId s r job :
  mget jobId (activeJobs s) = Some r ->
  jobs s !! r = Some job ->
  Job.status job = recording ->
  databaseAnswers orc ->
  let s' := finalState (stopDistributedRecording orc now jobId s) in
  extends legalEvent s s'
  /\ (exists job', jobs s' !! r = Some job'
                   /\ isTerminal job' = true /\ Job.endTime job' = Some now)
  /\ (endTimeOnlyIfTerminal s -> endTimeOnlyIfTerminal s').
Proof.
  intros Hactive Hjob Hrec Hdb s'.
  destruct (stop_effect orc now jobId s r job Hactive Hjob Hdb) as [Hlog Hjobs].
  fold s' in Hlog, Hjobs. split; [|split].
  - eapply extends_weaken; [|exact Hlog].
    intros [c|r' old new]; simpl; [auto|].
    rewrite Hrec. intros (_ & -> & [->| ->]); reflexivity.
  - destruct Hjobs as [->|[message ->]]; rewrite list_lookup_alter_eq, Hjob;
      eexists; (split; [reflexivity|]); split; reflexivity.
  - intros Honly y job' Hjob' Hset.
    destruct Hjobs as [Heq|[message Heq]]; rewrite Heq in Hjob';
      apply lookup_alter_of in Hjob' as (job0 & Hy & [[_ ->]|[_ ->]]);
      solve [eapply Honly; eauto | reflexivity].
Qed.

Lemma forEachWith_distinct {A L : Type} (Inv : State -> Prop) (Pre : A -> State -> Prop)
    (body : L -> A -> M L) (l : list A) :
  NoDup l ->
  (forall local x s, Inv s -> Pre x s -> Inv (finalState (body local x s))) ->
  (forall local x y s, x <> y -> Pre x s -> Pre y s ->
                       Pre y (finalState (body local x s))) ->
  forall local s, Inv s -> (forall x, x ∈ l -> Pre x s) ->
                  Inv (finalState (forEachWith l local body s)).
Proof.
  intros Hnodup Hinv Hpre.
  induction Hnodup as [|a l Hnotin Hnodup IH]; intros local s Hs Hall.
  - exact Hs.
  - simpl. unfold bind.
    pose proof (Hinv local a s Hs (Hall a (list_elem_of_here _ _))) as Ha.
    assert (Hrest : forall y, y ∈ l -> Pre y (finalState (body local a s))).
    { intros y Hy. apply Hpre;
        [|apply Hall, list_elem_of_here|apply Hall; now apply list_elem_of_further].
      intros ->. contradiction. }
    destruct (body local a s) as [local' s'|message s']; simpl in *; auto.
Qed.

Lemma final_bind_ret {A B : Type} (m : M A) (f : A -> B) s :
  finalState (bind m (fun a => ret (f a)) s) = finalState (m s).
Proof. unfold bind. destruct (m s); reflexivity. Qed.

Section DrainStatus.
Variable orc : Oracle.

Lemma processQueuedJob_final availableNodes r s job :
  jobs s !! r = Some job ->
  finalState (processQueuedJob orc availableNodes r s)
  = match mget (Job.roomServerId job) (roomServers s) with
    | None => s
    | Some roomServer =>
        if negb (RoomServerNode.isHealthy roomServer) then s
        else
          match selectOptimalFFmpegNode (nodesOf availableNodes s)
                  (drainRequirement job roomServer) with
          | None => s
          | Some selectedNode =>
              finalState (assignJobToNode orc r selectedNode roomServer
                            (with_jobQueue (removeFirst Nat.eqb r) s))
          end
    end.
Proof.
  intros Hjob. unfold processQueuedJob, drainRequirement.
  change (bind get ?k s) with (k s s). cbv beta.
  rewrite Hjob.
  destruct (mget (Job.roomServerId job) (roomServers s)) as [roomServer|];
    [|reflexivity].
  destruct (negb (RoomServerNode.isHealthy roomServer)); [reflexivity|].
  destruct (selectOptimalFFmpegNode _ _) as [selectedNode|]; [|reflexivity].
  unfold bind at 1, modify at 1.
  apply (final_bind_ret (assignJobToNode orc r selectedNode roomServer)
           (fun _ => removeFirst String.eqb (FFmpegNode.id selectedNode) availableNodes)).
Qed.

Lemma processQueuedJob_spec availableNodes r s0 s :
  statusOf r s = Some pending ->
  (extends legalEvent s0 s ->
   extends legalEvent s0 (finalState (processQueuedJob orc availableNodes r s)))
  /\ (forall y, y <> r ->
                jobs (finalState (processQueuedJob orc availableNodes r s)) !! y
                = jobs s !! y)
  /\ (endTimeOnlyIfTerminal s ->
      endTimeOnlyIfTerminal (finalState (processQueuedJob orc availableNodes r s))).
Proof.
  intros Hstatus. apply statusOf_Some in Hstatus as (job & Hjob & Hpending).
  rewrite (processQueuedJob_final availableNodes r s job Hjob).
  destruct (mget (Job.roomServerId job) (roomServers s)) as [roomServer|]; [|auto].
  destruct (negb (RoomServerNode.isHealthy roomServer)); [auto|].
  destruct (selectOptimalFFmpegNode _ _) as [selectedNode|]; [|auto].
  set (s1 := with_jobQueue (removeFirst Nat.eqb r) s).
  assert (Hjob1 : jobs s1 !! r = Some job) by exact Hjob.
  split; [|split].
  - intros Hlog. apply (extends_trans legalEvent s0 s1); [exact Hlog|].
    now apply (assign_legal orc r selectedNode roomServer s1 job).
  - intros y Hy.
    destruct (assign_touchesOnly orc r selectedNode roomServer s1 s1
                (touchesOnly_refl r s1)) as [Hother _].
    now rewrite Hother.
  - intros Honly. now apply (assign_endTime orc r selectedNode roomServer s1 job).
Qed.

Lemma processJobQueue_legal s :
  NoDup (jobQueue s) ->
  (forall r, r ∈ jobQueue s -> statusOf r s = Some pending) ->
  extends legalEvent s (finalState (processJobQueue orc s))
  /\ (endTimeOnlyIfTerminal s -> endTimeOnlyIfTerminal (finalState (processJobQueue orc s))).
Proof.
  intros Hnodup Hpending. unfold processJobQueue.
  change (bind get ?k s) with (k s s). cbv beta zeta.
  destruct (isEmpty (jobQueue s)); [simpl; split; [apply extends_refl | auto]|].
  rewrite (final_bind_ret _ (fun _ => tt)).
  assert (Hother : forall local x y s1,
             x <> y -> statusOf x s1 = Some pending -> statusOf y s1 = Some pending ->
             statusOf y (finalState (processQueuedJob orc local x s1)) = Some pending).
  { intros local x y s1 Hne Hx Hy.
    destruct (processQueuedJob_spec local x s1 s1 Hx) as (_ & Hjobs & _).
    unfold statusOf. rewrite Hjobs by congruence. exact Hy. }
  split.
  - apply (forEachWith_distinct (extends legalEvent s)
             (fun r s1 => statusOf r s1 = Some pending)); auto.
    + intros local r s1 Hlog Hr. now apply (processQueuedJob_spec local r s s1).
    + apply extends_refl.
  - intros Honly.
    apply (forEachWith_distinct endTimeOnlyIfTerminal
             (fun r s1 => statusOf r s1 = Some pending)); auto.
    intros local r s1 Hs1 Hr. now apply (processQueuedJob_spec local r s s1).
Qed.

End DrainStatus.

Lemma extends_same_log (E : Event -> Prop) s s1 : log s1 = log s -> extends E s s1.
Proof. intros H. exists []. split; [now rewrite H, app_nil_r | constructor]. Qed.

Section StartStatus.
Variable orc : Oracle.
Variable now : Z.

Lemma startDistributedRecording_legal request stamp s :
  extends legalEvent s (finalState (startDistributedRecording orc now request stamp s))
  /\ (endTimeOnlyIfTerminal s ->
      endTimeOnlyIfTerminal
        (finalState (startDistributedRecording orc now request stamp s))).
Proof.
  unfold startDistributedRecording. cbv zeta.
  change (bind get ?k s) with (k s s). cbv beta.
  destruct (mget (rq_roomServerId request) (roomServers s)) as [roomServer|];
    [|simpl; split; [apply extends_refl | auto]].
  destruct (negb (RoomServerNode.isHealthy roomServer));
    [simpl; split; [apply extends_refl | auto]|].
  match goal with
  | |- context [newJob ?j] => set (job := j)
  end.
  set (s1 := with_jobs (fun h => h ++ [job]) s).
  change (bind (newJob job) ?k s) with (k (length (jobs s)) s1). cbv beta.
  assert (Hjob1 : jobs s1 !! length (jobs s) = Some job).
  { unfold s1. simpl. apply list_lookup_middle. reflexivity. }
  assert (Honly1 : endTimeOnlyIfTerminal s -> endTimeOnlyIfTerminal s1).
  { intros Honly y job' Hjob' Hset. unfold s1 in Hjob'. simpl in Hjob'.
    apply lookup_app_Some in Hjob' as [Hjob'|[_ Hjob']]; [eapply Honly; eauto|].
    apply list_lookup_singleton_Some in Hjob' as [_ <-].
    destruct Hset as [t Ht]. discriminate Ht. }
  split.
  - apply (final_bind (extends legalEvent s)).
    + destruct (selectOptimalFFmpegNode _ _) as [selectedNode|].
      * apply (extends_trans legalEvent s s1); [now apply extends_same_log|].
        now apply (assign_legal orc _ selectedNode roomServer s1 job).
      * now apply extends_same_log.
    + intros _. log_auto.
  - intros Honly. apply (final_bind endTimeOnlyIfTerminal).
    + destruct (selectOptimalFFmpegNode _ _) as [selectedNode|].
      * apply (assign_endTime orc _ selectedNode roomServer s1 job); auto.
      * now apply Honly1.
    + intros _. repeat first [keeps_step | apply keeps_modify; intros ? ?; assumption
                             | intros ? ?; assumption].
Qed.

End StartStatus.

Lemma final_bind_with {A B : Type} (Q P : State -> Prop) (m : M A) (k : A -> M B) s :
  Q (finalState (m s)) ->
  (forall s1, Q s1 -> P s1) ->
  (forall a s1, Q s1 -> P (finalState (k a s1))) ->
  P (finalState (bind m k s)).
Proof.
  intros Hm Hweak Hk. unfold bind. destruct (m s); simpl in *; auto.
Qed.

Section HealthLoopPass.
Variable orc : Oracle.
Variable now : Z.

Lemma handleUnhealthyRoomServer_frame {T : Type} (component : State -> T) (v : T) id :
  (forall f s, component (with_roomServers f s) = component s) ->
  (forall f s, component (with_ffmpegNodes f s) = component s) ->
  (forall f s, component (with_jobs f s) = component s) ->
  (forall f s, component (with_log f s) = component s) ->
  keeps (fun s => component s = v) (handleUnhealthyRoomServer orc now id).
Proof.
  intros Hservers Hnodes Hjobs Hlog.
  unfold handleUnhealthyRoomServer, failAffectedJob, setStatus, updateJob,
    stopRecordingOnNode.
  repeat first
    [ keeps_step
    | apply keeps_modify; intros ? ?; rewrite ?Hservers, ?Hnodes, ?Hjobs, ?Hlog; assumption
    | intros ? ?; rewrite ?Hservers, ?Hnodes, ?Hjobs, ?Hlog; assumption ].
Qed.

Lemma handleUnhealthyFFmpegNode_frame {T : Type} (component : State -> T) (v : T) id :
  (forall f s, component (with_roomServers f s) = component s) ->
  (forall f s, component (with_ffmpegNodes f s) = component s) ->
  (forall f s, component (with_jobs f s) = component s) ->
  (forall f s, component (with_log f s) = component s) ->
  keeps (fun s => component s = v) (handleUnhealthyFFmpegNode orc now id).
Proof.
  intros Hservers Hnodes Hjobs Hlog.
  unfold handleUnhealthyFFmpegNode, reassignJob, assignJobToNode, assignSteps, assignFailed,
    setupRTPForwarding, allocateRTPPorts, startRecordingOnNode, setStatus, updateJob.
  repeat first
    [ keeps_step
    | apply keeps_modify; intros ? ?; rewrite ?Hservers, ?Hnodes, ?Hjobs, ?Hlog; assumption
    | intros ? ?; rewrite ?Hservers, ?Hnodes, ?Hjobs, ?Hlog; assumption ].
Qed.

Lemma handleUnhealthyRoomServer_keeps_pending id y s :
  NoDup (mvalues (activeJobs s)) -> statusOf y s = Some pending ->
  statusOf y (finalState (handleUnhealthyRoomServer orc now id s)) = Some pending.
Proof.
  intros Hnodup Hy.
  set (s0 := with_roomServers (malter (RoomServerNode.with_isHealthy false) id) s).
  change (statusOf y
            (finalState (forEach (affectedByRoomServer id s) (failAffectedJob orc now) s0))
          = Some pending).
  apply (forEach_distinct (fun s1 => statusOf y s1 = Some pending)
           (fun r s1 => statusOf r s1 = Some recording)).
  - now apply activeJobsWhere_NoDup.
  - intros r s1 Hpending Hrecording. apply failAffectedJob_other_status; [|exact Hpending].
    intros ->. congruence.
  - intros x z s1 Hne _. now apply failAffectedJob_other_status.
  - exact Hy.
  - intros r Hr. now apply activeJobsWhere_recording in Hr.
Qed.

Lemma handleUnhealthyFFmpegNode_keeps_pending id y s :
  NoDup (mvalues (activeJobs s)) -> statusOf y s = Some pending ->
  statusOf y (finalState (handleUnhealthyFFmpegNode orc now id s)) = Some pending.
Proof.
  intros Hnodup Hy.
  set (s0 := with_ffmpegNodes (malter (FFmpegNode.with_isHealthy false) id) s).
  change (statusOf y
            (finalState (forEach (affectedByRecorder id s) (reassignJob orc now id) s0))
          = Some pending).
  apply (forEach_distinct (fun s1 => statusOf y s1 = Some pending)
           (fun r s1 => statusOf r s1 = Some recording)).
  - now apply activeJobsWhere_NoDup.
  - intros r s1 Hpending Hrecording.
    destruct (reassignJob_spec orc now id r s1 s1 Hrecording) as (_ & Hother & _).
    unfold statusOf. rewrite Hother; [exact Hpending|]. intros ->. congruence.
  - intros x z s1. apply reassignJob_other_status.
  - exact Hy.
  - intros r Hr. now apply activeJobsWhere_recording in Hr.
Qed.

Lemma handleUnhealthyRoomServer_queueReady q id :
  keeps (queueReady q) (handleUnhealthyRoomServer orc now id).
Proof.
  intros s (Hnodup & Hqueue & Hpending). split; [|split].
  - now rewrite (handleUnhealthyRoomServer_frame activeJobs (activeJobs s) id) by auto.
  - now rewrite (handleUnhealthyRoomServer_frame jobQueue (jobQueue s) id) by auto.
  - intros r Hr. apply handleUnhealthyRoomServer_keeps_pending; auto.
Qed.

Lemma handleUnhealthyFFmpegNode_queueReady q id :
  keeps (queueReady q) (handleUnhealthyFFmpegNode orc now id).
Proof.
  intros s (Hnodup & Hqueue & Hpending). split; [|split].
  - now rewrite (handleUnhealthyFFmpegNode_frame activeJobs (activeJobs s) id) by auto.
  - now rewrite (handleUnhealthyFFmpegNode_frame jobQueue (jobQueue s) id) by auto.
  - intros r Hr. apply handleUnhealthyFFmpegNode_keeps_pending; auto.
Qed.

(** A pass of the health loop over a queue of pending jobs. *)
Lemma performHealthChecks_events s :
  NoDup (mvalues (activeJobs s)) ->
  NoDup (jobQueue s) ->
  (forall r, r ∈ jobQueue s -> statusOf r s = Some pending) ->
  extends failoverEvent s (finalState (performHealthChecks orc now s))
  /\ (endTimeOnlyIfTerminal s ->
      endTimeOnlyIfTerminal (finalState (performHealthChecks orc now s))).
Proof.
  intros Hnodup Hqueue Hpending.
  set (Inv := fun s1 => extends failoverEvent s s1
                        /\ (endTimeOnlyIfTerminal s -> endTimeOnlyIfTerminal s1)
                        /\ queueReady (jobQueue s) s1).
  set (G := fun s1 => extends failoverEvent s s1
                      /\ (endTimeOnlyIfTerminal s -> endTimeOnlyIfTerminal s1)).
  assert (Hweak : forall s1, Inv s1 -> G s1) by (intros s1 (Hlog & Hend & _); split; auto).
  assert (Hs : Inv s).
  { split; [apply extends_refl|]. split; [auto|]. repeat split; auto. }
  change (G (finalState (performHealthChecks orc now s))).
  unfold performHealthChecks. change (bind get ?k s) with (k s s). cbv beta.
  apply (final_bind_with Inv G); [|exact Hweak|intros _ s1 Hs1].
  { apply (keeps_forEach Inv); [|exact Hs]. intros id.
    apply keeps_bind; [apply keeps_get | intros s1].
    destruct (mget id (roomServers s1)) as [roomServer|]; [|apply keeps_ret].
    destruct (Z.ltb _ _); [|apply keeps_ret].
    intros s2 (Hlog & Hend & Hready). split; [|split].
    + apply (extends_trans failoverEvent s s2); [exact Hlog|].
      eapply extends_weaken; [apply legal_is_failover|].
      apply handleUnhealthyRoomServer_legal. apply Hready.
    + intros Honly. apply handleUnhealthyRoomServer_endTime. auto.
    + now apply handleUnhealthyRoomServer_queueReady. }
  apply (final_bind_with Inv G); [|exact Hweak|intros _ s2 Hs2].
  { apply (keeps_forEach Inv); [|exact Hs1]. intros id.
    apply keeps_bind; [apply keeps_get | intros s2].
    destruct (mget id (ffmpegNodes s2)) as [ffmpegNode|]; [|apply keeps_ret].
    destruct (Z.ltb _ _); [|apply keeps_ret].
    intros s3 (Hlog & Hend & Hready). split; [|split].
    + apply (extends_trans failoverEvent s s3); [exact Hlog|].
      apply handleUnhealthyFFmpegNode_events. apply Hready.
    + intros Honly. apply handleUnhealthyFFmpegNode_endTime; [apply Hready | auto].
    + now apply handleUnhealthyFFmpegNode_queueReady. }
  destruct Hs2 as (Hlog & Hend & Hnodup2 & Hqueue2 & Hpending2).
  destruct (processJobQueue_legal orc s2) as [Hdrain Hdrained].
  { now rewrite Hqueue2. }
  { intros r Hr. apply Hpending2. now rewrite <- Hqueue2. }
  split.
  - apply (extends_trans failoverEvent s s2); [exact Hlog|].
    eapply extends_weaken; [apply legal_is_failover | exact Hdrain].
  - auto.
Qed.

End HealthLoopPass.

(** C3, amended.  The status writes of the orchestrator follow the edges
    of the graph in these cases: the assign of a pending job
    ([pending → initializing], then [initializing → recording], or
    [→ failed] from either), and so every start of a recording; the stop
    of a recording job when the database answers ([recording → completed],
    or [recording → failed] when a call is rejected), which leaves the job
    terminal with [endTime]; the handling of an unhealthy room server
    ([recording → failed], with [endTime]); the queue drain when the
    queue holds pending jobs, each once.  The failover of a recorder, and
    so a whole pass of the health loop over such a queue, follows the
    edges except for the reset [recording → pending] that precedes the
    new assignment of a job for which a replacement recorder was found.
    Each of these operations keeps [endTime] confined to terminal jobs:
    when no job that is not terminal has [endTime] before it, none has
    after it. *)
Theorem C3_status_edges_of_the_operations :
  (forall (orc : Oracle) (r : nat) (ffmpegNode : FFmpegNode.t)
          (roomServer : RoomServerNode.t) (s : State) (job : Job.t),
      jobs s !! r = Some job ->
      Job.status job = pending ->
      let s' := finalState (assignJobToNode orc r ffmpegNode roomServer s) in
      extends legalEvent s s'
      /\ (endTimeOnlyIfTerminal s -> endTimeOnlyIfTerminal s'))
  /\ (forall (orc : Oracle) (now : Z) (request : DistributedRecordingRequest)
             (stamp : string) (s : State),
         let s' := finalState (startDistributedRecording orc now request stamp s) in
         extends legalEvent s s'
         /\ (endTimeOnlyIfTerminal s -> endTimeOnlyIfTerminal s'))
  /\ (forall (orc : Oracle) (now : Z) (jobId : string) (s : State) (r : nat) (job : Job.t),
         mget jobId (activeJobs s) = Some r ->
         jobs s !! r = Some job ->
         Job.status job = recording ->
         databaseAnswers orc ->
         let s' := finalState (stopDistributedRecording orc now jobId s) in
         extends legalEvent s s'
         /\ (exists job', jobs s' !! r = Some job'
                          /\ isTerminal job' = true /\ Job.endTime job' = Some now)
         /\ (endTimeOnlyIfTerminal s -> endTimeOnlyIfTerminal s'))
  /\ (forall (orc : Oracle) (now : Z) (id : string) (s : State),
         NoDup (mvalues (activeJobs s)) ->
         let s' := finalState (handleUnhealthyRoomServer orc now id s) in
         extends legalEvent s s'
         /\ (endTimeOnlyIfTerminal s -> endTimeOnlyIfTerminal s')
         /\ (forall r, r ∈ affectedByRoomServer id s ->
                       exists job', jobs s' !! r = Some job'
                                    /\ Job.status job' = failed
                                    /\ Job.endTime job' = Some now))
  /\ (forall (orc : Oracle) (now : Z) (id : string) (s : State),
         NoDup (mvalues (activeJobs s)) ->
         let s' := finalState (handleUnhealthyFFmpegNode orc now id s) in
         extends failoverEvent s s'
         /\ (endTimeOnlyIfTerminal s -> endTimeOnlyIfTerminal s'))
  /\ (forall (orc : Oracle) (s : State),
         NoDup (jobQueue s) ->
         (forall r, r ∈ jobQueue s -> statusOf r s = Some pending) ->
         let s' := finalState (processJobQueue orc s) in
         extends legalEvent s s'
         /\ (endTimeOnlyIfTerminal s -> endTimeOnlyIfTerminal s'))
  /\ (forall (orc : Oracle) (now : Z) (s : State),
         NoDup (mvalues (activeJobs s)) ->
         NoDup (jobQueue s) ->
         (forall r, r ∈ jobQueue s -> statusOf r s = Some pending) ->
         let s' := finalState (performHealthChecks orc now s) in
         extends failoverEvent s s'
         /\ (endTimeOnlyIfTerminal s -> endTimeOnlyIfTerminal s')).
Proof.
  repeat apply conj.
  - intros orc r ffmpegNode roomServer s job Hjob Hpending s'. split.
    + now apply (assign_legal orc r ffmpegNode roomServer s job).
    + now apply (assign_endTime orc r ffmpegNode roomServer s job).
  - intros orc now request stamp s. apply startDistributedRecording_legal.
  - intros orc now jobId s r job. apply stop_recording_legal.
  - intros orc now id s Hnodup s'. split; [|split].
    + now apply handleUnhealthyRoomServer_legal.
    + now apply handleUnhealthyRoomServer_endTime.
    + intros r Hr.
      destruct (affectedByRoomServer_failed orc now id s r Hr)
        as (job' & Hjob' & Hfailed & _ & Hend).
      exists job'. auto.
  - intros orc now id s Hnodup s'. split.
    + now apply handleUnhealthyFFmpegNode_events.
    + now apply handleUnhealthyFFmpegNode_endTime.
  - intros orc s. apply processJobQueue_legal.
  - intros orc now s. apply performHealthChecks_events.
Qed.

Lemma C3_status_edges_of_the_operations_witness :
  (extends legalEvent Fleet.secondCreated
     (finalState (assignJobToNode Fleet.okAll 1 Fleet.recorder1 Fleet.roomServer1
                    Fleet.secondCreated))
   /\ endTimeOnlyIfTerminal
        (finalState (assignJobToNode Fleet.okAll 1 Fleet.recorder1 Fleet.roomServer1
                       Fleet.secondCreated)))
  /\ (extends legalEvent Fleet.recordingOne
        (finalState (stopDistributedRecording Fleet.okAll 5000 "rec-1" Fleet.recordingOne))
      /\ exists job',
           jobs (finalState (stopDistributedRecording Fleet.okAll 5000 "rec-1"
                               Fleet.recordingOne)) !! 0%nat = Some job'
           /\ isTerminal job' = true /\ Job.endTime job' = Some 5000)
  /\ (extends legalEvent Restored.restored
        (finalState (handleUnhealthyRoomServer Fleet.okAll 70000 "rs1" Restored.restored))
      /\ exists job',
           jobs (finalState (handleUnhealthyRoomServer Fleet.okAll 70000 "rs1"
                               Restored.restored)) !! 1%nat = Some job'
           /\ Job.status job' = failed /\ Job.endTime job' = Some 70000)
  /\ extends failoverEvent Failover.before
       (finalState (handleUnhealthyFFmpegNode Fleet.okAll 70000 Fleet.rn1 Failover.before))
  /\ extends legalEvent Requeue.waiting
       (finalState (processJobQueue Fleet.okAll Requeue.waiting))
  /\ extends failoverEvent Requeue.waiting
       (finalState (performHealthChecks Fleet.okAll 5000 Requeue.waiting)).
Proof.
  destruct C3_status_edges_of_the_operations
    as (Hassign & _ & Hstop & Hserver & Hrecorder & Hdrain & Hpass).
  assert (Hwaiting : forall r, r ∈ jobQueue Requeue.waiting ->
                               statusOf r Requeue.waiting = Some pending).
  { intros r Hr. vm_compute in Hr. apply list_elem_of_singleton in Hr. subst r.
    reflexivity. }
  repeat apply conj.
  - refine (proj1 (Hassign Fleet.okAll 1%nat Fleet.recorder1 Fleet.roomServer1
                     Fleet.secondCreated (Fleet.pendingJob "rec-2" 2000) _ _));
      [vm_compute; reflexivity | reflexivity].
  - refine (proj2 (Hassign Fleet.okAll 1%nat Fleet.recorder1 Fleet.roomServer1
                     Fleet.secondCreated (Fleet.pendingJob "rec-2" 2000) _ _) _);
      [vm_compute; reflexivity | reflexivity |].
    intros r job Hjob [t Hset].
    destruct r as [|[|r]]; vm_compute in Hjob; [| |discriminate];
      injection Hjob as <-; discriminate Hset.
  - edestruct (Hstop Fleet.okAll 5000 "rec-1" Fleet.recordingOne 0%nat) as (Hlegal & _).
    + vm_compute. reflexivity.
    + vm_compute. reflexivity.
    + reflexivity.
    + intros n c _. do 3 eexists. reflexivity.
    + exact Hlegal.
  - edestruct (Hstop Fleet.okAll 5000 "rec-1" Fleet.recordingOne 0%nat) as (_ & Hdone & _).
    + vm_compute. reflexivity.
    + vm_compute. reflexivity.
    + reflexivity.
    + intros n c _. do 3 eexists. reflexivity.
    + exact Hdone.
  - refine (proj1 (Hserver Fleet.okAll 70000 "rs1" Restored.restored _)).
    apply (bool_decide_unpack _). vm_compute. exact I.
  - destruct (Hserver Fleet.okAll 70000 "rs1" Restored.restored) as (_ & _ & Hfailed).
    + apply (bool_decide_unpack _). vm_compute. exact I.
    + apply Hfailed. vm_compute. apply list_elem_of_here.
  - refine (proj1 (Hrecorder Fleet.okAll 70000 Fleet.rn1 Failover.before _)).
    apply (bool_decide_unpack _). vm_compute. exact I.
  - refine (proj1 (Hdrain Fleet.okAll Requeue.waiting _ Hwaiting)).
    apply (bool_decide_unpack _). vm_compute. exact I.
  - refine (proj1 (Hpass Fleet.okAll 5000 Requeue.waiting _ _ Hwaiting)).
    + apply (bool_decide_unpack _). vm_compute. exact I.
    + apply (bool_decide_unpack _). vm_compute. exact I.
Defined.
